(** * fastcov: a shallow embedding of the distillation engine, the exclusion
    marker scanner, the chunking rule and the LCOV / JSON serialisers.

    Conventions of the embedding.
    - Python [int] is [Z]; [len] and list indices are [nat].
    - Python [str] is [string], read as the UTF-8 bytes of the text: substring
      search, [startswith] and the lexicographic order of [str] agree with the
      byte-wise ones on UTF-8.
    - A [dict] is a [gmap].  The LCOV listings are passed through [sorted]
      and the order of the members of a JSON object is immaterial; where the
      code reads the keys of a dict in its insertion order (the fan-out of
      the scanning phase), the list of keys is a parameter of the model.
    - The threads of a phase run concurrently.  The scanning workers act on
      the records of disjoint chunks and are composed in spawn order; the
      gcov workers append to shared lists, and every interleaving of their
      appends is a run.
    - The raw records hold the numeric fields after the [int(...)] coercion of
      the code. *)

From stdpp Require Import gmap strings list fin_maps sorting pretty.
From Stdlib Require Import ZArith Lia Ascii.

Set Warnings "-clear-no-such-hyp,-register-all".

(** ** Data model *)

(** One entry of [source_raw["functions"]]. *)
Record function_raw := FunctionRaw {
  fn_name : string;
  fn_start_line : Z;
  fn_execution_count : Z
}.

(** One entry of [line_raw["branches"]]. *)
Record branch_raw := BranchRaw {
  br_count : Z;
  br_throw : bool
}.

(** One entry of [source_raw["lines"]]. *)
Record line_raw := LineRaw {
  ln_line_number : Z;
  ln_count : Z;
  ln_branches : list branch_raw
}.

(** One element of gcov's ["files"] array, after [processGcov] added
    ["file_abs"]. *)
Record source_raw := SourceRaw {
  file_abs : string;
  raw_functions : list function_raw;
  raw_lines : list line_raw
}.

(** The value stored under a function name:
    [{"start_line": ..., "execution_count": ...}]. *)
Record fdata := Fdata {
  start_line : Z;
  execution_count : Z
}.

(** The value stored under a source path:
    [{"functions": {}, "branches": {}, "lines": {}}]. *)
Record source_data := SourceData {
  functions : gmap string fdata;
  branches : gmap Z (list Z);
  lines : gmap Z Z
}.

(** [report_json = {"sources": {}}]. *)
Record report := Report {
  sources : gmap string source_data
}.

Global Instance function_raw_eq_dec : EqDecision function_raw.
Proof. solve_decision. Defined.
Global Instance branch_raw_eq_dec : EqDecision branch_raw.
Proof. solve_decision. Defined.
Global Instance fdata_eq_dec : EqDecision fdata.
Proof. solve_decision. Defined.

(** ** Loops with [break], [continue] and [return] *)

(** What one iteration of a [for] body does to the loop: fall through to the
    next index ([continue] included), [break], or [return] from the function. *)
Inductive loop_ctl (S R : Type) :=
  | Next (s : S)
  | Break (s : S)
  | Return (r : R).
Global Arguments Next {S R} s.
Global Arguments Break {S R} s.
Global Arguments Return {S R} r.

(** [for i in idxs: body], from state [s]: the state after the loop, or the
    value returned from inside it. *)
Fixpoint for_loop {S R I : Type} (body : S → I → loop_ctl S R) (s : S)
    (idxs : list I) : S + R :=
  match idxs with
  | [] => inl s
  | i :: idxs =>
      match body s i with
      | Next s' => for_loop body s' idxs
      | Break s' => inl s'
      | Return r => inr r
      end
  end.

(** [range(0, n, 2)]. *)
Definition range2 (n : nat) : list nat :=
  (λ k, 2 * k) <$> seq 0 ((n + 1) / 2).

(** ** Distillation *)

(** [distillFunction(function_raw, functions)]. *)
Definition distillFunction (f : function_raw) (fns : gmap string fdata)
    : gmap string fdata :=
  let function_name := fn_name f in
  let start_line' := fn_start_line f in
  let execution_count' := fn_execution_count f in
  match fns !! function_name with
  | None => <[function_name := Fdata start_line' execution_count']> fns
  | Some fd =>
      <[function_name :=
          Fdata (start_line fd) (execution_count fd + execution_count')]> fns
  end.

(** [emptyBranchSet(branch1, branch2)]. *)
Definition emptyBranchSet (branch1 branch2 : branch_raw) : bool :=
  (br_count branch1 =? 0)%Z && (br_count branch2 =? 0)%Z.

(** [matchingBranchSet(branch1, branch2)]. *)
Definition matchingBranchSet (branch1 branch2 : branch_raw) : bool :=
  (br_count branch1 =? br_count branch2)%Z.

(** [matchingBranchSet(filtered_branches[-1], filtered_branches[-2])]; the
    code evaluates it only behind [len(filtered_branches) >= 2]. *)
Definition last_two_matching (filtered_branches : list branch_raw) : bool :=
  match filtered_branches !! (length filtered_branches - 1),
        filtered_branches !! (length filtered_branches - 2) with
  | Some b1, Some b2 => matchingBranchSet b1 b2
  | _, _ => false
  end.

(** The body of the loop of [filterExceptionalBranches] at index [i]; the
    state is [(filtered_branches, exception_branch)]. *)
Definition filter_body (brs : list branch_raw)
    (st : list branch_raw * bool) (i : nat)
    : loop_ctl (list branch_raw * bool) (list branch_raw) :=
  let '(filtered_branches, exception_branch) := st in
  match brs !! i with
  | None => Break st (* not reached: [i] ranges below [len(branches)] *)
  | Some b_i =>
      match brs !! (i + 1) with
      | None => Break (filtered_branches ++ [b_i], exception_branch)
      | Some b_i1 =>
          if br_throw b_i1 then Next (filtered_branches, true)
          else if exception_branch && emptyBranchSet b_i b_i1
                  && bool_decide (2 ≤ length filtered_branches)
                  && last_two_matching filtered_branches
          then Return []
          else Next (filtered_branches ++ [b_i; b_i1], exception_branch)
      end
  end.

(** [filterExceptionalBranches(branches)]. *)
Definition filterExceptionalBranches (brs : list branch_raw)
    : list branch_raw :=
  match for_loop (filter_body brs) ([], false) (range2 (length brs)) with
  | inl (filtered_branches, _) => filtered_branches
  | inr r => r
  end.

(** The branch list that [distillLine] accumulates: [line_raw["branches"]]
    after the optional filtering.  (The code stores the filtered list back
    into [line_raw]; the raw record is not read again by anything modelled
    here.) *)
Definition incoming_branches (l : line_raw)
    (include_exceptional_branches : bool) : list branch_raw :=
  if include_exceptional_branches then ln_branches l
  else filterExceptionalBranches (ln_branches l).

(** One iteration of the loop "Increment all branch counts" of [distillLine]
    for the pair [(i, branch)] of [enumerate(line_raw["branches"])], where
    [glen = len(line_raw["branches"])].  The indexed update is in range
    (lemma [accumulate_index_in_range]), so no [IndexError] can be raised. *)
Definition accumulate_branch (line_number : Z) (glen : nat)
    (brs : gmap Z (list Z)) (ib : nat * branch_raw) : gmap Z (list Z) :=
  let '(i, branch) := ib in
  let brs1 :=
    match brs !! line_number with
    | None => <[line_number := []]> brs
    | Some _ => brs
    end in
  let cur := default [] (brs1 !! line_number) in
  let blen := length cur in
  let cur1 := if bool_decide (blen < glen)
              then cur ++ replicate (glen - blen) 0%Z else cur in
  <[line_number := alter (λ c, (c + br_count branch)%Z) i cur1]> brs1.

(** [distillLine(line_raw, lines, branches, include_exceptional_branches)]:
    the new [lines] and [branches]. *)
Definition distillLine (l : line_raw) (lns : gmap Z Z)
    (brs : gmap Z (list Z)) (include_exceptional_branches : bool)
    : gmap Z Z * gmap Z (list Z) :=
  let line_number := ln_line_number l in
  let count := ln_count l in
  let lns' :=
    match lns !! line_number with
    | None => <[line_number := count]> lns
    | Some c => <[line_number := (c + count)%Z]> lns
    end in
  let incoming := incoming_branches l include_exceptional_branches in
  (lns',
   foldl (accumulate_branch line_number (length incoming)) brs
     (imap pair incoming)).

(** [distillSource(source_raw, sources, include_exceptional_branches)]. *)
Definition distillSource (s : source_raw) (srcs : gmap string source_data)
    (include_exceptional_branches : bool) : gmap string source_data :=
  let source_name := file_abs s in
  let srcs1 :=
    match srcs !! source_name with
    | None => <[source_name := SourceData ∅ ∅ ∅]> srcs
    | Some _ => srcs
    end in
  let data := default (SourceData ∅ ∅ ∅) (srcs1 !! source_name) in
  let fns := foldl (λ fns f, distillFunction f fns) (functions data)
               (raw_functions s) in
  let lb := foldl (λ lb l, distillLine l lb.1 lb.2
                             include_exceptional_branches)
              (lines data, branches data) (raw_lines s) in
  <[source_name := SourceData fns lb.2 lb.1]> srcs1.

(** [distillReport(report_raw, include_exceptional_branches)]. *)
Definition distillReport (report_raw : list source_raw)
    (include_exceptional_branches : bool) : report :=
  Report (foldl (λ srcs s, distillSource s srcs include_exceptional_branches)
            ∅ report_raw).

(** ** Specification-side vocabulary for the function merge *)

(** The entries of [fs] for the function called [name], in sighting order. *)
Definition named (name : string) (fs : list function_raw)
    : list function_raw :=
  filter (λ f, fn_name f = name) fs.

(** The sum of the execution counts of the entries of [fs]. *)
Definition count_sum (fs : list function_raw) : Z :=
  foldr (λ f acc, (fn_execution_count f + acc)%Z) 0%Z fs.

(** The function entries that the records of [report_raw] with absolute path
    [path] hold for [name], in the order in which distillation meets them. *)
Definition sightings (path name : string) (report_raw : list source_raw)
    : list function_raw :=
  named name
    (report_raw ≫= λ s, if decide (file_abs s = path) then raw_functions s
                        else []).

(** The entry expected after merging the sightings [l] into a previous entry
    [prev] (if any): the start line of the first sighting of all, the counts
    added up. *)
Definition merged (prev : option fdata) (l : list function_raw)
    : option fdata :=
  match prev, l with
  | Some fd, _ =>
      Some (Fdata (start_line fd) (execution_count fd + count_sum l))
  | None, [] => None
  | None, f :: _ => Some (Fdata (fn_start_line f) (count_sum l))
  end.

(** [report["sources"][path]["functions"].get(name)]. *)
Definition fn_lookup (srcs : gmap string source_data) (path name : string)
    : option fdata :=
  srcs !! path ≫= λ d, functions d !! name.

(** ** Specification-side vocabulary for the branch accumulation *)

(** The canonical list zero-extended to at least [n] entries. *)
Definition zero_extend (canon : list Z) (n : nat) : list Z :=
  canon ++ replicate (n - length canon) 0%Z.

(** The incoming counts added index-wise into a canonical list that is at
    least as long; canonical entries beyond the incoming list are kept. *)
Fixpoint add_indexwise (canon incoming : list Z) : list Z :=
  match canon, incoming with
  | c :: canon', x :: incoming' => (c + x)%Z :: add_indexwise canon' incoming'
  | _, _ => canon
  end.

(** Zero-extend first, then add index-wise. *)
Definition merge_counts (canon incoming : list Z) : list Z :=
  add_indexwise (zero_extend canon (length incoming)) incoming.

(** [len(branches[k])], and 0 when line [k] has no branch entry. *)
Definition branch_len (brs : gmap Z (list Z)) (k : Z) : nat :=
  from_option length 0 (brs !! k).

(** [len(sources[path]["branches"][k])], and 0 when there is no such entry. *)
Definition source_branch_len (srcs : gmap string source_data) (path : string)
    (k : Z) : nat :=
  from_option (λ d, branch_len (branches d) k) 0 (srcs !! path).

(** ** Specification-side vocabulary for the branch noise filter *)

(** The loop of [filterExceptionalBranches] read pair by pair over the part
    of the list that is still to be visited (lemma [for_loop_filter_pairs]
    relates it to the indexed loop). *)
Fixpoint filter_pairs (brs : list branch_raw) (st : list branch_raw * bool)
    : list branch_raw * bool + list branch_raw :=
  match brs with
  | [] => inl st
  | [b] => inl (st.1 ++ [b], st.2)
  | b1 :: b2 :: rest =>
      if br_throw b2 then filter_pairs rest (st.1, true)
      else if st.2 && emptyBranchSet b1 b2
              && bool_decide (2 ≤ length st.1)
              && last_two_matching st.1
      then inr []
      else filter_pairs rest (st.1 ++ [b1; b2], st.2)
  end.

(** Adjacent pairs whose second element is flagged [throw] removed; all
    other pairs, and an unpaired last element, kept in order. *)
Fixpoint drop_throw_pairs (brs : list branch_raw) : list branch_raw :=
  match brs with
  | [] => []
  | [b] => [b]
  | b1 :: b2 :: rest =>
      if br_throw b2 then drop_throw_pairs rest
      else b1 :: b2 :: drop_throw_pairs rest
  end.

(** Some adjacent pair of [brs] has its second element flagged [throw]. *)
Fixpoint has_throw_pair (brs : list branch_raw) : bool :=
  match brs with
  | b1 :: b2 :: rest => br_throw b2 || has_throw_pair rest
  | _ => false
  end.

(** The condition under which the loop returns the empty list: the input
    splits, at a pair boundary, into [before ++ c1 :: c2 :: rest] such that
    some pair of [before] was dropped, the pair [(c1, c2)] is not itself an
    exception pair and has counts 0 and 0, and the pair [(r1, r2)] retained
    last from [before] has two equal counts. *)
Definition initializer_noise (brs : list branch_raw) : Prop :=
  ∃ before c1 c2 rest kept r1 r2,
    brs = before ++ c1 :: c2 :: rest
    ∧ Nat.even (length before) = true
    ∧ has_throw_pair before = true
    ∧ br_throw c2 = false
    ∧ br_count c1 = 0%Z ∧ br_count c2 = 0%Z
    ∧ drop_throw_pairs before = kept ++ [r1; r2]
    ∧ br_count r1 = br_count r2.

(** The reading of the rule as "a pair has just been dropped and the two
    pairs retained last are both 0/0 and identical": the input splits into
    [before ++ [q1; q2; q1; q2; d1; d2] ++ rest] at a pair boundary, the
    pair [(q1, q2)], retained twice, has counts 0 and 0 and [(d1, d2)] is an
    exception pair. *)
Definition dropped_after_two_empty_pairs (brs : list branch_raw) : Prop :=
  ∃ before q1 q2 d1 d2 rest,
    brs = before ++ [q1; q2; q1; q2; d1; d2] ++ rest
    ∧ Nat.even (length before) = true
    ∧ has_throw_pair before = false
    ∧ br_throw q2 = false
    ∧ br_count q1 = 0%Z ∧ br_count q2 = 0%Z
    ∧ br_throw d2 = true.

(** [initializer_noise] for the loop resumed in the state [(f, e)]: what was
    retained so far and whether a pair was dropped so far. *)
Definition noise_from (f : list branch_raw) (e : bool)
    (brs : list branch_raw) : Prop :=
  ∃ before c1 c2 rest kept r1 r2,
    brs = before ++ c1 :: c2 :: rest
    ∧ Nat.even (length before) = true
    ∧ e || has_throw_pair before = true
    ∧ br_throw c2 = false
    ∧ br_count c1 = 0%Z ∧ br_count c2 = 0%Z
    ∧ f ++ drop_throw_pairs before = kept ++ [r1; r2]
    ∧ br_count r1 = br_count r2.

(** ** Exceptions *)

(** The exceptions that the modelled code can raise. *)
Inductive exn :=
  | ZeroDivisionError
  | ValueError
  | KeyError
  | FileNotFoundError.

(** A computation that returns a value or raises. *)
Inductive result (A : Type) :=
  | Ok (a : A)
  | Raise (e : exn).
Global Arguments Ok {A} a.
Global Arguments Raise {A} e.

Definition result_bind {A B} (r : result A) (k : A → result B) : result B :=
  match r with
  | Ok a => k a
  | Raise e => Raise e
  end.

(** ** Chunking and thread fan-out *)

(** [range(0, stop, step)]: [ValueError] for a zero step, empty for a
    negative one. *)
Definition range_step (stop : nat) (step : Z) : result (list nat) :=
  if decide (step = 0%Z) then Raise ValueError
  else if decide (step < 0)%Z then Ok []
  else
    let n := Z.to_nat step in
    Ok ((λ k, k * n) <$> seq 0 ((stop + n - 1) / n)).

(** [chunks(l, n)], the generator read out as a list: [l[i:i + n]] for [i]
    in [range(0, len(l), n)]. *)
Definition chunks {A} (l : list A) (n : Z) : result (list (list A)) :=
  result_bind (range_step (length l) n) (λ idxs,
    Ok ((λ i, take (Z.to_nat n) (drop i l)) <$> idxs)).

(** [max(min_chunk_size, int(total / jobs) + 1)], the chunk size of both
    [processGcdas] and [scanExclusionMarkers].  [total / jobs] is a float
    division and [int] truncates towards zero; the float quotient has the
    integer part of the exact one for [total < 2^53]. *)
Definition chunk_size (min_chunk_size jobs : Z) (total : nat) : result Z :=
  if decide (jobs = 0%Z) then Raise ZeroDivisionError
  else Ok (Z.max min_chunk_size (Z.quot (Z.of_nat total) jobs + 1)).

(** The threads started by [processGcdas]: one [gcovWorker] per element of
    the result, which is the [chunk] argument of that thread. *)
Definition processGcdas_threads (jobs : Z) (coverage_files : list string)
    (min_chunk_size : Z) : result (list (list string)) :=
  result_bind (chunk_size min_chunk_size jobs (length coverage_files))
    (chunks coverage_files).

(** [keys] lists the paths of the dict [fastcov_json["sources"]], each
    once.  [list(fastcov_json["sources"].keys())] is such a list, in the
    insertion order of the dict; a [gmap] does not record that order, so
    the list is a parameter of the scanning phase, and what is proved of the
    phase holds for every order. *)
Definition keys_of (fastcov_json : report) (keys : list string) : Prop :=
  keys ≡ₚ (map_to_list (sources fastcov_json)).*1.

(** The threads started by [scanExclusionMarkers]: one [exclMarkerWorker]
    per element of the result, which is the [chunk] argument of that thread.
    [keys] is [list(fastcov_json["sources"].keys())]. *)
Definition scanExclusionMarkers_threads (fastcov_json : report)
    (keys : list string) (jobs : Z) (min_chunk_size : Z)
    : result (list (list string)) :=
  result_bind (chunk_size min_chunk_size jobs (size (sources fastcov_json)))
    (chunks keys).

(** The chunk size as the specification words it:
    [max(minChunkSize, ceil(totalFiles / workerCount))]. *)
Definition ceil_div (a b : Z) : Z := ((a + b - 1) / b)%Z.

Definition ceiling_chunk_size (min_chunk_size jobs : Z) (total : nat) : Z :=
  Z.max min_chunk_size (ceil_div (Z.of_nat total) jobs).

(** [cs] cuts [l] into contiguous chunks of [n] elements, the last one
    holding what is left (at least one element). *)
Definition chunked {A} (l : list A) (n : nat) (cs : list (list A)) : Prop :=
  concat cs = l
  ∧ length cs = (length l + n - 1) / n
  ∧ ∀ k c, cs !! k = Some c →
      c = take n (drop (k * n) l)
      ∧ length c = n `min` (length l - k * n)
      ∧ 0 < length c.

(** ** Exclusion marker scanning *)

(** [needle in line]. *)
Fixpoint contains (needle line : string) : bool :=
  String.prefix needle line
  || match line with
     | EmptyString => false
     | String _ line' => contains needle line'
     end.

(** [c.isspace()] for a character of one UTF-8 byte: tab, line feed,
    vertical tab, form feed, carriage return, the separators 0x1c to 0x1f
    and the space. *)
Definition isspace (c : ascii) : bool :=
  match c with
  | "009" | "010" | "011" | "012" | "013"
  | "028" | "029" | "030" | "031" | " " => true
  | _ => false
  end%char.

(** The last byte of the three-byte white space that starts with the bytes
    0xe2 0x80: U+2000 to U+200A, U+2028, U+2029 and U+202F. *)
Definition isspace_e2_80 (c : ascii) : bool :=
  match c with
  | "128" | "129" | "130" | "131" | "132" | "133" | "134" | "135"
  | "136" | "137" | "138" | "168" | "169" | "175" => true
  | _ => false
  end%char.

(** [line.lstrip()]: the white space of [str] is stripped, which beyond
    the one-byte characters of [isspace] is U+0085 and U+00A0 (0xc2 0x85,
    0xc2 0xa0), U+1680 (0xe1 0x9a 0x80), U+2000 to U+200A, U+2028, U+2029
    and U+202F (0xe2 0x80 and a byte of [isspace_e2_80]), U+205F
    (0xe2 0x81 0x9f) and U+3000 (0xe3 0x80 0x80). *)
Fixpoint lstrip (line : string) : string :=
  match line with
  | EmptyString => EmptyString
  | String c line1 =>
      if isspace c then lstrip line1
      else
        match c, line1 with
        | "194"%char, String c2 line2 =>
            match c2 with
            | "133"%char | "160"%char => lstrip line2
            | _ => line
            end
        | "225"%char, String "154"%char (String "128"%char line3) =>
            lstrip line3
        | "226"%char, String "128"%char (String c3 line3) =>
            if isspace_e2_80 c3 then lstrip line3 else line
        | "226"%char, String "129"%char (String "159"%char line3) =>
            lstrip line3
        | "227"%char, String "128"%char (String "128"%char line3) =>
            lstrip line3
        | _, _ => line
        end
  end.

(** [line.lstrip().startswith(e)]. *)
Definition lstrip_startswith (line e : string) : bool :=
  String.prefix e (lstrip line).

(** A worker runs on the shared dict [fastcov_sources] and may raise; the
    store carried by [Raised] is the dict as the exception leaves it, since
    the mutations are in place. *)
Inductive outcome (A : Type) :=
  | Done (a : A) (srcs : gmap string source_data)
  | Raised (e : exn) (srcs : gmap string source_data).
Global Arguments Done {A} a srcs.
Global Arguments Raised {A} e srcs.

Definition scan (A : Type) : Type := gmap string source_data → outcome A.

Global Instance scan_ret : MRet scan := λ A a srcs, Done a srcs.
Global Instance scan_bind : MBind scan := λ A B k m srcs,
  match m srcs with
  | Done a srcs' => k a srcs'
  | Raised e srcs' => Raised e srcs'
  end.

(** [i in fastcov_sources[source]["branches"]]. *)
Definition in_branches (source : string) (i : Z) : scan bool := λ srcs,
  match srcs !! source with
  | None => Raised KeyError srcs
  | Some d => Done (bool_decide (is_Some (branches d !! i))) srcs
  end.

(** [i in fastcov_sources[source]["lines"]]. *)
Definition in_lines (source : string) (i : Z) : scan bool := λ srcs,
  match srcs !! source with
  | None => Raised KeyError srcs
  | Some d => Done (bool_decide (is_Some (lines d !! i))) srcs
  end.

(** [del fastcov_sources[source]["branches"][i]]: [KeyError] when line [i]
    has no branch entry. *)
Definition del_branches (source : string) (i : Z) : scan () := λ srcs,
  match srcs !! source with
  | None => Raised KeyError srcs
  | Some d =>
      match branches d !! i with
      | None => Raised KeyError srcs
      | Some _ =>
          Done () (<[source := SourceData (functions d)
                                 (delete i (branches d)) (lines d)]> srcs)
      end
  end.

(** [del fastcov_sources[source]["lines"][i]]. *)
Definition del_lines (source : string) (i : Z) : scan () := λ srcs,
  match srcs !! source with
  | None => Raised KeyError srcs
  | Some d =>
      match lines d !! i with
      | None => Raised KeyError srcs
      | Some _ =>
          Done () (<[source := SourceData (functions d) (branches d)
                                 (delete i (lines d))]> srcs)
      end
  end.

(** [list(fastcov_sources[source]["branches"].keys())]. *)
Definition branches_keys (source : string) : scan (list Z) := λ srcs,
  match srcs !! source with
  | None => Raised KeyError srcs
  | Some d => Done (map_to_list (branches d)).*1 srcs
  end.

(** [list(fastcov_sources[source]["lines"].keys())]. *)
Definition lines_keys (source : string) : scan (list Z) := λ srcs,
  match srcs !! source with
  | None => Raised KeyError srcs
  | Some d => Done (map_to_list (lines d)).*1 srcs
  end.

(** [for x in xs: body(x)] in a worker. *)
Fixpoint scan_for {A} (xs : list A) (body : A → scan ()) : scan () :=
  match xs with
  | [] => mret ()
  | x :: xs => body x ;; scan_for xs body
  end.

(** [if c: m]. *)
Definition when (c : bool) (m : scan ()) : scan () :=
  if c then m else mret ().

(** The first part of the loop body of [exclMarkerWorker]: the two branch
    filters on the text of line [i]. *)
Definition branch_prefix_filters (source : string)
    (exclude_branches_sw include_branches_sw : list string)
    (i : Z) (line : string) : scan () :=
  b ← in_branches source i;
  when b (
    when (bool_decide (include_branches_sw ≠ [])
          && forallb (λ e, negb (lstrip_startswith line e))
               include_branches_sw)
      (del_branches source i) ;;
    when (bool_decide (exclude_branches_sw ≠ [])
          && existsb (λ e, lstrip_startswith line e) exclude_branches_sw)
      (del_branches source i)).

(** The marker that the [if]/[elif] chain of [exclMarkerWorker] acts on. *)
Inductive marker :=
  | ExclLine
  | ExclStart
  | ExclStop
  | ExclBrLine.

Definition marker_of (line : string) : option marker :=
  if negb (contains "LCOV_EXCL" line) then None
  else if contains "LCOV_EXCL_LINE" line then Some ExclLine
  else if contains "LCOV_EXCL_START" line then Some ExclStart
  else if contains "LCOV_EXCL_STOP" line then Some ExclStop
  else if contains "LCOV_EXCL_BR_LINE" line then Some ExclBrLine
  else None.

(** [start_line <= line_num <= end_line]. *)
Definition in_range (start_line end_line line_num : Z) : bool :=
  bool_decide (start_line ≤ line_num)%Z && bool_decide (line_num ≤ end_line)%Z.

(** The second part of the loop body: the marker of line [i].  The locals
    [(start_line, end_line)] are passed in and returned; [for key in
    ["lines", "branches"]] is written out for its two keys. *)
Definition marker_step (source : string) (loc : Z * Z) (i : Z)
    (line : string) : scan (Z * Z) :=
  let '(start_line, end_line) := loc in
  match marker_of line with
  | None => mret loc
  | Some ExclLine =>
      (b ← in_lines source i; when b (del_lines source i)) ;;
      (b ← in_branches source i; when b (del_branches source i)) ;;
      mret loc
  | Some ExclStart => mret (i, end_line)
  | Some ExclStop =>
      if bool_decide (start_line = 0%Z) then mret (start_line, 0%Z)
      else
        (ks ← lines_keys source;
         scan_for ks (λ line_num,
           when (in_range start_line i line_num)
             (del_lines source line_num))) ;;
        (ks ← branches_keys source;
         scan_for ks (λ line_num,
           when (in_range start_line i line_num)
             (del_branches source line_num))) ;;
        mret (0%Z, 0%Z)
  | Some ExclBrLine =>
      (b ← in_branches source i; when b (del_branches source i)) ;;
      mret loc
  end.

(** The loop body of [exclMarkerWorker] for the pair [(i, line)]. *)
Definition scan_line (source : string)
    (exclude_branches_sw include_branches_sw : list string)
    (loc : Z * Z) (il : Z * string) : scan (Z * Z) :=
  branch_prefix_filters source exclude_branches_sw include_branches_sw
    il.1 il.2 ;;
  marker_step source loc il.1 il.2.

(** [for i, line in enumerate(lines, 1): ...], threading the locals. *)
Fixpoint scan_lines (source : string)
    (exclude_branches_sw include_branches_sw : list string)
    (loc : Z * Z) (ils : list (Z * string)) : scan (Z * Z) :=
  match ils with
  | [] => mret loc
  | il :: ils =>
      loc' ← scan_line source exclude_branches_sw include_branches_sw loc il;
      scan_lines source exclude_branches_sw include_branches_sw loc' ils
  end.

(** [enumerate(lines, 1)]. *)
Definition enumerate1 (text : list string) : list (Z * string) :=
  imap (λ k line, (Z.of_nat k + 1, line)%Z) text.

(** [getSourceLines(source, fallback_encodings)] against a file system
    [fs]: the lines of the file, or the exception of [open] when there is
    no such file. *)
Definition getSourceLines (fs : string → option (list string))
    (source : string) : scan (list string) := λ srcs,
  match fs source with
  | Some text => Done text srcs
  | None => Raised FileNotFoundError srcs
  end.

(** [exclMarkerWorker(fastcov_sources, chunk, exclude_branches_sw,
    include_branches_sw, fallback_encodings)]. *)
Definition exclMarkerWorker (fs : string → option (list string))
    (chunk : list string)
    (exclude_branches_sw include_branches_sw : list string) : scan () :=
  scan_for chunk (λ source,
    text ← getSourceLines fs source;
    scan_lines source exclude_branches_sw include_branches_sw (0%Z, 0%Z)
      (enumerate1 text) ;;
    mret ()).

(** The dict after a worker thread ended, normally or by an exception (which
    ends that thread only). *)
Definition after_thread (m : scan ()) (srcs : gmap string source_data)
    : gmap string source_data :=
  match m srcs with
  | Done _ srcs' => srcs'
  | Raised _ srcs' => srcs'
  end.

(** [scanExclusionMarkers(fastcov_json, jobs, exclude_branches_sw,
    include_branches_sw, min_chunk_size, fallback_encodings)], with the
    list [keys] that [list(fastcov_json["sources"].keys())] gives.  The
    workers read and write the records of their own chunks only, and the
    chunks share no path, so every order of the threads leaves the same
    dict (lemma [threads_Permutation]); their effects are composed in spawn
    order. *)
Definition scanExclusionMarkers (fs : string → option (list string))
    (fastcov_json : report) (keys : list string) (jobs : Z)
    (exclude_branches_sw include_branches_sw : list string)
    (min_chunk_size : Z) : result report :=
  result_bind
    (scanExclusionMarkers_threads fastcov_json keys jobs min_chunk_size)
    (λ cs,
      Ok (Report
            (foldl (λ srcs chunk,
                      after_thread
                        (exclMarkerWorker fs chunk exclude_branches_sw
                           include_branches_sw) srcs)
               (sources fastcov_json) cs))).

(** The dict that a worker leaves behind. *)
Definition store_of {A} (o : outcome A) : gmap string source_data :=
  match o with
  | Done _ srcs => srcs
  | Raised _ srcs => srcs
  end.

(** A worker computation leaves the ["functions"] map of every source as it
    found it, whether it ends normally or by an exception. *)
Definition keeps_functions {A} (m : scan A) : Prop :=
  ∀ srcs path,
    functions <$> store_of (m srcs) !! path = functions <$> srcs !! path.

(** ** Example data for the range exclusion *)

(** A source of 26 lines with a range start on line 10 and a range stop on
    line 20. *)
Definition excl_example_text : list string :=
  replicate 9 "  x++;" ++ ["  // LCOV_EXCL_START"]
  ++ replicate 9 "  x++;" ++ ["  // LCOV_EXCL_STOP"]
  ++ replicate 6 "  x++;".

Definition excl_example_fs (path : string) : option (list string) :=
  if decide (path = "/src/a.c") then Some excl_example_text else None.

(** The map with the value [v] at the [n] line numbers from [first] on. *)
Definition entries {V} (first : Z) (n : nat) (v : V) : gmap Z V :=
  list_to_map ((λ k, (k, v)) <$> seqZ first (Z.of_nat n)).

(** Line and branch entries at lines 5 to 25, and a function that starts on
    line 12. *)
Definition excl_example_before : gmap string source_data :=
  {[ "/src/a.c" :=
       SourceData {[ "f" := Fdata 12 1 ]}
         (entries 5 21 [1; 0]%Z) (entries 5 21 1%Z) ]}.

(** Line and branch entries at lines 5 to 9 and 21 to 25. *)
Definition excl_example_after : gmap string source_data :=
  {[ "/src/a.c" :=
       SourceData {[ "f" := Fdata 12 1 ]}
         (entries 5 5 [1; 0]%Z ∪ entries 21 5 [1; 0]%Z)
         (entries 5 5 1%Z ∪ entries 21 5 1%Z) ]}.

(** ** LCOV serialisation *)

(** The order of Python tuples, component by component: the first
    components decide unless they are equal. *)
Definition lex_le {A B} (RA : relation A) (RB : relation B)
    : relation (A * B) :=
  λ p q, (RA p.1 q.1 ∧ p.1 ≠ q.1) ∨ (p.1 = q.1 ∧ RB p.2 q.2).

(** [(int, str)] tuples: the [fn] and [fnda] lists. *)
Definition le_fn : relation (Z * string) := lex_le Z.le String.le.

(** [(int, int)] tuples: the [da] list. *)
Definition le_da : relation (Z * Z) := lex_le Z.le Z.le.

(** [(line_num, block, branch, count)] tuples: the [brda] list. *)
Definition le_brda : relation (Z * Z * Z * Z) :=
  lex_le (lex_le (lex_le Z.le Z.le) Z.le) Z.le.

Global Instance lex_le_dec {A B} (RA : relation A) (RB : relation B)
  `{EqDecision A, ∀ x y, Decision (RA x y), ∀ x y, Decision (RB x y)} :
  ∀ p q, Decision (lex_le RA RB p q).
Proof. intros p q. unfold lex_le. apply _. Defined.

Global Instance le_fn_dec : ∀ p q, Decision (le_fn p q).
Proof. unfold le_fn. apply _. Defined.
Global Instance le_da_dec : ∀ p q, Decision (le_da p q).
Proof. unfold le_da. apply _. Defined.
Global Instance le_brda_dec : ∀ p q, Decision (le_brda p q).
Proof. unfold le_brda. apply _. Defined.

(** [sorted(l)] for the order [R]. *)
Definition sorted {A} (R : relation A) `{∀ x y, Decision (R x y)}
    (l : list A) : list A :=
  merge_sort R l.

(** The lines that the serialiser writes, with the values that are
    formatted into them. *)
Inductive lcov_line :=
  | TN
  | SF (sf : string)
  | FN (v : Z * string)
  | FNDA (v : Z * string)
  | FNF (n : Z)
  | FNH (n : Z)
  | BRDA (v : Z * Z * Z * Z)
  | BRF (n : Z)
  | BRH (n : Z)
  | DA (v : Z * Z)
  | LF (n : Z)
  | LH (n : Z)
  | EndOfRecord.

(** The line feed. *)
Definition nl : string := String "010"%char "".

(** The text of a line: the format strings of the [f.write] calls. *)
Definition format_line (l : lcov_line) : string :=
  match l with
  | TN => "TN:" +:+ nl
  | SF sf => "SF:" +:+ sf +:+ nl
  | FN (a, b) => "FN:" +:+ pretty a +:+ "," +:+ b +:+ nl
  | FNDA (a, b) => "FNDA:" +:+ pretty a +:+ "," +:+ b +:+ nl
  | FNF n => "FNF:" +:+ pretty n +:+ nl
  | FNH n => "FNH:" +:+ pretty n +:+ nl
  | BRDA (a, b, c, d) =>
      "BRDA:" +:+ pretty a +:+ "," +:+ pretty b +:+ "," +:+ pretty c
      +:+ "," +:+ pretty d +:+ nl
  | BRF n => "BRF:" +:+ pretty n +:+ nl
  | BRH n => "BRH:" +:+ pretty n +:+ nl
  | DA (a, b) => "DA:" +:+ pretty a +:+ "," +:+ pretty b +:+ nl
  | LF n => "LF:" +:+ pretty n +:+ nl
  | LH n => "LH:" +:+ pretty n +:+ nl
  | EndOfRecord => "end_of_record" +:+ nl
  end.

(** [int(count == 0)]. *)
Definition is_zero (count : Z) : Z := if decide (count = 0%Z) then 1%Z else 0%Z.

(** The body of the inner loop of [dumpBranchCoverageToLcovInfo] for
    [(i, count)]; the state is [(brda, branch_miss, branch_found)] and
    [int(i / 2)] is the block number. *)
Definition brda_step (line_num : Z) (st : list (Z * Z * Z * Z) * Z * Z)
    (ic : nat * Z) : list (Z * Z * Z * Z) * Z * Z :=
  let '(brda, branch_miss, branch_found) := st in
  let '(i, count) := ic in
  (brda ++ [(line_num, (Z.of_nat i / 2)%Z, Z.of_nat i, count)],
   (branch_miss + is_zero count)%Z,
   (branch_found + 1)%Z).

(** The two nested loops of [dumpBranchCoverageToLcovInfo]. *)
Definition brda_loop (brs : gmap Z (list Z))
    : list (Z * Z * Z * Z) * Z * Z :=
  foldl (λ st item, foldl (brda_step item.1) st (imap pair item.2))
    ([], 0%Z, 0%Z) (map_to_list brs).

(** [dumpBranchCoverageToLcovInfo(f, branches)]: the lines written. *)
Definition dumpBranchCoverageToLcovInfo (brs : gmap Z (list Z))
    : list lcov_line :=
  let '(brda, branch_miss, branch_found) := brda_loop brs in
  (BRDA <$> sorted le_brda brda)
  ++ [BRF branch_found; BRH (branch_found - branch_miss)%Z].

(** The body of the loop over [data["functions"].items()]; the state is
    [(fn, fnda, fn_miss)]. *)
Definition fn_step (st : list (Z * string) * list (Z * string) * Z)
    (item : string * fdata) : list (Z * string) * list (Z * string) * Z :=
  let '(fn, fnda, fn_miss) := st in
  let '(function, fd) := item in
  (fn ++ [(start_line fd, function)],
   fnda ++ [(execution_count fd, function)],
   (fn_miss + is_zero (execution_count fd))%Z).

(** The body of the loop over [data["lines"].items()]; the state is
    [(da, line_miss)]. *)
Definition da_step (st : list (Z * Z) * Z) (item : Z * Z)
    : list (Z * Z) * Z :=
  let '(da, line_miss) := st in
  let '(line_num, count) := item in
  (da ++ [(line_num, count)], (line_miss + is_zero count)%Z).

(** The function lines of one source: FN, FNDA, FNF and FNH. *)
Definition dump_functions (fns : gmap string fdata) : list lcov_line :=
  let '(fn, fnda, fn_miss) := foldl fn_step ([], [], 0%Z) (map_to_list fns) in
  (FN <$> sorted le_fn fn) ++ (FNDA <$> sorted le_fn fnda)
  ++ [FNF (Z.of_nat (size fns)); FNH (Z.of_nat (size fns) - fn_miss)%Z].

(** The line lines of one source: DA, LF and LH. *)
Definition dump_lines (lns : gmap Z Z) : list lcov_line :=
  let '(da, line_miss) := foldl da_step ([], 0%Z) (map_to_list lns) in
  (DA <$> sorted le_da da)
  ++ [LF (Z.of_nat (size lns)); LH (Z.of_nat (size lns) - line_miss)%Z].

(** The body of the loop of [dumpToLcovInfo] for the source [sf]. *)
Definition dump_source (sf : string) (data : source_data) : list lcov_line :=
  [TN; SF sf]
  ++ dump_functions (functions data)
  ++ (if decide (branches data ≠ ∅)
      then dumpBranchCoverageToLcovInfo (branches data) else [])
  ++ dump_lines (lines data)
  ++ [EndOfRecord].

(** [dumpToLcovInfo(fastcov_json, output)]: the lines written to the
    output file, in order. *)
Definition dumpToLcovInfo (fastcov_json : report) : list lcov_line :=
  sorted String.le (map_to_list (sources fastcov_json)).*1 ≫= λ sf,
    match sources fastcov_json !! sf with
    | Some data => dump_source sf data
    | None => []
    end.

(** The branches stored in [brs], as BRDA tuples: one per line number and
    index, with block [floor(index / 2)]. *)
Definition stored_branches (brs : gmap Z (list Z)) : list (Z * Z * Z * Z) :=
  map_to_list brs ≫= λ item,
    imap (λ i count, (item.1, (Z.of_nat i / 2)%Z, Z.of_nat i, count)) item.2.

(** The number of tuples of [l] whose last component (the count) is zero,
    and the number of those where it is not. *)
Definition zero_counts {A} (l : list (A * Z)) : Z :=
  Z.of_nat (length (filter (λ t, t.2 = 0%Z) l)).

Definition nonzero_counts {A} (l : list (A * Z)) : Z :=
  Z.of_nat (length (filter (λ t, t.2 ≠ 0%Z) l)).

(** The number of functions with a nonzero execution count. *)
Definition functions_hit (fns : gmap string fdata) : Z :=
  Z.of_nat (length (filter (λ item, execution_count item.2 ≠ 0%Z)
                      (map_to_list fns))).

(** ** JSON serialisation *)

(** The Python values that make up a report: [int], [str], [list], and
    [dict] with [int] or [str] keys, in insertion order. *)
Inductive pykey :=
  | KInt (z : Z)
  | KStr (s : string).

Inductive pyval :=
  | PInt (z : Z)
  | PStr (s : string)
  | PList (l : list pyval)
  | PDict (items : list (pykey * pyval)).

(** A JSON document: the member names of an object are strings. *)
Inductive json :=
  | JNumber (z : Z)
  | JString (s : string)
  | JArray (l : list json)
  | JObject (members : list (string * json)).

Global Instance pykey_eq_dec : EqDecision pykey.
Proof. solve_decision. Defined.

(** The member name that [json.dump] writes for a dict key: a [str] key as
    it is, an [int] key as its decimal text. *)
Definition key_text (k : pykey) : string :=
  match k with
  | KInt z => pretty z
  | KStr s => s
  end.

(** [json.dump(intermediate, f)]: the document written, as a JSON value. *)
Fixpoint json_dump (v : pyval) : json :=
  match v with
  | PInt z => JNumber z
  | PStr s => JString s
  | PList l => JArray (json_dump <$> l)
  | PDict items =>
      JObject ((λ kv, (key_text kv.1, json_dump kv.2)) <$> items)
  end.

(** [d[k] = v] on a dict: the value of an existing key is replaced in
    place, a new key is appended. *)
Fixpoint dict_set (d : list (pykey * pyval)) (k : pykey) (v : pyval)
    : list (pykey * pyval) :=
  match d with
  | [] => [(k, v)]
  | (k', v') :: d' =>
      if decide (k' = k) then (k', v) :: d' else (k', v') :: dict_set d' k v
  end.

(** [json.load(f)]: every object becomes a dict with [str] keys. *)
Fixpoint json_load (j : json) : pyval :=
  match j with
  | JNumber z => PInt z
  | JString s => PStr s
  | JArray l => PList (json_load <$> l)
  | JObject members =>
      PDict (foldl (λ d m, dict_set d (KStr m.1) (json_load m.2)) []
               members)
  end.

(** [d.get(k)]. *)
Fixpoint dict_get (d : list (pykey * pyval)) (k : pykey) : option pyval :=
  match d with
  | [] => None
  | (k', v) :: d' => if decide (k' = k) then Some v else dict_get d' k
  end.

(** [a == b]: dicts are equal when they have the same keys with equal
    values, in whatever order; an [int] key is not a [str] key. *)
Fixpoint py_eq (a b : pyval) : bool :=
  match a, b with
  | PInt x, PInt y => bool_decide (x = y)
  | PStr x, PStr y => bool_decide (x = y)
  | PList xs, PList ys =>
      (fix go (xs ys : list pyval) : bool :=
         match xs, ys with
         | [], [] => true
         | x :: xs', y :: ys' => py_eq x y && go xs' ys'
         | _, _ => false
         end) xs ys
  | PDict xs, PDict ys =>
      bool_decide (length xs = length ys)
      && (fix go (xs : list (pykey * pyval)) : bool :=
            match xs with
            | [] => true
            | (k, v) :: xs' =>
                match dict_get ys k with
                | Some v' => py_eq v v'
                | None => false
                end && go xs'
            end) xs
  | _, _ => false
  end.

(** The report as the Python value that [dumpToJson] is given.  [line_key]
    makes the key of a line number: [KInt] for the report in memory. *)
Definition fdata_to_py (fd : fdata) : pyval :=
  PDict [(KStr "start_line", PInt (start_line fd));
         (KStr "execution_count", PInt (execution_count fd))].

Definition source_to_py (line_key : Z → pykey) (d : source_data) : pyval :=
  PDict
    [(KStr "functions",
      PDict ((λ kv, (KStr kv.1, fdata_to_py kv.2))
               <$> map_to_list (functions d)));
     (KStr "branches",
      PDict ((λ kv, (line_key kv.1, PList (PInt <$> kv.2)))
               <$> map_to_list (branches d)));
     (KStr "lines",
      PDict ((λ kv, (line_key kv.1, PInt kv.2))
               <$> map_to_list (lines d)))].

Definition report_to_py (line_key : Z → pykey) (r : report) : pyval :=
  PDict
    [(KStr "sources",
      PDict ((λ kv, (KStr kv.1, source_to_py line_key kv.2))
               <$> map_to_list (sources r)))].

(** [dumpToJson(fastcov_json, output)]: the document written for the
    canonical report, whose line numbers are [int] keys. *)
Definition dumpToJson (fastcov_json : report) : json :=
  json_dump (report_to_py KInt fastcov_json).

(** The key under which a line number comes back from JSON: its decimal
    text. *)
Definition text_key (z : Z) : pykey := KStr (pretty z).

(** ** Filtering of coverage files and of gcov records *)



(** One element of the ["files"] array as gcov prints it, before
    [processGcov] adds ["file_abs"]. *)
Record gcov_file := GcovFile {
  gf_file : string;
  gf_functions : list function_raw;
  gf_lines : list line_raw
}.

(** [gcov_filter_options]: the set of absolute source paths and the two
    substring lists. *)
Record filter_options := FilterOptions {
  fo_sources : gset string;
  fo_include : list string;
  fo_exclude : list string
}.

(** [processGcov(cwd, gcov, files, gcov_filter_options)]: the list [files]
    after the call.  [abspath_join cwd file] stands for
    [os.path.abspath(os.path.join(cwd, file))]. *)
Definition processGcov (abspath_join : string → string → string)
    (cwd : string) (gcov : gcov_file) (files : list source_raw)
    (opts : filter_options) : list source_raw :=
  let g := SourceRaw (abspath_join cwd (gf_file gcov)) (gf_functions gcov)
             (gf_lines gcov) in
  if decide (fo_sources opts ≠ ∅) then
    if decide (file_abs g ∈ fo_sources opts) then files ++ [g] else files
  else if decide (fo_include opts ≠ []) then
    match for_loop (λ fs ex,
                      if contains ex (file_abs g) then Break (fs ++ [g])
                      else Next fs)
            files (fo_include opts) with
    | inl fs => fs
    | inr r => r
    end
  else
    match for_loop (λ (_ : ()) ex,
                      if contains ex (file_abs g) then Return files
                      else Next ())
            () (fo_exclude opts) with
    | inl _ => files ++ [g]
    | inr r => r
    end.

(** [processGcovs(cwd, gcov_files, gcov_filter_options)]. *)
Definition processGcovs (abspath_join : string → string → string)
    (cwd : string) (gcov_files : list gcov_file) (opts : filter_options)
    : list source_raw :=
  foldl (λ files gcov, processGcov abspath_join cwd gcov files opts)
    [] gcov_files.










(** [sum(l)]. *)
Definition sum_Z (l : list Z) : Z := foldr Z.add 0%Z l.

(** The filter policy of [processGcov] as a predicate on the absolute
    path. *)
Definition keeps (opts : filter_options) (path : string) : bool :=
  if decide (fo_sources opts ≠ ∅) then bool_decide (path ∈ fo_sources opts)
  else if decide (fo_include opts ≠ [])
       then existsb (λ ex, contains ex path) (fo_include opts)
  else negb (existsb (λ ex, contains ex path) (fo_exclude opts)).

(** The record that [processGcov] stores for [gcov]. *)
Definition with_file_abs (abspath_join : string → string → string)
    (cwd : string) (gcov : gcov_file) : source_raw :=
  SourceRaw (abspath_join cwd (gf_file gcov)) (gf_functions gcov)
    (gf_lines gcov).



(** ** Specification-side vocabulary for the line and branch merge *)

(** The line records that the raw records with absolute path [path] hold
    for line [k], in the order in which distillation meets them. *)
Definition line_sightings (path : string) (k : Z)
    (report_raw : list source_raw) : list line_raw :=
  filter (λ l, ln_line_number l = k)
    (report_raw ≫= λ s, if decide (file_abs s = path) then raw_lines s
                        else []).

(** The sum of the execution counts of the line records [ls]. *)
Definition line_count_sum (ls : list line_raw) : Z :=
  foldr (λ l acc, (ln_count l + acc)%Z) 0%Z ls.

(** [report["sources"][path]["lines"].get(k)] and
    [report["sources"][path]["branches"].get(k)]. *)
Definition line_lookup (srcs : gmap string source_data) (path : string)
    (k : Z) : option Z :=
  srcs !! path ≫= λ d, lines d !! k.

Definition branch_lookup (srcs : gmap string source_data) (path : string)
    (k : Z) : option (list Z) :=
  srcs !! path ≫= λ d, branches d !! k.

(** The counts of the branch list that [distillLine] accumulates for [l]. *)
Definition incoming_counts (incl : bool) (l : line_raw) : list Z :=
  br_count <$> incoming_branches l incl.

(** The sum of the entries at index [i] of the lists that have one, and the
    length of the longest list. *)
Definition index_sum (i : nat) (incs : list (list Z)) : Z :=
  foldr (λ l acc, (default 0%Z (l !! i) + acc)%Z) 0%Z incs.

Definition max_len (incs : list (list Z)) : nat :=
  foldr (λ l acc, length l `max` acc) 0 incs.

(** The positional sum of the lists [incs]: nothing when all of them are
    empty. *)
Definition positional_sum (incs : list (list Z)) : option (list Z) :=
  if decide (max_len incs = 0) then None
  else Some ((λ i, index_sum i incs) <$> seq 0 (max_len incs)).

(** One accumulation into an entry that may not exist yet. *)
Definition merge_opt (prev : option (list Z)) (inc : list Z)
    : option (list Z) :=
  match inc with
  | [] => prev
  | _ :: _ => Some (merge_counts (default [] prev) inc)
  end.

(** The entry of an optional list at index [i], 0 when there is none. *)
Definition at_index (o : option (list Z)) (i : nat) : Z :=
  default 0%Z (o ≫= λ l, l !! i).

(** ** Specification-side vocabulary for the scanner *)

(** What the marker of line [i] does to the locals and to the record of the
    scanned source, as one pure step. *)
Definition marker_effect (loc : Z * Z) (i : Z) (line : string)
    (d : source_data) : (Z * Z) * source_data :=
  match marker_of line with
  | None => (loc, d)
  | Some ExclLine =>
      (loc, SourceData (functions d) (delete i (branches d))
              (delete i (lines d)))
  | Some ExclStart => ((i, loc.2), d)
  | Some ExclStop =>
      if decide (loc.1 = 0%Z) then ((0%Z, 0%Z), d)
      else ((0%Z, 0%Z),
            SourceData (functions d)
              (filter (λ kv, in_range loc.1 i kv.1 = false) (branches d))
              (filter (λ kv, in_range loc.1 i kv.1 = false) (lines d)))
  | Some ExclBrLine =>
      (loc, SourceData (functions d) (delete i (branches d)) (lines d))
  end.

(** A worker computation relates the dict it finds to the dict it leaves,
    whether it ends normally or by an exception. *)
Definition respects {A} (R : relation (gmap string source_data))
    (m : scan A) : Prop :=
  ∀ srcs, R srcs (store_of (m srcs)).

(** [d'] is [d] with some line and branch entries removed: the same
    functions, and every entry that is left is an entry of [d]. *)
Definition pruned (d d' : source_data) : Prop :=
  functions d' = functions d
  ∧ lines d' ⊆ lines d
  ∧ branches d' ⊆ branches d.

(** The same source paths, each with a pruned record. *)
Definition pruned_report (srcs srcs' : gmap string source_data) : Prop :=
  ∀ path,
    match srcs !! path, srcs' !! path with
    | Some d, Some d' => pruned d d'
    | None, None => True
    | _, _ => False
    end.

(** The records of the paths outside [chunk] are the same. *)
Definition same_outside (chunk : list string)
    (srcs srcs' : gmap string source_data) : Prop :=
  ∀ path, path ∉ chunk → srcs' !! path = srcs !! path.

(** Every line with a branch entry has a line entry. *)
Definition branch_lines_inv (srcs : gmap string source_data) : Prop :=
  ∀ path d k,
    srcs !! path = Some d →
    is_Some (branches d !! k) → is_Some (lines d !! k).

Definition keeps_branch_lines (srcs srcs' : gmap string source_data)
    : Prop :=
  branch_lines_inv srcs → branch_lines_inv srcs'.

(** A report with the example source and a source whose file is
    missing. *)
Definition excl_example_with_missing : gmap string source_data :=
  <["/src/gone.c" := SourceData ∅ ∅ {[ 12%Z := 1%Z ]}]> excl_example_before.

(** ** Specification-side vocabulary for the markers of a file *)

(** Line [i] of [text], counted from 1, carries the marker [m]. *)
Definition marked (text : list string) (m : marker) (i : Z) : Prop :=
  (1 ≤ i)%Z
  ∧ ∃ line, text !! Z.to_nat (i - 1) = Some line ∧ marker_of line = Some m.






(** ** Specification-side vocabulary for the independence of the workers *)

(** Two dicts hold the same records for the paths of [chunk]. *)
Definition agree_on (chunk : list string)
    (srcs srcs' : gmap string source_data) : Prop :=
  ∀ path, path ∈ chunk → srcs !! path = srcs' !! path.

(** Two runs end the same way, with the same value or exception, and with
    the same records for the paths of [chunk]. *)
Definition same_run {A} (chunk : list string) (o o' : outcome A) : Prop :=
  match o, o' with
  | Done a srcs, Done a' srcs' => a = a' ∧ agree_on chunk srcs srcs'
  | Raised e srcs, Raised e' srcs' => e = e' ∧ agree_on chunk srcs srcs'
  | _, _ => False
  end.

(** What the computation does depends on the records of [chunk] only. *)
Definition local_to {A} (chunk : list string) (m : scan A) : Prop :=
  ∀ srcs srcs', agree_on chunk srcs srcs' → same_run chunk (m srcs) (m srcs').

(** * Theorems *)

(** ** Functions merge by name *)

Lemma count_sum_app l1 l2 :
  count_sum (l1 ++ l2) = (count_sum l1 + count_sum l2)%Z.
Proof. induction l1 as [|f l1 IH]; simpl; lia. Qed.

Lemma count_sum_Permutation l1 l2 :
  l1 ≡ₚ l2 → count_sum l1 = count_sum l2.
Proof. induction 1; simpl; lia. Qed.

Lemma merged_nil prev : merged prev [] = prev.
Proof.
  destruct prev as [[s c]|]; simpl; [|done].
  by rewrite Z.add_0_r.
Qed.

Lemma merged_app prev l1 l2 :
  merged (merged prev l1) l2 = merged prev (l1 ++ l2).
Proof.
  destruct prev as [fd|]; simpl.
  - rewrite count_sum_app. f_equal. f_equal. lia.
  - destruct l1 as [|f l1]; [done|].
    pose proof (count_sum_app (f :: l1) l2) as Hs.
    cbn [merged app start_line execution_count] in *. by rewrite Hs.
Qed.

Lemma distillFunction_lookup f fns name :
  distillFunction f fns !! name = merged (fns !! name) (named name [f]).
Proof.
  unfold distillFunction, named. rewrite filter_cons, filter_nil. cbv zeta.
  destruct (decide (fn_name f = name)) as [<-|Hne].
  - destruct (fns !! fn_name f) as [fd|] eqn:E; rewrite lookup_insert_eq;
      simpl; by rewrite Z.add_0_r.
  - rewrite merged_nil.
    destruct (fns !! fn_name f); by rewrite lookup_insert_ne.
Qed.

Lemma distillFunctions_lookup fs fns name :
  foldl (λ fns f, distillFunction f fns) fns fs !! name
  = merged (fns !! name) (named name fs).
Proof.
  revert fns. induction fs as [|f fs IH]; intros fns; simpl.
  - by rewrite merged_nil.
  - rewrite IH, distillFunction_lookup, merged_app.
    unfold named. by rewrite <-filter_app.
Qed.

Lemma distillSource_fn_lookup s srcs incl path name :
  fn_lookup (distillSource s srcs incl) path name
  = merged (fn_lookup srcs path name)
      (named name (if decide (file_abs s = path) then raw_functions s
                   else [])).
Proof.
  unfold fn_lookup, distillSource.
  destruct (decide (file_abs s = path)) as [<-|Hne].
  - rewrite lookup_insert_eq. simpl. rewrite distillFunctions_lookup.
    destruct (srcs !! file_abs s) as [d|] eqn:E; simpl.
    + by rewrite E.
    + by rewrite lookup_insert_eq.
  - rewrite lookup_insert_ne by done.
    unfold named at 1. rewrite filter_nil, merged_nil.
    destruct (srcs !! file_abs s); [done|]. by rewrite lookup_insert_ne.
Qed.

Lemma distillSources_fn_lookup report_raw srcs incl path name :
  fn_lookup (foldl (λ srcs s, distillSource s srcs incl) srcs report_raw)
    path name
  = merged (fn_lookup srcs path name) (sightings path name report_raw).
Proof.
  revert srcs. induction report_raw as [|s raw IH]; intros srcs; simpl.
  - by rewrite merged_nil.
  - rewrite IH, distillSource_fn_lookup, merged_app.
    unfold sightings, named. simpl. by rewrite filter_app.
Qed.

Lemma sightings_Permutation path name raw1 raw2 :
  raw1 ≡ₚ raw2 → sightings path name raw1 ≡ₚ sightings path name raw2.
Proof. intros H. unfold sightings, named. by rewrite H. Qed.

Lemma merged_count l :
  execution_count <$> merged None l
  = match l with [] => None | _ :: _ => Some (count_sum l) end.
Proof. by destruct l. Qed.

(** C1. Within one source path, distillation merges functions by name: the
    entry stored for [name] has the start line of the first sighting and the
    sum of the execution counts of all sightings; the stored count is the
    same for every order in which the raw records are merged; counts 3 and 4
    for "foo" at start line 10 give start line 10 and count 7. *)
Theorem distill_function_merge_by_name :
  (∀ report_raw incl path name,
     fn_lookup (sources (distillReport report_raw incl)) path name
     = match sightings path name report_raw with
       | [] => None
       | f :: l => Some (Fdata (fn_start_line f) (count_sum (f :: l)))
       end)
  ∧ (∀ report_raw report_raw' incl path name,
       report_raw ≡ₚ report_raw' →
       execution_count <$>
         fn_lookup (sources (distillReport report_raw incl)) path name
       = execution_count <$>
           fn_lookup (sources (distillReport report_raw' incl)) path name)
  ∧ (∀ incl,
       fn_lookup
         (sources (distillReport
            [SourceRaw "/src/a.h" [FunctionRaw "foo" 10 3] [];
             SourceRaw "/src/a.h" [FunctionRaw "foo" 10 4] []] incl))
         "/src/a.h" "foo"
       = Some (Fdata 10 7)).
Proof.
  assert (Hmain : ∀ report_raw incl path name,
     fn_lookup (sources (distillReport report_raw incl)) path name
     = merged None (sightings path name report_raw)).
  { intros. unfold distillReport. simpl.
    by rewrite distillSources_fn_lookup. }
  split; [|split].
  - intros. rewrite Hmain. by destruct (sightings _ _ _).
  - intros raw raw' incl path name Hp.
    rewrite !Hmain, !merged_count.
    pose proof (sightings_Permutation path name _ _ Hp) as Hs.
    rewrite (count_sum_Permutation _ _ Hs).
    destruct (sightings path name raw) as [|f l] eqn:E1,
             (sightings path name raw') as [|f' l'] eqn:E2; try done.
    + by apply Permutation_nil_l in Hs.
    + by apply Permutation_nil_r in Hs.
  - intros incl. rewrite Hmain. reflexivity.
Qed.

Lemma distill_function_merge_by_name_witness :
  [SourceRaw "/src/a.h" [FunctionRaw "foo" 10 3] [];
   SourceRaw "/src/a.h" [FunctionRaw "foo" 10 4] []]
  ≡ₚ [SourceRaw "/src/a.h" [FunctionRaw "foo" 10 4] [];
      SourceRaw "/src/a.h" [FunctionRaw "foo" 10 3] []]
  ∧ execution_count <$>
      fn_lookup
        (sources (distillReport
           [SourceRaw "/src/a.h" [FunctionRaw "foo" 10 3] [];
            SourceRaw "/src/a.h" [FunctionRaw "foo" 10 4] []] false))
        "/src/a.h" "foo"
    = execution_count <$>
        fn_lookup
          (sources (distillReport
             [SourceRaw "/src/a.h" [FunctionRaw "foo" 10 4] [];
              SourceRaw "/src/a.h" [FunctionRaw "foo" 10 3] []] false))
          "/src/a.h" "foo".
Proof.
  assert (Hp : [SourceRaw "/src/a.h" [FunctionRaw "foo" 10 3] [];
                SourceRaw "/src/a.h" [FunctionRaw "foo" 10 4] []]
               ≡ₚ [SourceRaw "/src/a.h" [FunctionRaw "foo" 10 4] [];
                   SourceRaw "/src/a.h" [FunctionRaw "foo" 10 3] []])
    by apply perm_swap.
  split; [exact Hp|].
  exact (proj1 (proj2 distill_function_merge_by_name) _ _ false
           "/src/a.h" "foo" Hp).
Defined.

(** ** Branch counts accumulate positionally *)

Lemma length_zero_extend canon n :
  length (zero_extend canon n) = length canon `max` n.
Proof. unfold zero_extend. rewrite length_app, length_replicate. lia. Qed.

Lemma zero_extend_long canon n : n ≤ length canon → zero_extend canon n = canon.
Proof.
  intros H. unfold zero_extend.
  replace (n - length canon) with 0 by lia. simpl. by rewrite app_nil_r.
Qed.

Lemma length_add_indexwise canon incoming :
  length (add_indexwise canon incoming) = length canon.
Proof.
  revert incoming. induction canon as [|c canon IH]; intros [|x xs]; simpl;
    auto.
Qed.

Lemma length_merge_counts canon incoming :
  length (merge_counts canon incoming) = length canon `max` length incoming.
Proof.
  unfold merge_counts. by rewrite length_add_indexwise, length_zero_extend.
Qed.

(** The write [branches[line_number][i] += ...] is within the list. *)
Lemma accumulate_index_in_range (cur : list Z) (glen i : nat) :
  i < glen →
  i < length (if bool_decide (length cur < glen)
              then cur ++ replicate (glen - length cur) 0%Z else cur).
Proof.
  intros Hi. case_bool_decide; [|lia].
  rewrite length_app, length_replicate. lia.
Qed.

Lemma accumulate_branch_step ln glen brs i b :
  accumulate_branch ln glen brs (i, b)
  = <[ln := alter (λ c, (c + br_count b)%Z) i
              (zero_extend (default [] (brs !! ln)) glen)]> brs.
Proof.
  unfold accumulate_branch.
  assert (Hext : ∀ cur : list Z,
    (if bool_decide (length cur < glen)
     then cur ++ replicate (glen - length cur) 0%Z else cur)
    = zero_extend cur glen).
  { intros cur. case_bool_decide; [done|].
    symmetry. apply zero_extend_long. lia. }
  rewrite Hext.
  destruct (brs !! ln) as [cur|] eqn:E; simpl.
  - by rewrite E.
  - by rewrite lookup_insert_eq, insert_insert_eq.
Qed.

Lemma accumulate_branches_from ln glen brs pre mid (rest : list branch_raw) :
  brs !! ln = Some (pre ++ mid) →
  glen ≤ length (pre ++ mid) →
  length rest ≤ length mid →
  foldl (accumulate_branch ln glen) brs
    (imap (λ i, pair (length pre + i)) rest)
  = <[ln := pre ++ add_indexwise mid (br_count <$> rest)]> brs.
Proof.
  revert brs pre mid.
  induction rest as [|b rest IH]; intros brs pre mid Hl Hg Hr.
  - simpl. destruct mid; symmetry; by apply insert_id.
  - destruct mid as [|c mid]; [simpl in Hr; lia|].
    rewrite imap_cons. cbn [foldl].
    rewrite accumulate_branch_step, Hl. cbn [from_option]. unfold id.
    rewrite zero_extend_long by done.
    assert (Halt : alter (λ c0, (c0 + br_count b)%Z) (length pre + 0)
                     (pre ++ c :: mid)
                   = (pre ++ [(c + br_count b)%Z]) ++ mid).
    { rewrite alter_app_r. simpl. by rewrite <-app_assoc. }
    rewrite Halt.
    rewrite (imap_ext _ (λ i, pair (length (pre ++ [(c + br_count b)%Z]) + i))).
    2:{ intros i x _. rewrite length_app. simpl. f_equal. lia. }
    rewrite (IH _ (pre ++ [(c + br_count b)%Z]) mid).
    + rewrite insert_insert_eq. simpl. by rewrite <-app_assoc.
    + by rewrite lookup_insert_eq.
    + rewrite !length_app in *. simpl in *. lia.
    + simpl in Hr. lia.
Qed.

Lemma accumulate_branches ln brs (incoming : list branch_raw) :
  foldl (accumulate_branch ln (length incoming)) brs (imap pair incoming)
  = match incoming with
    | [] => brs
    | _ :: _ =>
        <[ln := merge_counts (default [] (brs !! ln))
                  (br_count <$> incoming)]> brs
    end.
Proof.
  destruct incoming as [|b rest] eqn:E; [done|]. rewrite <-E.
  set (glen := length incoming).
  set (ze := zero_extend (default [] (brs !! ln)) glen).
  assert (Hsame : foldl (accumulate_branch ln glen) brs (imap pair incoming)
    = foldl (accumulate_branch ln glen) (<[ln := ze]> brs)
        (imap pair incoming)).
  { rewrite E. rewrite imap_cons. cbn [foldl]. f_equal.
    rewrite !accumulate_branch_step, lookup_insert_eq, insert_insert_eq.
    cbn [from_option]. unfold id. fold ze.
    rewrite (zero_extend_long ze); [done|].
    unfold ze. rewrite length_zero_extend. lia. }
  rewrite Hsame.
  etrans.
  - apply (accumulate_branches_from ln glen (<[ln := ze]> brs) [] ze
             incoming).
    + by rewrite lookup_insert_eq.
    + unfold ze. simpl. rewrite length_zero_extend. lia.
    + unfold ze. rewrite length_zero_extend. lia.
  - rewrite insert_insert_eq. unfold merge_counts. simpl.
    by rewrite length_fmap.
Qed.

Lemma distillLine_branches l lns brs incl :
  (distillLine l lns brs incl).2
  = match incoming_branches l incl with
    | [] => brs
    | _ :: _ =>
        <[ln_line_number l :=
            merge_counts (default [] (brs !! ln_line_number l))
              (br_count <$> incoming_branches l incl)]> brs
    end.
Proof. unfold distillLine. cbn [snd]. apply accumulate_branches. Qed.

Lemma distillLine_branch_len l lns brs incl k :
  branch_len brs k ≤ branch_len (distillLine l lns brs incl).2 k.
Proof.
  rewrite distillLine_branches. unfold branch_len.
  destruct (incoming_branches l incl) as [|b rest] eqn:E; [done|].
  destruct (decide (ln_line_number l = k)) as [<-|Hne].
  - rewrite lookup_insert_eq. cbn [from_option].
    rewrite length_merge_counts.
    destruct (brs !! ln_line_number l); simpl; lia.
  - by rewrite lookup_insert_ne.
Qed.

Lemma distillLines_branch_len ls lb incl k :
  branch_len lb.2 k
  ≤ branch_len
      (foldl (λ lb l, distillLine l lb.1 lb.2 incl) lb ls).2 k.
Proof.
  revert lb. induction ls as [|l ls IH]; intros lb; [done|]. simpl.
  etrans; [|apply IH]. apply distillLine_branch_len.
Qed.

Lemma distillSource_branch_len s srcs incl path k :
  source_branch_len srcs path k
  ≤ source_branch_len (distillSource s srcs incl) path k.
Proof.
  unfold source_branch_len, distillSource.
  destruct (decide (file_abs s = path)) as [<-|Hne].
  - rewrite lookup_insert_eq. cbn [from_option branches].
    etrans; [|apply distillLines_branch_len]. cbn [snd].
    destruct (srcs !! file_abs s) as [d|] eqn:E; simpl.
    + by rewrite E.
    + lia.
  - rewrite lookup_insert_ne by done.
    destruct (srcs !! file_abs s); [done|]. by rewrite lookup_insert_ne.
Qed.

Lemma distillSources_branch_len report_raw incl path k :
  ∀ srcs,
    source_branch_len srcs path k
    ≤ source_branch_len
        (foldl (λ srcs s, distillSource s srcs incl) srcs report_raw) path k.
Proof.
  induction report_raw as [|s raw IH]; intros srcs; [done|]. simpl.
  etrans; [|apply IH]. apply distillSource_branch_len.
Qed.

Lemma lookup_add_indexwise canon incoming i :
  length incoming ≤ length canon →
  add_indexwise canon incoming !! i
  = match incoming !! i with
    | Some x => (λ c, (c + x)%Z) <$> canon !! i
    | None => canon !! i
    end.
Proof.
  revert incoming i.
  induction canon as [|c canon IH]; intros [|x xs] i Hlen; simpl in *;
    try done; try lia.
  destruct i as [|i]; simpl; [done|]. apply IH. lia.
Qed.

Lemma lookup_merge_counts canon incoming i :
  merge_counts canon incoming !! i
  = match incoming !! i with
    | Some x => Some (default 0%Z (canon !! i) + x)%Z
    | None => canon !! i
    end.
Proof.
  unfold merge_counts.
  rewrite lookup_add_indexwise by (rewrite length_zero_extend; lia).
  unfold zero_extend.
  destruct (incoming !! i) as [x|] eqn:E.
  - apply lookup_lt_Some in E.
    destruct (canon !! i) as [c|] eqn:Ec.
    + by rewrite (lookup_app_l_Some _ _ _ _ Ec).
    + apply lookup_ge_None in Ec.
      rewrite lookup_app_r by done.
      rewrite lookup_replicate_2 by lia. done.
  - apply lookup_ge_None in E.
    destruct (canon !! i) as [c|] eqn:Ec.
    + by rewrite (lookup_app_l_Some _ _ _ _ Ec).
    + apply lookup_ge_None in Ec. apply lookup_ge_None.
      rewrite length_app, length_replicate. lia.
Qed.

(** C2. Accumulating the incoming (already filtered) branch list of a line:
    the canonical list is zero-extended to the incoming length when shorter
    and the incoming counts are then added index by index; an empty incoming
    list changes nothing.  Hence the length of the canonical list of any line
    never shrinks, for one line record, for a whole raw record and for any
    further raw records merged into the report, and lists of lengths 2 and 4
    merge into a list of length 4. *)
Theorem distill_branches_zero_extend_then_add :
  (∀ l lns brs incl,
     (distillLine l lns brs incl).2
     = match incoming_branches l incl with
       | [] => brs
       | _ :: _ =>
           <[ln_line_number l :=
               merge_counts (default [] (brs !! ln_line_number l))
                 (br_count <$> incoming_branches l incl)]> brs
       end)
  ∧ (∀ canon incoming i,
       length (merge_counts canon incoming)
       = length canon `max` length incoming
       ∧ merge_counts canon incoming !! i
         = match incoming !! i with
           | Some x => Some (default 0%Z (canon !! i) + x)%Z
           | None => canon !! i
           end)
  ∧ (∀ l lns brs incl k,
       branch_len brs k ≤ branch_len (distillLine l lns brs incl).2 k)
  ∧ (∀ s srcs incl path k,
       source_branch_len srcs path k
       ≤ source_branch_len (distillSource s srcs incl) path k)
  ∧ (∀ merged_so_far still_to_merge incl path k,
       source_branch_len (sources (distillReport merged_so_far incl)) path k
       ≤ source_branch_len
           (sources (distillReport (merged_so_far ++ still_to_merge) incl))
           path k)
  ∧ (∀ a b c1 c2 c3 c4 t1 t2 t3 t4 n lns,
       (distillLine
          (LineRaw 7 n [BranchRaw c1 t1; BranchRaw c2 t2;
                        BranchRaw c3 t3; BranchRaw c4 t4])
          lns {[ 7%Z := [a; b] ]} true).2
       = {[ 7%Z := [a + c1; b + c2; 0 + c3; 0 + c4]%Z ]})
  ∧ source_branch_len
      (sources (distillReport
         [SourceRaw "/src/a.c" []
            [LineRaw 7 1 [BranchRaw 1 false; BranchRaw 0 false]];
          SourceRaw "/src/a.c" []
            [LineRaw 7 1 [BranchRaw 1 false; BranchRaw 0 false;
                          BranchRaw 0 false; BranchRaw 1 false]]] false))
      "/src/a.c" 7 = 4.
Proof.
  split; [apply distillLine_branches|].
  split; [intros; split;
            [apply length_merge_counts|apply lookup_merge_counts]|].
  split; [apply distillLine_branch_len|].
  split; [apply distillSource_branch_len|].
  split.
  { intros raw1 raw2 incl path k. unfold distillReport. cbn [sources].
    rewrite foldl_app. apply distillSources_branch_len. }
  split; [|by vm_compute].
  intros. rewrite distillLine_branches. cbn [incoming_branches ln_branches].
  cbn [ln_line_number]. rewrite lookup_singleton_eq. cbn.
  by rewrite insert_singleton_eq.
Qed.

(** ** The branch noise filter *)

Lemma pair_ind {A} (P : list A → Prop) :
  P [] → (∀ x, P [x]) → (∀ x y l, P l → P (x :: y :: l)) → ∀ l, P l.
Proof.
  intros H0 H1 H2. fix IH 1. intros [|x [|y l]]; [exact H0|exact (H1 x)|].
  apply H2, IH.
Qed.

Lemma half_succ_succ n : (S (S n) + 1) / 2 = S ((n + 1) / 2).
Proof.
  replace (S (S n) + 1) with ((n + 1) + 1 * 2) by lia.
  rewrite Nat.div_add by lia. lia.
Qed.

(** The indexed loop, started at index [2 * j] with the input still to be
    visited equal to [suffix], is the pairwise reading. *)
Lemma for_loop_filter_pairs_from brs suffix :
  ∀ j st,
    drop (2 * j) brs = suffix →
    for_loop (filter_body brs) st
      ((λ k, 2 * k) <$> seq j ((length suffix + 1) / 2))
    = filter_pairs suffix st.
Proof.
  induction suffix as [|x|x y l IH] using pair_ind; intros j [f e] Hd.
  - done.
  - assert (brs !! (2 * j) = Some x) as H0.
    { rewrite <-(Nat.add_0_r (2 * j)), <-lookup_drop, Hd. done. }
    assert (brs !! (2 * j + 1) = None) as H1.
    { rewrite <-lookup_drop, Hd. done. }
    cbn [length]. change ((1 + 1) / 2) with 1. cbn [seq fmap list_fmap for_loop].
    unfold filter_body. by rewrite H0, H1.
  - assert (brs !! (2 * j) = Some x) as H0.
    { rewrite <-(Nat.add_0_r (2 * j)), <-lookup_drop, Hd. done. }
    assert (brs !! (2 * j + 1) = Some y) as H1.
    { rewrite <-lookup_drop, Hd. done. }
    assert (drop (2 * S j) brs = l) as Hd'.
    { replace (2 * S j) with (2 * j + 2) by lia.
      rewrite <-drop_drop, Hd. done. }
    cbn [length]. rewrite half_succ_succ.
    cbn [seq fmap list_fmap for_loop].
    unfold filter_body at 1. rewrite H0, H1.
    cbn [filter_pairs fst snd].
    destruct (br_throw y); [by apply IH|].
    destruct (e && emptyBranchSet x y && bool_decide (2 ≤ length f)
              && last_two_matching f); [done|].
    by apply IH.
Qed.

Lemma for_loop_filter_pairs brs :
  for_loop (filter_body brs) ([], false) (range2 (length brs))
  = filter_pairs brs ([], false).
Proof. by apply (for_loop_filter_pairs_from brs brs 0). Qed.

Lemma filter_pairs_inl brs :
  ∀ f e f' e',
    filter_pairs brs (f, e) = inl (f', e') →
    f' = f ++ drop_throw_pairs brs ∧ e' = e || has_throw_pair brs.
Proof.
  induction brs as [|x|x y l IH] using pair_ind; intros f e f' e' H.
  - simpl in H. inversion H; subst. by rewrite app_nil_r, orb_false_r.
  - simpl in H. inversion H; subst. by rewrite orb_false_r.
  - cbn [filter_pairs fst snd drop_throw_pairs has_throw_pair] in *.
    destruct (br_throw y).
    + apply IH in H as [-> ->]. by rewrite orb_true_r.
    + destruct (e && emptyBranchSet x y && bool_decide (2 ≤ length f)
                && last_two_matching f); [done|].
      apply IH in H as [-> ->]. by rewrite <-app_assoc.
Qed.

Lemma filter_pairs_inr brs :
  ∀ st r, filter_pairs brs st = inr r → r = [].
Proof.
  induction brs as [|x|x y l IH] using pair_ind; intros [f e] r H;
    try done.
  cbn [filter_pairs fst snd] in H.
  destruct (br_throw y); [by eapply IH|].
  destruct (e && emptyBranchSet x y && bool_decide (2 ≤ length f)
            && last_two_matching f); [by inversion H|by eapply IH].
Qed.

Lemma filter_pairs_app before rest :
  Nat.even (length before) = true →
  ∀ st,
    filter_pairs (before ++ rest) st
    = match filter_pairs before st with
      | inl st' => filter_pairs rest st'
      | inr r => inr r
      end.
Proof.
  induction before as [|x|x y l IH] using pair_ind; intros Hev [f e];
    try done.
  cbn [app filter_pairs fst snd].
  change (x :: y :: l ++ rest) with (x :: y :: (l ++ rest)).
  cbn [filter_pairs fst snd].
  destruct (br_throw y); [by apply IH|].
  destruct (e && emptyBranchSet x y && bool_decide (2 ≤ length f)
            && last_two_matching f); [done|by apply IH].
Qed.

Lemma last_two_matching_snoc kept r1 r2 :
  last_two_matching (kept ++ [r1; r2]) = matchingBranchSet r2 r1.
Proof.
  unfold last_two_matching. rewrite length_app. cbn [length].
  replace (length kept + 2 - 1) with (length kept + 1) by lia.
  replace (length kept + 2 - 2) with (length kept + 0) by lia.
  by rewrite !lookup_app_r, !Nat.add_sub' by lia.
Qed.

Lemma two_last {A} (l : list A) :
  2 ≤ length l → ∃ kept r1 r2, l = kept ++ [r1; r2].
Proof.
  intros H.
  destruct (decide (l = [])) as [->|Hne]; [simpl in H; lia|].
  apply exists_last in Hne as (l' & r2 & ->).
  destruct (decide (l' = [])) as [->|Hne']; [simpl in H; lia|].
  apply exists_last in Hne' as (kept & r1 & ->).
  exists kept, r1, r2. by rewrite <-app_assoc.
Qed.

Lemma noise_from_returns f e brs :
  noise_from f e brs → filter_pairs brs (f, e) = inr [].
Proof.
  intros (before & c1 & c2 & rest & kept & r1 & r2 &
          -> & Hev & He & Ht & Hc1 & Hc2 & Hk & Hm).
  rewrite filter_pairs_app by done.
  destruct (filter_pairs before (f, e)) as [[f' e']|r] eqn:E.
  - apply filter_pairs_inl in E as [-> ->].
    cbn [filter_pairs fst snd]. rewrite Ht, He, Hk.
    rewrite last_two_matching_snoc.
    unfold emptyBranchSet, matchingBranchSet. rewrite Hc1, Hc2, Hm.
    cbn [andb Z.eqb]. rewrite Z.eqb_refl.
    rewrite bool_decide_eq_true_2; [done|].
    rewrite length_app. simpl. lia.
  - by apply filter_pairs_inr in E as ->.
Qed.

Lemma returns_noise_from brs :
  ∀ f e r, filter_pairs brs (f, e) = inr r → noise_from f e brs.
Proof.
  induction brs as [|x|x y l IH] using pair_ind; intros f e r H;
    try done.
  cbn [filter_pairs fst snd] in H.
  destruct (br_throw y) eqn:Ht.
  - apply IH in H as (before & c1 & c2 & rest & kept & r1 & r2 &
          -> & Hev & He & Ht' & Hc1 & Hc2 & Hk & Hm).
    exists (x :: y :: before), c1, c2, rest, kept, r1, r2.
    cbn [has_throw_pair drop_throw_pairs length Nat.even].
    rewrite Ht. by rewrite orb_true_r.
  - destruct (e && emptyBranchSet x y && bool_decide (2 ≤ length f)
              && last_two_matching f) eqn:Hc.
    + apply andb_prop in Hc as [Hc Hl]. apply andb_prop in Hc as [Hc Hlen].
      apply andb_prop in Hc as [He Hemp].
      apply bool_decide_eq_true_1 in Hlen.
      apply two_last in Hlen as (kept & r1 & r2 & ->).
      rewrite last_two_matching_snoc in Hl.
      unfold emptyBranchSet in Hemp. apply andb_prop in Hemp as [Hx Hy].
      apply Z.eqb_eq in Hx, Hy. apply Z.eqb_eq in Hl.
      exists [], x, y, l, kept, r1, r2.
      rewrite He, app_nil_r. done.
    + apply IH in H as (before & c1 & c2 & rest & kept & r1 & r2 &
          -> & Hev & He & Ht' & Hc1 & Hc2 & Hk & Hm).
      exists (x :: y :: before), c1, c2, rest, kept, r1, r2.
      cbn [has_throw_pair drop_throw_pairs length Nat.even].
      rewrite Ht. cbn [orb]. rewrite <-app_assoc in Hk. done.
Qed.

(** The filter returns the empty list when the initializer-list rule
    applies, and the input without its exception pairs otherwise. *)
Lemma filterExceptionalBranches_noise brs :
  initializer_noise brs → filterExceptionalBranches brs = [].
Proof.
  intros H. unfold filterExceptionalBranches.
  rewrite for_loop_filter_pairs.
  by rewrite (noise_from_returns [] false brs H).
Qed.

Lemma filterExceptionalBranches_no_noise brs :
  ¬ initializer_noise brs →
  filterExceptionalBranches brs = drop_throw_pairs brs.
Proof.
  intros H. unfold filterExceptionalBranches.
  rewrite for_loop_filter_pairs.
  destruct (filter_pairs brs ([], false)) as [[f' e']|r] eqn:E.
  - by apply filter_pairs_inl in E as [-> ->].
  - apply returns_noise_from in E. by destruct H.
Qed.

Lemma filterExceptionalBranches_cases brs :
  filterExceptionalBranches brs = []
  ∨ filterExceptionalBranches brs = drop_throw_pairs brs.
Proof.
  unfold filterExceptionalBranches. rewrite for_loop_filter_pairs.
  destruct (filter_pairs brs ([], false)) as [[f' e']|r] eqn:E.
  - right. by apply filter_pairs_inl in E as [-> ->].
  - left. by apply filter_pairs_inr in E.
Qed.

Lemma drop_throw_pairs_snoc brs b :
  Nat.even (length brs) = true →
  drop_throw_pairs (brs ++ [b]) = drop_throw_pairs brs ++ [b].
Proof.
  induction brs as [|x|x y l IH] using pair_ind; intros Hev; try done.
  change ((x :: y :: l) ++ [b]) with (x :: y :: (l ++ [b])).
  cbn [drop_throw_pairs]. rewrite IH by done.
  by destruct (br_throw y).
Qed.

Lemma drop_throw_pairs_id brs :
  has_throw_pair brs = false → drop_throw_pairs brs = brs.
Proof.
  induction brs as [|x|x y l IH] using pair_ind; intros H; try done.
  cbn [has_throw_pair drop_throw_pairs] in *.
  apply orb_false_elim in H as [-> H]. by rewrite IH.
Qed.

Lemma filter_pairs_no_throw brs :
  has_throw_pair brs = false →
  ∀ f, ∃ f', filter_pairs brs (f, false) = inl (f', false).
Proof.
  induction brs as [|x|x y l IH] using pair_ind; intros H f.
  - by exists f.
  - by exists (f ++ [x]).
  - cbn [has_throw_pair] in H. apply orb_false_elim in H as [Hy H].
    cbn [filter_pairs fst snd]. rewrite Hy. cbn [andb]. by apply IH.
Qed.

Lemma filterExceptionalBranches_no_throw brs :
  has_throw_pair brs = false → filterExceptionalBranches brs = brs.
Proof.
  intros H. unfold filterExceptionalBranches. rewrite for_loop_filter_pairs.
  destruct (filter_pairs_no_throw brs H []) as [f' E]. rewrite E.
  apply filter_pairs_inl in E as [-> _].
  by rewrite drop_throw_pairs_id.
Qed.

Lemma initializer_noise_unpaired brs b :
  Nat.even (length brs) = true →
  initializer_noise (brs ++ [b]) ↔ initializer_noise brs.
Proof.
  intros Hev. split.
  - intros (before & c1 & c2 & rest & kept & r1 & r2
            & Hb & He & Ht & Hc2 & H1 & H2 & Hk & Hr).
    destruct (decide (rest = [])) as [->|Hne].
    { apply (f_equal length) in Hb. rewrite !length_app in Hb.
      cbn [length] in Hb.
      assert (Hl : length brs = S (length before)) by lia.
      rewrite Hl, Nat.even_succ, <-Nat.negb_even, He in Hev. done. }
    destruct (exists_last Hne) as (rest' & b' & ->).
    change (before ++ c1 :: c2 :: rest' ++ [b'])
      with (before ++ (c1 :: c2 :: rest') ++ [b']) in Hb.
    rewrite app_assoc in Hb. apply app_inj_tail in Hb as [-> ->].
    by exists before, c1, c2, rest', kept, r1, r2.
  - intros (before & c1 & c2 & rest & kept & r1 & r2
            & -> & He & Ht & Hc2 & H1 & H2 & Hk & Hr).
    exists before, c1, c2, (rest ++ [b]), kept, r1, r2.
    by rewrite <-app_assoc.
Qed.

(** C3, as the code has it.  Without full exceptional-branch inclusion the
    filter reads the incoming list in adjacent pairs.  Its result is the
    input with every pair whose second element is flagged [throw] removed,
    unless the initializer-list rule fires, and it is empty when that rule
    fires.  An unpaired last branch takes no part in the rule: it is kept as
    the last element, whatever its flag, unless the rule fires on the pairs
    before it, which empties the whole list.  A list without exception pairs
    is returned unchanged.  With full inclusion the list is not filtered:
    the pair (0, not throw), (0, throw) is dropped by default and kept in
    full when full inclusion is requested. *)
Theorem filter_drops_exception_pairs :
  (∀ brs,
     (¬ initializer_noise brs →
      filterExceptionalBranches brs = drop_throw_pairs brs)
     ∧ (initializer_noise brs → filterExceptionalBranches brs = []))
  ∧ (∀ brs b,
       Nat.even (length brs) = true →
       (¬ initializer_noise brs →
        filterExceptionalBranches (brs ++ [b])
        = drop_throw_pairs brs ++ [b])
       ∧ (initializer_noise brs →
          filterExceptionalBranches (brs ++ [b]) = []))
  ∧ (∀ brs,
       filterExceptionalBranches brs = []
       ∨ filterExceptionalBranches brs = drop_throw_pairs brs)
  ∧ (∀ brs b,
       Nat.even (length brs) = true →
       filterExceptionalBranches (brs ++ [b]) = []
       ∨ filterExceptionalBranches (brs ++ [b]) = drop_throw_pairs brs ++ [b])
  ∧ (∀ brs,
       has_throw_pair brs = false → filterExceptionalBranches brs = brs)
  ∧ (∀ l, incoming_branches l true = ln_branches l)
  ∧ (∀ l, incoming_branches l false
          = filterExceptionalBranches (ln_branches l))
  ∧ filterExceptionalBranches [BranchRaw 0 false; BranchRaw 0 true] = []
  ∧ (∀ n c,
       (distillLine (LineRaw n c [BranchRaw 0 false; BranchRaw 0 true])
          ∅ ∅ false).2 = ∅
       ∧ (distillLine (LineRaw n c [BranchRaw 0 false; BranchRaw 0 true])
            ∅ ∅ true).2 = {[ n := [0; 0]%Z ]}).
Proof.
  split.
  { intros brs. split; [apply filterExceptionalBranches_no_noise
                       |apply filterExceptionalBranches_noise]. }
  split.
  { intros brs b Hev. split; intros H.
    - rewrite <-drop_throw_pairs_snoc by done.
      apply filterExceptionalBranches_no_noise.
      by rewrite initializer_noise_unpaired.
    - apply filterExceptionalBranches_noise.
      by rewrite initializer_noise_unpaired. }
  split; [apply filterExceptionalBranches_cases|].
  split.
  { intros brs b Hev. rewrite <-drop_throw_pairs_snoc by done.
    apply filterExceptionalBranches_cases. }
  split; [apply filterExceptionalBranches_no_throw|].
  do 3 (split; [done|]).
  intros n c. rewrite !distillLine_branches. split; [done|].
  cbn [incoming_branches ln_branches ln_line_number].
  rewrite lookup_empty. cbn. by rewrite insert_empty.
Qed.

Lemma filter_drops_exception_pairs_witness :
  Nat.even (length [BranchRaw 1 false; BranchRaw 0 true;
                    BranchRaw 2 false; BranchRaw 3 false]) = true
  ∧ ¬ initializer_noise [BranchRaw 1 false; BranchRaw 0 true;
                         BranchRaw 2 false; BranchRaw 3 false]
  ∧ filterExceptionalBranches
      ([BranchRaw 1 false; BranchRaw 0 true;
        BranchRaw 2 false; BranchRaw 3 false] ++ [BranchRaw 9 true])
    = drop_throw_pairs
        [BranchRaw 1 false; BranchRaw 0 true;
         BranchRaw 2 false; BranchRaw 3 false] ++ [BranchRaw 9 true]
  ∧ Nat.even (length [BranchRaw 5 false; BranchRaw 5 false;
                      BranchRaw 0 false; BranchRaw 0 true;
                      BranchRaw 0 false; BranchRaw 0 false]) = true
  ∧ initializer_noise [BranchRaw 5 false; BranchRaw 5 false;
                       BranchRaw 0 false; BranchRaw 0 true;
                       BranchRaw 0 false; BranchRaw 0 false]
  ∧ filterExceptionalBranches
      ([BranchRaw 5 false; BranchRaw 5 false;
        BranchRaw 0 false; BranchRaw 0 true;
        BranchRaw 0 false; BranchRaw 0 false] ++ [BranchRaw 7 false]) = []
  ∧ has_throw_pair [BranchRaw 4 false; BranchRaw 0 false] = false
  ∧ filterExceptionalBranches [BranchRaw 4 false; BranchRaw 0 false]
    = [BranchRaw 4 false; BranchRaw 0 false].
Proof.
  assert (Hev1 : Nat.even (length [BranchRaw 1 false; BranchRaw 0 true;
                    BranchRaw 2 false; BranchRaw 3 false]) = true)
    by reflexivity.
  assert (Hnn : ¬ initializer_noise [BranchRaw 1 false; BranchRaw 0 true;
                         BranchRaw 2 false; BranchRaw 3 false]).
  { intros H. apply filterExceptionalBranches_noise in H.
    vm_compute in H. discriminate H. }
  assert (Hev2 : Nat.even (length [BranchRaw 5 false; BranchRaw 5 false;
                      BranchRaw 0 false; BranchRaw 0 true;
                      BranchRaw 0 false; BranchRaw 0 false]) = true)
    by reflexivity.
  assert (Hn : initializer_noise [BranchRaw 5 false; BranchRaw 5 false;
                       BranchRaw 0 false; BranchRaw 0 true;
                       BranchRaw 0 false; BranchRaw 0 false]).
  { exists [BranchRaw 5 false; BranchRaw 5 false;
            BranchRaw 0 false; BranchRaw 0 true],
      (BranchRaw 0 false), (BranchRaw 0 false), [], [],
      (BranchRaw 5 false), (BranchRaw 5 false).
    repeat split; reflexivity. }
  split; [exact Hev1|]. split; [exact Hnn|].
  split.
  { exact (proj1 (proj1 (proj2 filter_drops_exception_pairs) _
                    (BranchRaw 9 true) Hev1) Hnn). }
  split; [exact Hev2|]. split; [exact Hn|].
  split.
  { exact (proj2 (proj1 (proj2 filter_drops_exception_pairs) _
                    (BranchRaw 7 false) Hev2) Hn). }
  split; [reflexivity|].
  apply (proj1 (proj2 (proj2 (proj2 (proj2 filter_drops_exception_pairs))))).
  reflexivity.
Defined.

(** C3 as stated fails: an unpaired last branch is not always retained.  In
    the seven-branch list below the pair (5, 5) is retained, the pair
    (0, 0 throw) is dropped, and the pair (0, 0) then makes the filter
    return the empty list before the last branch is reached. *)
Lemma trailing_branch_not_always_retained :
  ¬ (∀ brs b,
       Nat.even (length brs) = true →
       ∃ kept, filterExceptionalBranches (brs ++ [b]) = kept ++ [b]).
Proof.
  intros H.
  destruct (H [BranchRaw 5 false; BranchRaw 5 false;
               BranchRaw 0 false; BranchRaw 0 true;
               BranchRaw 0 false; BranchRaw 0 false]
              (BranchRaw 7 false) eq_refl) as [kept Hk].
  vm_compute in Hk. by destruct kept.
Qed.

(** C4, as the code has it.  The filter returns the empty list exactly when
    the list is empty once its exception pairs are removed, or when the loop
    reaches, after some pair was dropped, a pair that is not an exception
    pair and has counts 0 and 0 while the pair retained last has two equal
    counts (which need not be 0). *)
Theorem filter_initializer_noise :
  (∀ brs, initializer_noise brs → filterExceptionalBranches brs = [])
  ∧ (∀ brs,
       ¬ initializer_noise brs →
       filterExceptionalBranches brs = drop_throw_pairs brs)
  ∧ (∀ brs,
       filterExceptionalBranches brs ≠ drop_throw_pairs brs →
       initializer_noise brs)
  ∧ filterExceptionalBranches
      [BranchRaw 5 false; BranchRaw 5 false;
       BranchRaw 3 false; BranchRaw 0 true;
       BranchRaw 0 false; BranchRaw 0 false] = []
  ∧ filterExceptionalBranches
      [BranchRaw 0 false; BranchRaw 0 false;
       BranchRaw 0 false; BranchRaw 0 false;
       BranchRaw 0 false; BranchRaw 0 true]
    = [BranchRaw 0 false; BranchRaw 0 false;
       BranchRaw 0 false; BranchRaw 0 false].
Proof.
  split; [apply filterExceptionalBranches_noise|].
  split; [apply filterExceptionalBranches_no_noise|].
  split; [|by vm_compute].
  intros brs Hne. unfold filterExceptionalBranches in Hne.
  rewrite for_loop_filter_pairs in Hne.
  destruct (filter_pairs brs ([], false)) as [[f' e']|r] eqn:E.
  - by apply filter_pairs_inl in E as [-> ->].
  - by apply returns_noise_from in E.
Qed.

Lemma filter_initializer_noise_witness :
  initializer_noise
    [BranchRaw 5 false; BranchRaw 5 false;
     BranchRaw 3 false; BranchRaw 0 true;
     BranchRaw 0 false; BranchRaw 0 false; BranchRaw 8 false]
  ∧ filterExceptionalBranches
      [BranchRaw 5 false; BranchRaw 5 false;
       BranchRaw 3 false; BranchRaw 0 true;
       BranchRaw 0 false; BranchRaw 0 false; BranchRaw 8 false] = []
  ∧ filterExceptionalBranches
      [BranchRaw 1 false; BranchRaw 1 false;
       BranchRaw 3 false; BranchRaw 0 true;
       BranchRaw 0 false; BranchRaw 0 false]
    ≠ drop_throw_pairs
        [BranchRaw 1 false; BranchRaw 1 false;
         BranchRaw 3 false; BranchRaw 0 true;
         BranchRaw 0 false; BranchRaw 0 false]
  ∧ initializer_noise
      [BranchRaw 1 false; BranchRaw 1 false;
       BranchRaw 3 false; BranchRaw 0 true;
       BranchRaw 0 false; BranchRaw 0 false]
  ∧ ¬ initializer_noise
        [BranchRaw 0 false; BranchRaw 0 false;
         BranchRaw 0 false; BranchRaw 0 true]
  ∧ filterExceptionalBranches
      [BranchRaw 0 false; BranchRaw 0 false;
       BranchRaw 0 false; BranchRaw 0 true]
    = drop_throw_pairs
        [BranchRaw 0 false; BranchRaw 0 false;
         BranchRaw 0 false; BranchRaw 0 true].
Proof.
  assert (Hnn : ¬ initializer_noise
        [BranchRaw 0 false; BranchRaw 0 false;
         BranchRaw 0 false; BranchRaw 0 true]).
  { intros H. apply (proj1 filter_initializer_noise) in H.
    vm_compute in H. discriminate H. }
  assert (Hn : initializer_noise
    [BranchRaw 5 false; BranchRaw 5 false;
     BranchRaw 3 false; BranchRaw 0 true;
     BranchRaw 0 false; BranchRaw 0 false; BranchRaw 8 false]).
  { exists [BranchRaw 5 false; BranchRaw 5 false;
            BranchRaw 3 false; BranchRaw 0 true],
      (BranchRaw 0 false), (BranchRaw 0 false), [BranchRaw 8 false],
      [], (BranchRaw 5 false), (BranchRaw 5 false).
    repeat split; reflexivity. }
  assert (Hd : filterExceptionalBranches
      [BranchRaw 1 false; BranchRaw 1 false;
       BranchRaw 3 false; BranchRaw 0 true;
       BranchRaw 0 false; BranchRaw 0 false]
    ≠ drop_throw_pairs
        [BranchRaw 1 false; BranchRaw 1 false;
         BranchRaw 3 false; BranchRaw 0 true;
         BranchRaw 0 false; BranchRaw 0 false]).
  { vm_compute. discriminate. }
  split; [exact Hn|]. split.
  - exact (proj1 filter_initializer_noise _ Hn).
  - split; [exact Hd|].
    split; [exact (proj1 (proj2 (proj2 filter_initializer_noise)) _ Hd)|].
    split; [exact Hnn|].
    exact (proj1 (proj2 filter_initializer_noise) _ Hnn).
Defined.

(** C4 as stated fails: two identical retained pairs with counts 0 and 0
    followed by a dropped exception pair do not empty the list; the four
    retained branches are returned. *)
Lemma two_empty_pairs_then_drop_not_emptied :
  ¬ (∀ brs,
       dropped_after_two_empty_pairs brs →
       filterExceptionalBranches brs = []).
Proof.
  intros H.
  specialize (H [BranchRaw 0 false; BranchRaw 0 false;
                 BranchRaw 0 false; BranchRaw 0 false;
                 BranchRaw 0 false; BranchRaw 0 true]).
  vm_compute in H. discriminate H.
  exists [], (BranchRaw 0 false), (BranchRaw 0 false),
    (BranchRaw 0 false), (BranchRaw 0 true), [].
  repeat split; reflexivity.
Qed.

(** ** Chunking *)

Lemma concat_chunks_take {A} (l : list A) (n c : nat) :
  concat ((λ k, take n (drop (k * n) l)) <$> seq 0 c) = take (c * n) l.
Proof.
  induction c as [|c IH]; [done|].
  rewrite seq_S, fmap_app, concat_app, IH. simpl.
  rewrite app_nil_r, take_take_drop. f_equal. lia.
Qed.

Lemma ceil_mul_ge (len n : nat) : 0 < n → len ≤ (len + n - 1) / n * n.
Proof.
  intros Hn.
  pose proof (Nat.div_mod (len + n - 1) n ltac:(lia)) as Hd.
  pose proof (Nat.mod_upper_bound (len + n - 1) n ltac:(lia)) as Hm.
  nia.
Qed.

Lemma below_ceil_lt (len n k : nat) :
  0 < n → k < (len + n - 1) / n → k * n < len.
Proof.
  intros Hn Hk.
  pose proof (Nat.div_mod (len + n - 1) n ltac:(lia)) as Hd.
  pose proof (Nat.mod_upper_bound (len + n - 1) n ltac:(lia)) as Hm.
  nia.
Qed.

Lemma chunks_chunked {A} (l : list A) (n : Z) :
  (0 < n)%Z → ∃ cs, chunks l n = Ok cs ∧ chunked l (Z.to_nat n) cs.
Proof.
  intros Hn. unfold chunks, range_step.
  destruct (decide (n = 0%Z)) as [|_]; [lia|].
  destruct (decide (n < 0)%Z) as [|_]; [lia|].
  cbn [result_bind]. eexists. split; [done|].
  set (sz := Z.to_nat n). assert (0 < sz) as Hsz by lia.
  rewrite <-list_fmap_compose.
  change (((λ i, take sz (drop i l)) ∘ (λ k, k * sz)))
    with (λ k, take sz (drop (k * sz) l)).
  split; [|split].
  - rewrite concat_chunks_take. apply take_ge. by apply ceil_mul_ge.
  - by rewrite length_fmap, length_seq.
  - intros k c Hk. apply list_lookup_fmap_Some in Hk as (k' & Hc & Hk').
    apply lookup_seq in Hk' as [-> Hlt]. simpl in Hc, Hlt. subst c.
    pose proof (below_ceil_lt _ _ _ Hsz Hlt).
    split; [done|]. rewrite length_take, length_drop. lia.
Qed.

Lemma chunk_size_floor_succ (m jobs : Z) (total : nat) :
  (1 ≤ jobs)%Z →
  chunk_size m jobs total = Ok (Z.max m (Z.of_nat total / jobs + 1)).
Proof.
  intros Hj. unfold chunk_size.
  destruct (decide (jobs = 0%Z)); [lia|].
  by rewrite Z.quot_div_nonneg by lia.
Qed.

Lemma ceil_div_floor (a b : Z) :
  (0 ≤ a)%Z → (1 ≤ b)%Z →
  ceil_div a b = (if decide (a `mod` b = 0)%Z then a / b else a / b + 1)%Z.
Proof.
  intros Ha Hb. unfold ceil_div.
  pose proof (Z.div_mod a b ltac:(lia)) as Hd.
  pose proof (Z.mod_pos_bound a b ltac:(lia)) as Hm.
  destruct (decide (a `mod` b = 0)%Z) as [H0|Hne].
  - symmetry. apply (Z.div_unique _ _ _ (b - 1)); lia.
  - symmetry. apply (Z.div_unique _ _ _ (a `mod` b - 1)); lia.
Qed.

Lemma processGcdas_threads_chunked (coverage_files : list string)
    (jobs m : Z) :
  (1 ≤ jobs)%Z →
  ∃ cs, processGcdas_threads jobs coverage_files m = Ok cs
    ∧ chunked coverage_files
        (Z.to_nat (Z.max m (Z.of_nat (length coverage_files) / jobs + 1)))
        cs.
Proof.
  intros Hj. unfold processGcdas_threads.
  rewrite chunk_size_floor_succ by done. cbn [result_bind].
  apply chunks_chunked.
  pose proof (Z.div_pos (Z.of_nat (length coverage_files)) jobs). lia.
Qed.

Lemma scanExclusionMarkers_threads_chunked (r : report)
    (keys : list string) (jobs m : Z) :
  (1 ≤ jobs)%Z →
  ∃ cs, scanExclusionMarkers_threads r keys jobs m = Ok cs
    ∧ chunked keys
        (Z.to_nat (Z.max m (Z.of_nat (size (sources r)) / jobs + 1))) cs.
Proof.
  intros Hj. unfold scanExclusionMarkers_threads.
  rewrite chunk_size_floor_succ by done. cbn [result_bind].
  apply chunks_chunked.
  pose proof (Z.div_pos (Z.of_nat (size (sources r))) jobs). lia.
Qed.

Lemma keys_of_length r keys :
  keys_of r keys → length keys = size (sources r).
Proof.
  unfold keys_of. intros ->. by rewrite length_fmap, length_map_to_list.
Qed.

Lemma keys_of_map_to_list r : keys_of r (map_to_list (sources r)).*1.
Proof. unfold keys_of. reflexivity. Qed.

(** C5, as the code has it.  For at least one worker, both fan-out phases
    cut their input into contiguous chunks of
    [max(minChunkSize, floor(total / workerCount) + 1)] elements (the last
    chunk holding the remainder) and start one worker per chunk.  That size
    is the ceiling-based one whenever the worker count does not divide the
    total, and one more than it when it does and the minimum chunk size does
    not dominate. *)
Theorem fan_out_chunks :
  (∀ (coverage_files : list string) (jobs m : Z),
     (1 ≤ jobs)%Z →
     ∃ cs, processGcdas_threads jobs coverage_files m = Ok cs
       ∧ chunked coverage_files
           (Z.to_nat (Z.max m (Z.of_nat (length coverage_files) / jobs + 1)))
           cs)
  ∧ (∀ (fastcov_json : report) (keys : list string) (jobs m : Z),
       (1 ≤ jobs)%Z →
       ∃ cs, scanExclusionMarkers_threads fastcov_json keys jobs m = Ok cs
         ∧ chunked keys
             (Z.to_nat
                (Z.max m (Z.of_nat (size (sources fastcov_json)) / jobs + 1)))
             cs)
  ∧ (∀ (fastcov_json : report) (keys : list string),
       keys_of fastcov_json keys →
       size (sources fastcov_json) = length keys)
  ∧ (∀ (m jobs : Z) (total : nat),
       (1 ≤ jobs)%Z →
       (Z.of_nat total `mod` jobs ≠ 0)%Z →
       chunk_size m jobs total = Ok (ceiling_chunk_size m jobs total))
  ∧ (∀ (m jobs : Z) (total : nat),
       (1 ≤ jobs)%Z →
       (Z.of_nat total `mod` jobs = 0)%Z →
       (m ≤ Z.of_nat total / jobs)%Z →
       chunk_size m jobs total = Ok (ceiling_chunk_size m jobs total + 1)%Z).
Proof.
  split; [|split; [|split; [|split]]].
  - apply processGcdas_threads_chunked.
  - apply scanExclusionMarkers_threads_chunked.
  - intros r keys Hk. symmetry. by apply keys_of_length.
  - intros m jobs total Hj Hmod.
    rewrite chunk_size_floor_succ by done.
    unfold ceiling_chunk_size. rewrite ceil_div_floor by lia.
    by destruct (decide _).
  - intros m jobs total Hj Hmod Hm.
    rewrite chunk_size_floor_succ by done.
    unfold ceiling_chunk_size. rewrite ceil_div_floor by lia.
    destruct (decide _); [|done]. f_equal. lia.
Qed.

Lemma fan_out_chunks_witness :
  (1 ≤ 2)%Z
  ∧ (Z.of_nat 7 `mod` 2 ≠ 0)%Z
  ∧ (Z.of_nat 10 `mod` 2 = 0)%Z
  ∧ (1 ≤ Z.of_nat 10 / 2)%Z
  ∧ (∃ cs, processGcdas_threads 2 ["a.gcda"; "b.gcda"; "c.gcda"] 1 = Ok cs
       ∧ chunked ["a.gcda"; "b.gcda"; "c.gcda"]
           (Z.to_nat (Z.max 1 (Z.of_nat 3 / 2 + 1))) cs)
  ∧ (∃ cs,
       scanExclusionMarkers_threads (Report excl_example_before)
         ["/src/a.c"] 2 1 = Ok cs
       ∧ chunked ["/src/a.c"]
           (Z.to_nat
              (Z.max 1
                 (Z.of_nat (size (sources (Report excl_example_before))) / 2
                  + 1)))
           cs)
  ∧ keys_of (Report excl_example_before) ["/src/a.c"]
  ∧ size (sources (Report excl_example_before)) = length ["/src/a.c"]
  ∧ chunk_size 1 2 7 = Ok (ceiling_chunk_size 1 2 7)
  ∧ chunk_size 1 2 10 = Ok (ceiling_chunk_size 1 2 10 + 1)%Z.
Proof.
  assert (H12 : (1 ≤ 2)%Z) by lia.
  assert (H7 : (Z.of_nat 7 `mod` 2 ≠ 0)%Z) by (by vm_compute).
  assert (H10 : (Z.of_nat 10 `mod` 2 = 0)%Z) by reflexivity.
  assert (H5 : (1 ≤ Z.of_nat 10 / 2)%Z) by (by vm_compute).
  split; [exact H12|]. split; [exact H7|]. split; [exact H10|].
  split; [exact H5|].
  split; [exact (proj1 fan_out_chunks _ 2%Z 1%Z H12)|].
  assert (Hk : keys_of (Report excl_example_before) ["/src/a.c"])
    by (unfold keys_of; vm_compute; reflexivity).
  split; [exact (proj1 (proj2 fan_out_chunks) _ _ 2%Z 1%Z H12)|].
  split; [exact Hk|].
  split; [exact (proj1 (proj2 (proj2 fan_out_chunks)) _ _ Hk)|].
  split.
  - exact (proj1 (proj2 (proj2 (proj2 fan_out_chunks))) 1%Z 2%Z 7 H12 H7).
  - exact (proj2 (proj2 (proj2 (proj2 fan_out_chunks))) 1%Z 2%Z 10
             H12 H10 H5).
Defined.

(** C5 as stated fails: ten files, two workers and a minimum chunk size of 1
    give chunks of 6 and 4 files, not chunks of ceil(10 / 2) = 5 files. *)
Lemma chunk_size_is_not_the_ceiling :
  ¬ (∀ (coverage_files : list string) (jobs m : Z),
       coverage_files ≠ [] →
       (1 ≤ jobs)%Z →
       ∃ cs, processGcdas_threads jobs coverage_files m = Ok cs
         ∧ chunked coverage_files
             (Z.to_nat (ceiling_chunk_size m jobs (length coverage_files)))
             cs).
Proof.
  intros H.
  destruct (H ["0.gcda"; "1.gcda"; "2.gcda"; "3.gcda"; "4.gcda";
               "5.gcda"; "6.gcda"; "7.gcda"; "8.gcda"; "9.gcda"]
              2%Z 1%Z ltac:(done) ltac:(lia)) as (cs & Hcs & _ & _ & Hk).
  vm_compute in Hcs. injection Hcs as <-.
  destruct (Hk 0 _ eq_refl) as (_ & Hlen & _).
  vm_compute in Hlen. discriminate.
Qed.

(** ** The scanner leaves the functions alone *)

Lemma keeps_functions_ret {A} (a : A) : keeps_functions (mret a).
Proof. by intros srcs path. Qed.

Lemma keeps_functions_bind {A B} (m : scan A) (k : A → scan B) :
  keeps_functions m → (∀ a, keeps_functions (k a)) →
  keeps_functions (m ≫= k).
Proof.
  intros Hm Hk srcs path. unfold mbind, scan_bind.
  specialize (Hm srcs path).
  destruct (m srcs) as [a srcs'|e srcs']; simpl in *; [|done].
  by rewrite Hk.
Qed.

Lemma keeps_functions_when c m :
  keeps_functions m → keeps_functions (when c m).
Proof. destruct c; [done|]. intros _. apply keeps_functions_ret. Qed.

Lemma keeps_functions_scan_for {A} (xs : list A) body :
  (∀ x, keeps_functions (body x)) → keeps_functions (scan_for xs body).
Proof.
  intros Hb. induction xs as [|x xs IH]; simpl.
  - apply keeps_functions_ret.
  - apply keeps_functions_bind; auto.
Qed.

Lemma keeps_functions_in_branches source i :
  keeps_functions (in_branches source i).
Proof.
  intros srcs path. unfold in_branches. by destruct (srcs !! source).
Qed.

Lemma keeps_functions_in_lines source i :
  keeps_functions (in_lines source i).
Proof. intros srcs path. unfold in_lines. by destruct (srcs !! source). Qed.

Lemma keeps_functions_branches_keys source :
  keeps_functions (branches_keys source).
Proof.
  intros srcs path. unfold branches_keys. by destruct (srcs !! source).
Qed.

Lemma keeps_functions_lines_keys source :
  keeps_functions (lines_keys source).
Proof.
  intros srcs path. unfold lines_keys. by destruct (srcs !! source).
Qed.

Lemma keeps_functions_del_branches source i :
  keeps_functions (del_branches source i).
Proof.
  intros srcs path. unfold del_branches.
  destruct (srcs !! source) as [d|] eqn:E; [|done].
  destruct (branches d !! i); [|done]. simpl.
  destruct (decide (source = path)) as [<-|Hne].
  - by rewrite lookup_insert_eq, E.
  - by rewrite lookup_insert_ne.
Qed.

Lemma keeps_functions_del_lines source i :
  keeps_functions (del_lines source i).
Proof.
  intros srcs path. unfold del_lines.
  destruct (srcs !! source) as [d|] eqn:E; [|done].
  destruct (lines d !! i); [|done]. simpl.
  destruct (decide (source = path)) as [<-|Hne].
  - by rewrite lookup_insert_eq, E.
  - by rewrite lookup_insert_ne.
Qed.

Lemma keeps_functions_getSourceLines fs source :
  keeps_functions (getSourceLines fs source).
Proof.
  intros srcs path. unfold getSourceLines. by destruct (fs source).
Qed.

Create HintDb frame discriminated.
#[local] Hint Resolve keeps_functions_ret keeps_functions_when
  keeps_functions_in_branches keeps_functions_in_lines
  keeps_functions_branches_keys keeps_functions_lines_keys
  keeps_functions_del_branches keeps_functions_del_lines
  keeps_functions_getSourceLines : frame.

Ltac frame_step :=
  first
    [ apply keeps_functions_bind; [|intros ?]
    | apply keeps_functions_scan_for; intros ?
    | solve [auto with frame]
    | apply keeps_functions_when ].

Lemma keeps_functions_branch_prefix_filters source excl incl i line :
  keeps_functions (branch_prefix_filters source excl incl i line).
Proof. unfold branch_prefix_filters. repeat frame_step. Qed.

Lemma keeps_functions_marker_step source loc i line :
  keeps_functions (marker_step source loc i line).
Proof.
  unfold marker_step. destruct loc as [s e].
  destruct (marker_of line) as [[]|]; try case_bool_decide;
    repeat frame_step.
Qed.

Lemma keeps_functions_scan_line source excl incl loc il :
  keeps_functions (scan_line source excl incl loc il).
Proof.
  unfold scan_line. apply keeps_functions_bind; [|intros ?].
  - apply keeps_functions_branch_prefix_filters.
  - apply keeps_functions_marker_step.
Qed.

Lemma keeps_functions_scan_lines source excl incl ils :
  ∀ loc, keeps_functions (scan_lines source excl incl loc ils).
Proof.
  induction ils as [|il ils IH]; intros loc; simpl.
  - apply keeps_functions_ret.
  - apply keeps_functions_bind; [|done].
    apply keeps_functions_scan_line.
Qed.

Lemma keeps_functions_exclMarkerWorker fs chunk excl incl :
  keeps_functions (exclMarkerWorker fs chunk excl incl).
Proof.
  unfold exclMarkerWorker. apply keeps_functions_scan_for. intros source.
  apply keeps_functions_bind; [auto with frame|intros text].
  apply keeps_functions_bind; [|auto with frame].
  apply keeps_functions_scan_lines.
Qed.

Lemma after_thread_functions m srcs path :
  keeps_functions m →
  functions <$> after_thread m srcs !! path = functions <$> srcs !! path.
Proof.
  intros H. specialize (H srcs path). unfold after_thread.
  by destruct (m srcs).
Qed.

Lemma threads_functions fs excl incl cs :
  ∀ srcs path,
    functions <$>
      foldl (λ srcs chunk,
               after_thread (exclMarkerWorker fs chunk excl incl) srcs)
        srcs cs !! path
    = functions <$> srcs !! path.
Proof.
  induction cs as [|c cs IH]; intros srcs path; [done|]. simpl.
  rewrite IH. apply after_thread_functions,
    keeps_functions_exclMarkerWorker.
Qed.

(** ** Range exclusion *)

(** The deletion loop over a snapshot of the keys, for either of the two
    line-keyed maps of a source record: [get]/[set] read and replace the map
    and [del] is its [del ...[source][key][i]]. *)
Section delete_range.
Context {V : Type}.
Variable get : source_data → gmap Z V.
Variable put : gmap Z V → source_data → source_data.
Variable del : string → Z → scan ().
Hypothesis del_spec : ∀ source i srcs d,
  srcs !! source = Some d →
  del source i srcs
  = match get d !! i with
    | None => Raised KeyError srcs
    | Some _ => Done () (<[source := put (delete i (get d)) d]> srcs)
    end.
Hypothesis get_set : ∀ m d, get (put m d) = m.
Hypothesis set_set : ∀ m m' d, put m (put m' d) = put m d.
Hypothesis set_get : ∀ d, put (get d) d = d.

Lemma delete_range_keys source s e ks :
  ∀ srcs d,
    NoDup ks →
    (∀ k, k ∈ ks → is_Some (get d !! k)) →
    srcs !! source = Some d →
    ∃ m',
      scan_for ks (λ k, when (in_range s e k) (del source k)) srcs
      = Done () (<[source := put m' d]> srcs)
      ∧ ∀ j, m' !! j
             = if bool_decide (j ∈ ks) && in_range s e j then None
               else get d !! j.
Proof.
  induction ks as [|k ks IH]; intros srcs d Hnd Hin Hs.
  - exists (get d). split.
    + simpl. unfold mret, scan_ret. by rewrite set_get, insert_id.
    + intros j. by rewrite bool_decide_eq_false_2 by set_solver.
  - apply NoDup_cons in Hnd as [Hk Hnd].
    cbn [scan_for]. unfold mbind, scan_bind.
    destruct (in_range s e k) eqn:Hr; cbn [when].
    + destruct (Hin k ltac:(set_solver)) as [v Hv].
      rewrite (del_spec _ _ _ _ Hs), Hv.
      destruct (IH (<[source := put (delete k (get d)) d]> srcs)
                  (put (delete k (get d)) d) Hnd) as (m' & Hrun & Hm').
      { intros k' Hk'. rewrite get_set.
        rewrite lookup_delete_ne by set_solver. apply Hin. set_solver. }
      { by rewrite lookup_insert_eq. }
      exists m'. split.
      * by rewrite Hrun, insert_insert_eq, set_set.
      * intros j. rewrite Hm', get_set.
        destruct (decide (j = k)) as [->|Hne].
        -- rewrite lookup_delete_eq, Hr.
           rewrite (bool_decide_eq_true_2 (k ∈ k :: ks)) by set_solver.
           by destruct (bool_decide (k ∈ ks)).
        -- rewrite lookup_delete_ne by done.
           by rewrite (bool_decide_ext (j ∈ k :: ks) (j ∈ ks))
             by set_solver.
    + unfold mret, scan_ret.
      destruct (IH srcs d Hnd) as (m' & Hrun & Hm'); [set_solver|done|].
      exists m'. split; [done|].
      intros j. rewrite Hm'.
      destruct (decide (j = k)) as [->|Hne].
      * rewrite Hr, !andb_false_r. done.
      * by rewrite (bool_decide_ext (j ∈ k :: ks) (j ∈ ks))
          by set_solver.
Qed.

Lemma delete_range_all source s e srcs d :
  srcs !! source = Some d →
  scan_for (map_to_list (get d)).*1
    (λ k, when (in_range s e k) (del source k)) srcs
  = Done ()
      (<[source :=
           put (filter (λ kv, in_range s e kv.1 = false) (get d)) d]> srcs).
Proof.
  intros Hs.
  destruct (delete_range_keys source s e (map_to_list (get d)).*1 srcs d)
    as (m' & Hrun & Hm'); [apply NoDup_fst_map_to_list| |done|].
  { intros k Hk. apply list_elem_of_fmap in Hk as ([k' v] & -> & Hkv).
    apply elem_of_map_to_list in Hkv. by exists v. }
  rewrite Hrun. do 3 f_equal.
  apply map_eq. intros j. rewrite Hm'. apply option_eq. intros v.
  rewrite map_lookup_filter_Some. cbn [fst].
  destruct (in_range s e j) eqn:Hr.
  - rewrite andb_true_r. case_bool_decide as Hj; [naive_solver|].
    split; [|naive_solver]. intros Hv. destruct Hj.
    apply list_elem_of_fmap. exists (j, v). split; [done|].
    by apply elem_of_map_to_list.
  - rewrite andb_false_r. naive_solver.
Qed.
End delete_range.

Lemma del_lines_spec source i srcs d :
  srcs !! source = Some d →
  del_lines source i srcs
  = match lines d !! i with
    | None => Raised KeyError srcs
    | Some _ =>
        Done () (<[source := SourceData (functions d) (branches d)
                               (delete i (lines d))]> srcs)
    end.
Proof. intros H. unfold del_lines. by rewrite H. Qed.

Lemma del_branches_spec source i srcs d :
  srcs !! source = Some d →
  del_branches source i srcs
  = match branches d !! i with
    | None => Raised KeyError srcs
    | Some _ =>
        Done () (<[source := SourceData (functions d)
                               (delete i (branches d)) (lines d)]> srcs)
    end.
Proof. intros H. unfold del_branches. by rewrite H. Qed.

Lemma delete_lines_range source s e srcs d :
  srcs !! source = Some d →
  (ks ← lines_keys source;
   scan_for ks (λ k, when (in_range s e k) (del_lines source k))) srcs
  = Done ()
      (<[source := SourceData (functions d) (branches d)
                     (filter (λ kv, in_range s e kv.1 = false) (lines d))]>
         srcs).
Proof.
  intros Hs. unfold mbind, scan_bind, lines_keys. rewrite Hs.
  apply (delete_range_all lines
           (λ m d, SourceData (functions d) (branches d) m) del_lines);
    [apply del_lines_spec|done|done|by intros []|done].
Qed.

Lemma delete_branches_range source s e srcs d :
  srcs !! source = Some d →
  (ks ← branches_keys source;
   scan_for ks (λ k, when (in_range s e k) (del_branches source k))) srcs
  = Done ()
      (<[source := SourceData (functions d)
                     (filter (λ kv, in_range s e kv.1 = false) (branches d))
                     (lines d)]> srcs).
Proof.
  intros Hs. unfold mbind, scan_bind, branches_keys. rewrite Hs.
  apply (delete_range_all branches
           (λ m d, SourceData (functions d) m (lines d)) del_branches);
    [apply del_branches_spec|done|done|by intros []|done].
Qed.

Lemma lookup_filter_out_of_range {V} s e (m : gmap Z V) k :
  filter (λ kv, in_range s e kv.1 = false) m !! k
  = if in_range s e k then None else m !! k.
Proof.
  apply option_eq. intros v. rewrite map_lookup_filter_Some. cbn [fst].
  destruct (in_range s e k); naive_solver.
Qed.

Lemma marker_step_stop_pending source s e i line srcs d :
  marker_of line = Some ExclStop →
  s ≠ 0%Z →
  srcs !! source = Some d →
  marker_step source (s, e) i line srcs
  = Done (0%Z, 0%Z)
      (<[source :=
           SourceData (functions d)
             (filter (λ kv, in_range s i kv.1 = false) (branches d))
             (filter (λ kv, in_range s i kv.1 = false) (lines d))]> srcs).
Proof.
  intros Hm Hs Hd. unfold marker_step. rewrite Hm.
  rewrite bool_decide_eq_false_2 by done.
  unfold mbind at 1. unfold scan_bind at 1.
  rewrite (delete_lines_range _ _ _ _ _ Hd).
  unfold mbind at 1. unfold scan_bind at 1.
  erewrite delete_branches_range by apply lookup_insert_eq.
  cbn [functions branches lines]. unfold mret, scan_ret.
  by rewrite insert_insert_eq.
Qed.

Lemma scan_line_no_filters source loc i line srcs :
  is_Some (srcs !! source) →
  scan_line source [] [] loc (i, line) srcs
  = marker_step source loc i line srcs.
Proof.
  intros [d Hd]. unfold scan_line, branch_prefix_filters. cbn [fst snd].
  unfold mbind, scan_bind, in_branches. rewrite Hd.
  by destruct (bool_decide (is_Some (branches d !! i))).
Qed.

Lemma guarded_del_lines source i srcs d :
  srcs !! source = Some d →
  (b ← in_lines source i; when b (del_lines source i)) srcs
  = Done ()
      (<[source := SourceData (functions d) (branches d)
                     (delete i (lines d))]> srcs).
Proof.
  intros Hd. unfold mbind, scan_bind, in_lines. rewrite Hd.
  case_bool_decide as Hi; cbn [when].
  - rewrite (del_lines_spec _ _ _ _ Hd). by destruct Hi as [v ->].
  - unfold mret, scan_ret. f_equal.
    rewrite delete_id by (by apply eq_None_not_Some).
    symmetry. apply insert_id. by destruct d.
Qed.

Lemma guarded_del_branches source i srcs d :
  srcs !! source = Some d →
  (b ← in_branches source i; when b (del_branches source i)) srcs
  = Done ()
      (<[source := SourceData (functions d) (delete i (branches d))
                     (lines d)]> srcs).
Proof.
  intros Hd. unfold mbind, scan_bind, in_branches. rewrite Hd.
  case_bool_decide as Hi; cbn [when].
  - rewrite (del_branches_spec _ _ _ _ Hd). by destruct Hi as [v ->].
  - unfold mret, scan_ret. f_equal.
    rewrite delete_id by (by apply eq_None_not_Some).
    symmetry. apply insert_id. by destruct d.
Qed.

Lemma marker_step_effect source loc i line srcs d :
  srcs !! source = Some d →
  marker_step source loc i line srcs
  = Done (marker_effect loc i line d).1
      (<[source := (marker_effect loc i line d).2]> srcs).
Proof.
  intros Hd. destruct loc as [s e].
  assert (Hid : <[source := d]> srcs = srcs) by (by apply insert_id).
  destruct (marker_of line) as [[]|] eqn:Hm.
  - unfold marker_step, marker_effect. rewrite Hm. cbn [fst snd].
    unfold mbind at 1. unfold scan_bind at 1.
    unfold mbind at 2. unfold scan_bind at 2.
    rewrite (guarded_del_lines _ _ _ _ Hd).
    erewrite guarded_del_branches by apply lookup_insert_eq.
    cbn [functions branches lines]. unfold mret, scan_ret.
    by rewrite insert_insert_eq.
  - unfold marker_step, marker_effect. rewrite Hm. cbn [fst snd].
    unfold mret, scan_ret. by rewrite Hid.
  - destruct (decide (s = 0%Z)) as [->|Hs].
    + unfold marker_step, marker_effect. rewrite Hm. cbn [fst snd].
      rewrite bool_decide_eq_true_2 by done. rewrite decide_True by done.
      unfold mret, scan_ret. cbn [fst snd]. by rewrite Hid.
    + rewrite (marker_step_stop_pending _ _ _ _ _ _ _ Hm Hs Hd).
      unfold marker_effect. rewrite Hm. cbn [fst snd].
      by rewrite decide_False by done.
  - unfold marker_step, marker_effect. rewrite Hm. cbn [fst snd].
    unfold mbind at 1. unfold scan_bind at 1.
    rewrite (guarded_del_branches _ _ _ _ Hd).
    by unfold mret, scan_ret.
  - unfold marker_step, marker_effect. rewrite Hm. cbn [fst snd].
    unfold mret, scan_ret. by rewrite Hid.
Qed.





Lemma marked_functional text m m' i :
  marked text m i → marked text m' i → m = m'.
Proof.
  intros (_ & l & Hl & Hm) (_ & l' & Hl' & Hm'). congruence.
Qed.
















(** ** The branch filters on the text of a line *)

(** C7 fails on the code when both filters hit the same line.  For a line
    [i] that has a branch entry: if neither filter hits, nothing changes; if
    exactly one hits, the entry is deleted; if both hit, the include filter
    deletes the entry and the [del] of the exclude filter, which is not
    guarded by a second membership test, raises [KeyError].  So with
    include prefixes "if", "while" and exclude prefix "assert", the line
    "  assert(x > 0);" ends the worker with [KeyError]. *)
Theorem prefix_filters_double_delete :
  (∀ source i line excl incl srcs0 f b l bs,
     let srcs := <[source := SourceData f (<[i := bs]> b) l]> srcs0 in
     let srcs' := <[source := SourceData f (delete i b) l]> srcs0 in
     let include_hit :=
       bool_decide (incl ≠ [])
       && forallb (λ e, negb (lstrip_startswith line e)) incl in
     let exclude_hit :=
       bool_decide (excl ≠ [])
       && existsb (λ e, lstrip_startswith line e) excl in
     branch_prefix_filters source excl incl i line srcs
     = if include_hit && exclude_hit then Raised KeyError srcs'
       else if include_hit || exclude_hit then Done () srcs'
       else Done () srcs)
  ∧ branch_prefix_filters "/src/a.c" ["assert"] ["if"; "while"] 1
      "  assert(x > 0);"
      {[ "/src/a.c" := SourceData ∅ {[ 1%Z := [3; 0]%Z ]} {[ 1%Z := 3%Z ]} ]}
    = Raised KeyError
        {[ "/src/a.c" := SourceData ∅ ∅ {[ 1%Z := 3%Z ]} ]}
  ∧ exclMarkerWorker
      (λ _, Some ["  assert(x > 0);"; "  y++; // LCOV_EXCL_LINE"])
      ["/src/a.c"] ["assert"] ["if"; "while"]
      {[ "/src/a.c" :=
           SourceData ∅ {[ 1%Z := [3; 0]%Z ]}
             {[ 1%Z := 3%Z; 2%Z := 3%Z ]} ]}
    = Raised KeyError
        {[ "/src/a.c" := SourceData ∅ ∅ {[ 1%Z := 3%Z; 2%Z := 3%Z ]} ]}.
Proof.
  split; [|split; by vm_compute].
  intros source i line excl incl srcs0 f b l bs srcs srcs' inc exc.
  assert (Hdel : del_branches source i srcs = Done () srcs').
  { unfold del_branches, srcs. rewrite lookup_insert_eq. cbn [branches].
    rewrite lookup_insert_eq. cbn [functions lines].
    by rewrite insert_insert_eq, delete_insert_eq. }
  assert (Hdel' : del_branches source i srcs' = Raised KeyError srcs').
  { unfold del_branches, srcs'. rewrite lookup_insert_eq. cbn [branches].
    by rewrite lookup_delete_eq. }
  unfold branch_prefix_filters, mbind, scan_bind, in_branches.
  unfold srcs at 1. rewrite lookup_insert_eq. cbn [branches].
  rewrite lookup_insert_eq.
  rewrite bool_decide_eq_true_2 by done. cbn [when].
  fold inc exc. fold srcs.
  destruct inc, exc; cbn [when andb orb]; unfold mret, scan_ret;
    by rewrite ?Hdel, ?Hdel'.
Qed.

(** ** Functions survive the scan *)

(** C10. The scanner writes to the ["lines"] and ["branches"] maps only:
    after a worker, whether it ended normally or by an exception, and after
    the whole scanning phase, every source has the ["functions"] map it had
    before, so the FN, FNDA, FNF and FNH lines of its LCOV block are the
    same.  A function that starts on line 12 of an excluded range 10 to 20
    is still there and still counted. *)
Theorem scanner_keeps_functions :
  (∀ fs chunk excl incl srcs path,
     functions <$> store_of (exclMarkerWorker fs chunk excl incl srcs) !! path
     = functions <$> srcs !! path)
  ∧ (∀ fs r keys jobs excl incl m,
       (1 ≤ jobs)%Z →
       ∃ r',
         scanExclusionMarkers fs r keys jobs excl incl m = Ok r'
         ∧ ∀ path,
             functions <$> sources r' !! path
             = functions <$> sources r !! path)
  ∧ (∀ fs r keys jobs excl incl m r' path,
       scanExclusionMarkers fs r keys jobs excl incl m = Ok r' →
       dump_functions <$> (functions <$> sources r' !! path)
       = dump_functions <$> (functions <$> sources r !! path))
  ∧ (functions <$>
       store_of (exclMarkerWorker excl_example_fs ["/src/a.c"] [] []
                   excl_example_before) !! "/src/a.c"
     = Some {[ "f" := Fdata 12 1 ]})
  ∧ (format_line <$>
       dump_functions
         (default ∅ (functions <$>
            store_of (exclMarkerWorker excl_example_fs ["/src/a.c"] [] []
                        excl_example_before) !! "/src/a.c"))
     = ["FN:12,f" +:+ nl; "FNDA:1,f" +:+ nl; "FNF:1" +:+ nl;
        "FNH:1" +:+ nl]).
Proof.
  assert (Hscan : ∀ fs r keys jobs excl incl m r' path,
    scanExclusionMarkers fs r keys jobs excl incl m = Ok r' →
    functions <$> sources r' !! path = functions <$> sources r !! path).
  { intros fs r keys jobs excl incl m r' path H.
    unfold scanExclusionMarkers in H.
    destruct (scanExclusionMarkers_threads r keys jobs m) as [cs|e]; [|done].
    cbn [result_bind] in H. injection H as <-. cbn [sources].
    apply threads_functions. }
  split; [|split; [|split]].
  - intros. apply keeps_functions_exclMarkerWorker.
  - intros fs r keys jobs excl incl m Hj.
    destruct (scanExclusionMarkers_threads_chunked r keys jobs m Hj)
      as (cs & Hcs & _).
    unfold scanExclusionMarkers. rewrite Hcs. cbn [result_bind].
    eexists. split; [done|]. intros path. cbn [sources].
    apply threads_functions.
  - intros fs r keys jobs excl incl m r' path H.
    by rewrite (Hscan _ _ _ _ _ _ _ _ path H).
  - split; by vm_compute.
Qed.

(** ** LCOV serialisation *)

Section lex_le.
Context {A B : Type} (RA : relation A) (RB : relation B).
Context `{!PartialOrder RA, !Total RA, !PartialOrder RB, !Total RB}.
Context `{EqDecision A}.

Global Instance lex_le_total : Total (lex_le RA RB).
Proof.
  intros [a1 b1] [a2 b2]. unfold lex_le. simpl.
  destruct (decide (a1 = a2)) as [->|Hne].
  - destruct (total RB b1 b2); auto.
  - destruct (total RA a1 a2); auto.
Qed.

Global Instance lex_le_trans : Transitive (lex_le RA RB).
Proof.
  intros [a1 b1] [a2 b2] [a3 b3]. unfold lex_le. simpl.
  intros [[H12 Hn12]|[-> H12]] [[H23 Hn23]|[-> H23]]; auto.
  - left. split; [by trans a2|]. intros ->.
    apply Hn12. by apply (anti_symm RA).
  - right. split; [done|]. by trans b2.
Qed.

Global Instance lex_le_anti_symm : AntiSymm (=) (lex_le RA RB).
Proof.
  intros [a1 b1] [a2 b2]. unfold lex_le. simpl.
  intros [[H12 Hn12]|[-> H12]] [[H21 Hn21]|[E H21]]; try done.
  - destruct Hn12. by apply (anti_symm RA).
  - f_equal. by apply (anti_symm RB).
Qed.

Global Instance lex_le_refl : Reflexive (lex_le RA RB).
Proof. intros [a b]. right. split; [done|]. simpl. reflexivity. Qed.

Global Instance lex_le_po : PartialOrder (lex_le RA RB).
Proof. repeat split; apply _. Qed.
End lex_le.

Global Instance le_fn_total : Total le_fn.
Proof. unfold le_fn. apply _. Qed.
Global Instance le_fn_trans : Transitive le_fn.
Proof. unfold le_fn. apply _. Qed.
Global Instance le_da_total : Total le_da.
Proof. unfold le_da. apply _. Qed.
Global Instance le_brda_total : Total le_brda.
Proof. unfold le_brda. apply _. Qed.

Lemma sorted_Sorted {A} (R : relation A) `{∀ x y, Decision (R x y)}
    `{!Total R} (l : list A) :
  Sorted R (sorted R l) ∧ sorted R l ≡ₚ l.
Proof.
  split; [apply Sorted_merge_sort, _|apply merge_sort_Permutation].
Qed.

Lemma zero_counts_app {A} (l1 l2 : list (A * Z)) :
  zero_counts (l1 ++ l2) = (zero_counts l1 + zero_counts l2)%Z.
Proof. unfold zero_counts. rewrite filter_app, length_app. lia. Qed.

Lemma zero_counts_cons {A} (t : A * Z) (l : list (A * Z)) :
  zero_counts (t :: l) = (is_zero t.2 + zero_counts l)%Z.
Proof.
  unfold zero_counts, is_zero. rewrite filter_cons.
  destruct (decide (t.2 = 0%Z)); cbn [length]; lia.
Qed.

Lemma zero_nonzero_counts {A} (l : list (A * Z)) :
  (Z.of_nat (length l) - zero_counts l)%Z = nonzero_counts l.
Proof.
  unfold zero_counts, nonzero_counts.
  induction l as [|[a c] l IH]; [done|].
  rewrite !filter_cons. cbn [snd].
  destruct (decide (c = 0%Z)); destruct (decide (c ≠ 0%Z)); try done;
    cbn [length]; lia.
Qed.

Lemma fn_loop items :
  ∀ fn fnda fn_miss,
    foldl fn_step (fn, fnda, fn_miss) items
    = (fn ++ ((λ item, (start_line item.2, item.1)) <$> items),
       fnda ++ ((λ item, (execution_count item.2, item.1)) <$> items),
       (fn_miss
        + Z.of_nat (length (filter (λ item, execution_count item.2 = 0%Z)
                              items)))%Z).
Proof.
  induction items as [|[name fd] items IH]; intros fn fnda miss.
  - simpl. by rewrite !app_nil_r, Z.add_0_r.
  - cbn [foldl fn_step]. rewrite IH. rewrite filter_cons. cbn [fst snd].
    rewrite <-!app_assoc. cbn [fmap list_fmap app fst snd].
    f_equal. unfold is_zero.
    destruct (decide (execution_count fd = 0%Z)); cbn [length]; lia.
Qed.

Lemma da_loop items :
  ∀ da line_miss,
    foldl da_step (da, line_miss) items
    = (da ++ items, (line_miss + zero_counts items)%Z).
Proof.
  induction items as [|[k c] items IH]; intros da miss.
  - simpl. unfold zero_counts. simpl. by rewrite app_nil_r, Z.add_0_r.
  - cbn [foldl da_step]. rewrite IH.
    rewrite <-app_assoc. cbn [app]. f_equal.
    rewrite zero_counts_cons. cbn [snd]. lia.
Qed.

Lemma brda_inner_loop line_num counts :
  ∀ j brda miss found,
    foldl (brda_step line_num) (brda, miss, found)
      (imap (λ i, pair (j + i)) counts)
    = (brda
       ++ imap (λ i count,
                  (line_num, (Z.of_nat (j + i) / 2)%Z, Z.of_nat (j + i),
                   count)) counts,
       (miss
        + zero_counts
            (imap (λ i count,
                     (line_num, (Z.of_nat (j + i) / 2)%Z, Z.of_nat (j + i),
                      count)) counts))%Z,
       (found + Z.of_nat (length counts))%Z).
Proof.
  induction counts as [|c counts IH]; intros j brda miss found.
  - simpl. unfold zero_counts. simpl. by rewrite app_nil_r, !Z.add_0_r.
  - rewrite !imap_cons. cbn [foldl brda_step].
    rewrite (imap_ext _ (λ i, pair (S j + i)) counts)
      by (intros; simpl; f_equal; lia).
    rewrite IH. rewrite Nat.add_0_r.
    rewrite (imap_ext
               ((λ i count, (line_num, (Z.of_nat (j + i) / 2)%Z,
                             Z.of_nat (j + i), count)) ∘ S)
               (λ i count, (line_num, (Z.of_nat (S j + i) / 2)%Z,
                            Z.of_nat (S j + i), count)) counts).
    2:{ intros i x _. simpl. repeat f_equal; lia. }
    rewrite <-app_assoc. cbn [app]. f_equal; [f_equal|].
    + rewrite zero_counts_cons. cbn [snd]. lia.
    + cbn [length]. lia.
Qed.

Lemma brda_outer_loop items :
  ∀ brda miss found,
    foldl (λ st item, foldl (brda_step item.1) st (imap pair item.2))
      (brda, miss, found) items
    = (brda
       ++ (items ≫= λ item,
             imap (λ i count,
                     (item.1, (Z.of_nat i / 2)%Z, Z.of_nat i, count))
               item.2),
       (miss
        + zero_counts
            (items ≫= λ item,
               imap (λ i count,
                       (item.1, (Z.of_nat i / 2)%Z, Z.of_nat i, count))
                 item.2))%Z,
       (found
        + Z.of_nat (length
            (items ≫= λ item,
               imap (λ i count,
                       (item.1, (Z.of_nat i / 2)%Z, Z.of_nat i, count))
                 item.2)))%Z).
Proof.
  induction items as [|[k counts] items IH]; intros brda miss found.
  - simpl. unfold zero_counts. simpl. by rewrite app_nil_r, !Z.add_0_r.
  - cbn [foldl fst snd].
    pose proof (brda_inner_loop k counts 0 brda miss found) as Hin.
    change (imap (λ i, pair (0 + i)) counts) with (@imap Z _ pair counts)
      in Hin.
    cbn [Nat.add] in Hin. rewrite Hin. rewrite IH.
    rewrite bind_cons. cbn [fst snd].
    rewrite zero_counts_app, length_app, length_imap.
    rewrite <-app_assoc. f_equal; [f_equal|]; lia.
Qed.

Lemma brda_loop_stored brs :
  brda_loop brs
  = (stored_branches brs, zero_counts (stored_branches brs),
     Z.of_nat (length (stored_branches brs))).
Proof. unfold brda_loop. by rewrite brda_outer_loop. Qed.

Lemma functions_hit_miss (fns : gmap string fdata) :
  (Z.of_nat (size fns)
   - Z.of_nat (length (filter (λ item, execution_count item.2 = 0%Z)
                         (map_to_list fns))))%Z
  = functions_hit fns.
Proof.
  unfold functions_hit. rewrite <-length_map_to_list.
  induction (map_to_list fns) as [|[name fd] l IH]; [done|].
  rewrite !filter_cons. cbn [snd].
  destruct (decide (execution_count fd = 0%Z));
    destruct (decide (execution_count fd ≠ 0%Z)); try done;
    cbn [length]; lia.
Qed.

Lemma dump_functions_sorted fns :
  ∃ fn fnda,
    dump_functions fns
    = (FN <$> fn) ++ (FNDA <$> fnda)
      ++ [FNF (Z.of_nat (size fns)); FNH (functions_hit fns)]
    ∧ Sorted le_fn fn
    ∧ fn ≡ₚ (λ item, (start_line item.2, item.1)) <$> map_to_list fns
    ∧ Sorted le_fn fnda
    ∧ fnda ≡ₚ (λ item, (execution_count item.2, item.1)) <$> map_to_list fns.
Proof.
  unfold dump_functions. rewrite fn_loop. cbn [app].
  rewrite Z.add_0_l, functions_hit_miss.
  eexists _, _. split; [done|].
  split; [apply sorted_Sorted, _|]. split; [apply sorted_Sorted, _|].
  split; apply sorted_Sorted, _.
Qed.

Lemma dump_branches_sorted brs :
  ∃ brda,
    dumpBranchCoverageToLcovInfo brs
    = (BRDA <$> brda)
      ++ [BRF (Z.of_nat (length (stored_branches brs)));
          BRH (nonzero_counts (stored_branches brs))]
    ∧ Sorted le_brda brda
    ∧ brda ≡ₚ stored_branches brs.
Proof.
  unfold dumpBranchCoverageToLcovInfo. rewrite brda_loop_stored.
  rewrite zero_nonzero_counts.
  eexists. split; [done|]. apply sorted_Sorted, _.
Qed.

Lemma elem_of_stored_branches brs line_num block branch count :
  (line_num, block, branch, count) ∈ stored_branches brs
  ↔ ∃ counts i,
      brs !! line_num = Some counts ∧ counts !! i = Some count
      ∧ branch = Z.of_nat i ∧ block = (Z.of_nat i / 2)%Z.
Proof.
  unfold stored_branches. rewrite list_elem_of_bind. split.
  - intros ([k counts] & Hin & Hk). cbn [fst snd] in Hin.
    apply elem_of_map_to_list in Hk.
    apply elem_of_lookup_imap in Hin as (i & c & Heq & Hc).
    injection Heq as -> -> -> ->. by exists counts, i.
  - intros (counts & i & Hk & Hc & -> & ->).
    exists (line_num, counts). split; [|by apply elem_of_map_to_list].
    cbn [fst snd]. apply elem_of_lookup_imap. by exists i, count.
Qed.

Lemma sorted_paths_blocks (srcs : gmap string source_data) :
  ∃ blocks : list (string * source_data),
    (sorted String.le (map_to_list srcs).*1 ≫= λ sf,
       match srcs !! sf with
       | Some data => dump_source sf data
       | None => []
       end)
    = blocks ≫= (λ b, dump_source b.1 b.2)
    ∧ blocks.*1 = sorted String.le (map_to_list srcs).*1
    ∧ ∀ sf data, (sf, data) ∈ blocks ↔ srcs !! sf = Some data.
Proof.
  assert (Hperm : sorted String.le (map_to_list srcs).*1
                  ≡ₚ (map_to_list srcs).*1)
    by apply merge_sort_Permutation.
  assert (Hall : ∀ sf, sf ∈ sorted String.le (map_to_list srcs).*1 →
                       is_Some (srcs !! sf)).
  { intros sf. rewrite Hperm, list_elem_of_fmap.
    intros ([sf' d] & -> & Hin). apply elem_of_map_to_list in Hin.
    by exists d. }
  assert (Hnd : NoDup (sorted String.le (map_to_list srcs).*1)).
  { rewrite Hperm. apply NoDup_fst_map_to_list. }
  assert (Hin : ∀ sf, is_Some (srcs !! sf) →
                      sf ∈ sorted String.le (map_to_list srcs).*1).
  { intros sf [d Hd]. rewrite Hperm, list_elem_of_fmap.
    exists (sf, d). split; [done|]. by apply elem_of_map_to_list. }
  revert Hall Hin Hnd.
  generalize (sorted String.le (map_to_list srcs).*1) as ks.
  intros ks Hall Hin Hnd.
  exists (omap (λ sf, (λ d, (sf, d)) <$> srcs !! sf) ks).
  split; [|split].
  - clear Hin Hnd. induction ks as [|k ks IH]; [done|].
    rewrite bind_cons. cbn [omap list_omap].
    destruct (Hall k ltac:(set_solver)) as [d Hd]. rewrite Hd.
    cbn [fmap option_fmap option_map]. rewrite bind_cons. cbn [fst snd].
    f_equal. apply IH. intros. apply Hall. set_solver.
  - clear Hin Hnd. induction ks as [|k ks IH]; [done|].
    cbn [omap list_omap].
    destruct (Hall k ltac:(set_solver)) as [d Hd]. rewrite Hd.
    cbn [fmap option_fmap option_map list_fmap fst]. f_equal.
    apply IH. intros. apply Hall. set_solver.
  - intros sf data. rewrite list_elem_of_omap. split.
    + intros (sf' & _ & Hsf).
      destruct (srcs !! sf') as [d|] eqn:E; [|done].
      by injection Hsf as -> ->.
    + intros Hd. exists sf. split; [apply Hin; by eexists|].
      by rewrite Hd.
Qed.

Lemma dumpToLcovInfo_blocks r :
  ∃ blocks : list (string * source_data),
    dumpToLcovInfo r = blocks ≫= (λ b, dump_source b.1 b.2)
    ∧ Sorted String.le blocks.*1
    ∧ NoDup blocks.*1
    ∧ ∀ sf data, (sf, data) ∈ blocks ↔ sources r !! sf = Some data.
Proof.
  destruct (sorted_paths_blocks (sources r)) as (blocks & Hd & Hk & Hin).
  exists blocks. split; [exact Hd|]. rewrite Hk.
  split; [apply Sorted_merge_sort, _|]. split; [|done].
  unfold sorted. rewrite merge_sort_Permutation.
  apply NoDup_fst_map_to_list.
Qed.

Lemma dumpToLcovInfo_block r sf data :
  sources r !! sf = Some data →
  ∃ before after,
    dumpToLcovInfo r = before ++ dump_source sf data ++ after.
Proof.
  intros Hd.
  destruct (dumpToLcovInfo_blocks r) as (blocks & Hb & _ & _ & Hin).
  rewrite Hb. pose proof (proj2 (Hin sf data) Hd) as Hm.
  apply list_elem_of_split in Hm as (b1 & b2 & Hs). rewrite Hs.
  exists (b1 ≫= (λ b, dump_source b.1 b.2)),
    (b2 ≫= (λ b, dump_source b.1 b.2)).
  by rewrite bind_app, bind_cons.
Qed.

(** C8. The LCOV file of every report is the sequence of the blocks of
    its sources, one block per source in ascending order of the path, so the
    block of every source of the report is in the file.  In the block of
    every source: the FN lines are the (start_line, name) pairs of its
    functions in ascending order of that pair; the FNDA lines are the
    (execution_count, name) pairs in ascending order of that other pair;
    when the source has branch entries, the BRDA lines are one tuple (line,
    block, index, count) per stored branch, with block = floor(index / 2),
    in ascending order of the whole tuple, followed by BRF with the number
    of stored branches and BRH with the number of those whose count is not
    zero. *)
Theorem lcov_sort_orders :
  (∀ r, ∃ blocks : list (string * source_data),
     dumpToLcovInfo r = blocks ≫= (λ b, dump_source b.1 b.2)
     ∧ Sorted String.le blocks.*1
     ∧ NoDup blocks.*1
     ∧ ∀ sf data, (sf, data) ∈ blocks ↔ sources r !! sf = Some data)
  ∧ (∀ r sf data,
       sources r !! sf = Some data →
       ∃ before after,
         dumpToLcovInfo r = before ++ dump_source sf data ++ after)
  ∧ (∀ sf data,
     dump_source sf data
     = [TN; SF sf] ++ dump_functions (functions data)
       ++ (if decide (branches data ≠ ∅)
           then dumpBranchCoverageToLcovInfo (branches data) else [])
       ++ dump_lines (lines data) ++ [EndOfRecord])
  ∧ (∀ fns, ∃ fn fnda,
       dump_functions fns
       = (FN <$> fn) ++ (FNDA <$> fnda)
         ++ [FNF (Z.of_nat (size fns)); FNH (functions_hit fns)]
       ∧ Sorted le_fn fn
       ∧ fn ≡ₚ (λ item, (start_line item.2, item.1)) <$> map_to_list fns
       ∧ Sorted le_fn fnda
       ∧ fnda
         ≡ₚ (λ item, (execution_count item.2, item.1)) <$> map_to_list fns)
  ∧ (∀ brs, ∃ brda,
       dumpBranchCoverageToLcovInfo brs
       = (BRDA <$> brda)
         ++ [BRF (Z.of_nat (length (stored_branches brs)));
             BRH (nonzero_counts (stored_branches brs))]
       ∧ Sorted le_brda brda
       ∧ brda ≡ₚ stored_branches brs)
  ∧ (∀ brs line_num block branch count,
       (line_num, block, branch, count) ∈ stored_branches brs
       ↔ ∃ counts i,
           brs !! line_num = Some counts ∧ counts !! i = Some count
           ∧ branch = Z.of_nat i ∧ block = (Z.of_nat i / 2)%Z)
  ∧ (∀ a s b t,
       le_fn (a, s) (b, t) ↔ (a < b)%Z ∨ (a = b ∧ String.le s t))
  ∧ (∀ l1 b1 i1 c1 l2 b2 i2 c2,
       le_brda (l1, b1, i1, c1) (l2, b2, i2, c2)
       ↔ (l1 < l2)%Z
         ∨ (l1 = l2
            ∧ ((b1 < b2)%Z
               ∨ (b1 = b2
                  ∧ ((i1 < i2)%Z ∨ (i1 = i2 ∧ (c1 ≤ c2)%Z))))))
  ∧ format_line <$>
      dumpToLcovInfo
        (Report
           {[ "/a.c" :=
                SourceData
                  {[ "f" := Fdata 4 0; "g" := Fdata 2 7; "a" := Fdata 4 7 ]}
                  {[ 3%Z := [1; 0; 5]%Z; 1%Z := [0; 0]%Z ]}
                  {[ 3%Z := 2%Z; 1%Z := 0%Z ]} ]})
    = [ "TN:" +:+ nl; "SF:/a.c" +:+ nl;
        "FN:2,g" +:+ nl; "FN:4,a" +:+ nl; "FN:4,f" +:+ nl;
        "FNDA:0,f" +:+ nl; "FNDA:7,a" +:+ nl; "FNDA:7,g" +:+ nl;
        "FNF:3" +:+ nl; "FNH:2" +:+ nl;
        "BRDA:1,0,0,0" +:+ nl; "BRDA:1,0,1,0" +:+ nl;
        "BRDA:3,0,0,1" +:+ nl; "BRDA:3,0,1,0" +:+ nl;
        "BRDA:3,1,2,5" +:+ nl;
        "BRF:5" +:+ nl; "BRH:2" +:+ nl;
        "DA:1,0" +:+ nl; "DA:3,2" +:+ nl; "LF:2" +:+ nl; "LH:1" +:+ nl;
        "end_of_record" +:+ nl ]
  ∧ format_line <$>
      dumpToLcovInfo
        (Report
           {[ "/b.c" :=
                SourceData {[ "h" := Fdata 9 1; "e" := Fdata 9 0 ]}
                  {[ 9%Z := [0; 4]%Z ]} {[ 9%Z := 4%Z ]};
              "/a.c" := SourceData {[ "f" := Fdata 4 0 ]} ∅ ∅ ]})
    = [ "TN:" +:+ nl; "SF:/a.c" +:+ nl;
        "FN:4,f" +:+ nl; "FNDA:0,f" +:+ nl;
        "FNF:1" +:+ nl; "FNH:0" +:+ nl;
        "LF:0" +:+ nl; "LH:0" +:+ nl;
        "end_of_record" +:+ nl;
        "TN:" +:+ nl; "SF:/b.c" +:+ nl;
        "FN:9,e" +:+ nl; "FN:9,h" +:+ nl;
        "FNDA:0,e" +:+ nl; "FNDA:1,h" +:+ nl;
        "FNF:2" +:+ nl; "FNH:1" +:+ nl;
        "BRDA:9,0,0,0" +:+ nl; "BRDA:9,0,1,4" +:+ nl;
        "BRF:2" +:+ nl; "BRH:1" +:+ nl;
        "DA:9,4" +:+ nl; "LF:1" +:+ nl; "LH:1" +:+ nl;
        "end_of_record" +:+ nl ].
Proof.
  split; [apply dumpToLcovInfo_blocks|].
  split; [apply dumpToLcovInfo_block|].
  split; [done|].
  split; [apply dump_functions_sorted|].
  split; [apply dump_branches_sorted|].
  split; [apply elem_of_stored_branches|].
  split; [|split; [|split; by vm_compute]].
  - intros a s b t. unfold le_fn, lex_le. cbn [fst snd]. split.
    + intros [[H Hne]|[-> H]]; [left; lia|by right].
    + intros [H|[-> H]]; [left; split; lia|by right].
  - intros. unfold le_brda, lex_le. cbn [fst snd]. split.
    + intros [[[[[[H Hn]|[-> H]] Hn2]|[[= -> ->] H]] Hn3]|[[= -> -> ->] H]].
      * left. lia.
      * right. split; [done|]. left.
        assert (b1 ≠ b2) by congruence. lia.
      * right. split; [done|]. right. split; [done|]. left.
        assert (i1 ≠ i2) by congruence. lia.
      * right. split; [done|]. right. split; [done|]. by right.
    + intros [H|[-> [H|[-> [H|[-> H]]]]]].
      * left. split; [|intros [=]; lia]. left. split; [|intros [=]; lia].
        left. lia.
      * left. split; [|intros [=]; lia]. left. split; [|intros [=]; lia].
        right. split; [done|lia].
      * left. split; [|intros [=]; lia]. right. split; [done|lia].
      * by right.
Qed.

Lemma lcov_sort_orders_witness :
  sources
    (Report
       {[ "/b.c" :=
            SourceData {[ "h" := Fdata 9 1; "e" := Fdata 9 0 ]}
              {[ 9%Z := [0; 4]%Z ]} {[ 9%Z := 4%Z ]};
          "/a.c" := SourceData {[ "f" := Fdata 4 0 ]} ∅ ∅ ]})
    !! "/b.c"
  = Some (SourceData {[ "h" := Fdata 9 1; "e" := Fdata 9 0 ]}
            {[ 9%Z := [0; 4]%Z ]} {[ 9%Z := 4%Z ]})
  ∧ ∃ before after,
      dumpToLcovInfo
        (Report
           {[ "/b.c" :=
                SourceData {[ "h" := Fdata 9 1; "e" := Fdata 9 0 ]}
                  {[ 9%Z := [0; 4]%Z ]} {[ 9%Z := 4%Z ]};
              "/a.c" := SourceData {[ "f" := Fdata 4 0 ]} ∅ ∅ ]})
      = before
        ++ dump_source "/b.c"
             (SourceData {[ "h" := Fdata 9 1; "e" := Fdata 9 0 ]}
                {[ 9%Z := [0; 4]%Z ]} {[ 9%Z := 4%Z ]})
        ++ after.
Proof.
  assert (H : sources
    (Report
       {[ "/b.c" :=
            SourceData {[ "h" := Fdata 9 1; "e" := Fdata 9 0 ]}
              {[ 9%Z := [0; 4]%Z ]} {[ 9%Z := 4%Z ]};
          "/a.c" := SourceData {[ "f" := Fdata 4 0 ]} ∅ ∅ ]})
    !! "/b.c"
  = Some (SourceData {[ "h" := Fdata 9 1; "e" := Fdata 9 0 ]}
            {[ 9%Z := [0; 4]%Z ]} {[ 9%Z := 4%Z ]}))
    by reflexivity.
  split; [exact H|].
  exact (proj1 (proj2 lcov_sort_orders) _ _ _ H).
Defined.

(** ** JSON round trip *)

Global Instance KStr_inj : Inj (=) (=) KStr.
Proof. by intros s1 s2 [=]. Qed.

Global Instance KInt_inj : Inj (=) (=) KInt.
Proof. by intros z1 z2 [=]. Qed.

Lemma dict_set_fresh d k v :
  k ∉ d.*1 → dict_set d k v = d ++ [(k, v)].
Proof.
  induction d as [|[k' v'] d IH]; intros Hk; [done|].
  cbn [dict_set]. rewrite fmap_cons in Hk. cbn [fst] in Hk.
  rewrite decide_False by set_solver.
  rewrite IH by set_solver. done.
Qed.

Lemma json_load_members members :
  ∀ d0,
    NoDup (d0.*1 ++ (KStr <$> members.*1)) →
    foldl (λ d m, dict_set d (KStr m.1) (json_load m.2)) d0 members
    = d0 ++ ((λ m, (KStr m.1, json_load m.2)) <$> members).
Proof.
  induction members as [|[name j] members IH]; intros d0 Hnd.
  - simpl. by rewrite app_nil_r.
  - cbn [foldl fst snd].
    rewrite !fmap_cons in Hnd. cbn [fst] in Hnd.
    rewrite dict_set_fresh.
    2:{ apply NoDup_app in Hnd as (_ & Hd & _).
        intros Hin. apply (Hd _ Hin). set_solver. }
    rewrite IH.
    + rewrite <-app_assoc. done.
    + rewrite fmap_app, <-app_assoc. done.
Qed.

Lemma roundtrip_dict items :
  NoDup (key_text <$> items.*1) →
  json_load (json_dump (PDict items))
  = PDict ((λ kv, (KStr (key_text kv.1), json_load (json_dump kv.2)))
             <$> items).
Proof.
  intros Hnd. cbn [json_dump json_load]. f_equal.
  rewrite json_load_members.
  - cbn [app]. rewrite <-list_fmap_compose. done.
  - cbn [fmap list_fmap app].
    rewrite <-!list_fmap_compose.
    apply (NoDup_fmap_2 KStr) in Hnd.
    by rewrite <-!list_fmap_compose in Hnd.
Qed.

Lemma roundtrip_counts (l : list Z) :
  json_load (json_dump (PList (PInt <$> l))) = PList (PInt <$> l).
Proof.
  cbn [json_dump json_load]. f_equal.
  rewrite <-!list_fmap_compose. by apply list_fmap_ext.
Qed.

Lemma roundtrip_fdata fd :
  json_load (json_dump (fdata_to_py fd)) = fdata_to_py fd.
Proof.
  unfold fdata_to_py.
  by rewrite roundtrip_dict by (apply (bool_decide_unpack _); by vm_compute).
Qed.

Lemma roundtrip_map `{Countable K} {V} (m : gmap K V)
    (key : K → pykey) (val val' : V → pyval) :
  Inj (=) (=) (λ k, key_text (key k)) →
  (∀ v, json_load (json_dump (val v)) = val' v) →
  json_load
    (json_dump (PDict ((λ kv, (key kv.1, val kv.2)) <$> map_to_list m)))
  = PDict ((λ kv, (KStr (key_text (key kv.1)), val' kv.2))
             <$> map_to_list m).
Proof.
  intros Hinj Hval. rewrite roundtrip_dict.
  - f_equal. rewrite <-list_fmap_compose. apply list_fmap_ext.
    intros i [k v] _. cbn. by rewrite Hval.
  - rewrite <-!list_fmap_compose.
    rewrite (list_fmap_ext _ ((λ k, key_text (key k)) ∘ fst) (map_to_list m))
      by (by intros i [k v] _).
    rewrite list_fmap_compose. apply (NoDup_fmap_2 _).
    apply NoDup_fst_map_to_list.
Qed.

Lemma roundtrip_source d :
  json_load (json_dump (source_to_py KInt d)) = source_to_py text_key d.
Proof.
  unfold source_to_py.
  rewrite roundtrip_dict by (apply (bool_decide_unpack _); by vm_compute).
  cbn [fmap list_fmap fst snd key_text].
  rewrite (roundtrip_map (functions d) KStr fdata_to_py fdata_to_py);
    [|by intros ?? ?|apply roundtrip_fdata].
  rewrite (roundtrip_map (branches d) KInt (λ l, PList (PInt <$> l))
             (λ l, PList (PInt <$> l)));
    [|intros ?? ?; by apply (inj pretty)|apply roundtrip_counts].
  rewrite (roundtrip_map (lines d) KInt PInt PInt);
    [|intros ?? ?; by apply (inj pretty)|done].
  done.
Qed.

Lemma roundtrip_report r :
  json_load (json_dump (report_to_py KInt r)) = report_to_py text_key r.
Proof.
  unfold report_to_py.
  rewrite roundtrip_dict by (apply (bool_decide_unpack _); by vm_compute).
  cbn [fmap list_fmap fst snd key_text].
  rewrite (roundtrip_map (sources r) KStr (source_to_py KInt)
             (source_to_py text_key));
    [|by intros ?? ?|apply roundtrip_source].
  done.
Qed.

(** C9, as the code has it.  Writing the canonical report with [json.dump]
    and reading the document back gives the report with the same values
    under the same source paths, field names and function names, and with
    every line number key of ["lines"] and ["branches"] turned into its
    decimal text; distinct line numbers give distinct keys, so no entry is
    lost.  A report without line and branch entries comes back identical. *)
Theorem json_round_trip_text_keys :
  (∀ r, json_load (dumpToJson r) = report_to_py text_key r)
  ∧ (∀ report_raw incl,
       json_load (dumpToJson (distillReport report_raw incl))
       = report_to_py text_key (distillReport report_raw incl))
  ∧ (∀ k1 k2 : Z, text_key k1 = text_key k2 ↔ k1 = k2)
  ∧ (∀ k1 k2 : Z, text_key k1 ≠ KInt k2)
  ∧ py_eq
      (json_load
         (dumpToJson
            (distillReport
               [SourceRaw "/src/a.c" [FunctionRaw "main" 3 1] []] false)))
      (report_to_py KInt
         (distillReport
            [SourceRaw "/src/a.c" [FunctionRaw "main" 3 1] []] false))
    = true.
Proof.
  split; [apply roundtrip_report|].
  split; [intros; apply roundtrip_report|].
  split; [|split; [done|by vm_compute]].
  intros k1 k2. unfold text_key. split; [|by intros ->].
  intros [=]. by apply (inj pretty).
Qed.

(** C9 as stated fails: a report with one line entry for line 7 does not
    come back structurally identical, since its key 7 comes back as the
    text "7". *)
Lemma json_round_trip_not_identical :
  ¬ (∀ report_raw incl,
       py_eq
         (json_load (dumpToJson (distillReport report_raw incl)))
         (report_to_py KInt (distillReport report_raw incl))
       = true).
Proof.
  intros H.
  specialize (H [SourceRaw "/src/a.c" [FunctionRaw "main" 3 1]
                   [LineRaw 7 1 []]] false).
  vm_compute in H. discriminate H.
Qed.

Lemma scanner_keeps_functions_witness :
  (1 ≤ 1)%Z
  ∧ scanExclusionMarkers excl_example_fs (Report excl_example_before)
      ["/src/a.c"] 1
      [] [] 5
    = Ok (Report excl_example_after)
  ∧ (∃ r',
       scanExclusionMarkers excl_example_fs (Report excl_example_before)
      ["/src/a.c"] 1
         [] [] 5 = Ok r'
       ∧ ∀ path,
           functions <$> sources r' !! path
           = functions <$> sources (Report excl_example_before) !! path)
  ∧ dump_functions <$>
      (functions <$> sources (Report excl_example_after) !! "/src/a.c")
    = dump_functions <$>
        (functions <$> sources (Report excl_example_before) !! "/src/a.c").
Proof.
  assert (H1 : (1 ≤ 1)%Z) by lia.
  assert (H2 : scanExclusionMarkers excl_example_fs
                 (Report excl_example_before) ["/src/a.c"] 1 [] [] 5
               = Ok (Report excl_example_after)) by (by vm_compute).
  split; [exact H1|]. split; [exact H2|]. split.
  - exact (proj1 (proj2 scanner_keeps_functions) excl_example_fs
             (Report excl_example_before) ["/src/a.c"] 1%Z [] [] 5%Z H1).
  - exact (proj1 (proj2 (proj2 scanner_keeps_functions)) excl_example_fs
             (Report excl_example_before) ["/src/a.c"] 1%Z [] [] 5%Z
             (Report excl_example_after) "/src/a.c" H2).
Defined.

(** * Further properties of the code *)

(** ** Filtering of coverage files *)





(** ** The filter policy of [processGcov] *)

Lemma include_loop (g : source_raw) path (files : list source_raw) include :
  for_loop (λ fs ex,
              if contains ex path then Break (fs ++ [g]) else Next fs)
    files include
  = inl (B := list source_raw)
      (if existsb (λ ex, contains ex path) include then files ++ [g]
       else files).
Proof.
  induction include as [|ex include IH]; [done|].
  cbn [for_loop existsb]. by destruct (contains ex path).
Qed.

Lemma exclude_loop path (files : list source_raw) exclude :
  for_loop (λ (_ : ()) ex,
              if contains ex path then Return files else Next ())
    () exclude
  = if existsb (λ ex, contains ex path) exclude then inr files else inl ().
Proof.
  induction exclude as [|ex exclude IH]; [done|].
  cbn [for_loop existsb]. by destruct (contains ex path).
Qed.

Lemma processGcov_keeps abspath_join cwd gcov files opts :
  processGcov abspath_join cwd gcov files opts
  = files
    ++ (if keeps opts (abspath_join cwd (gf_file gcov))
        then [with_file_abs abspath_join cwd gcov] else []).
Proof.
  unfold processGcov, keeps, with_file_abs. cbn [file_abs].
  destruct (decide (fo_sources opts ≠ ∅)).
  - case_decide; [by rewrite bool_decide_eq_true_2
                 |by rewrite bool_decide_eq_false_2, app_nil_r].
  - destruct (decide (fo_include opts ≠ [])).
    + rewrite include_loop.
      destruct (existsb _ (fo_include opts)); by rewrite ?app_nil_r.
    + rewrite exclude_loop.
      destruct (existsb _ (fo_exclude opts)); by rewrite ?app_nil_r.
Qed.

Lemma processGcovs_from abspath_join cwd gcov_files opts :
  ∀ files,
    foldl (λ files gcov, processGcov abspath_join cwd gcov files opts)
      files gcov_files
    = files
      ++ List.filter (λ g, keeps opts (file_abs g))
           (with_file_abs abspath_join cwd <$> gcov_files).
Proof.
  induction gcov_files as [|g gs IH]; intros files.
  - simpl. by rewrite app_nil_r.
  - cbn [foldl]. rewrite IH, processGcov_keeps. rewrite <-app_assoc.
    f_equal. cbn [fmap list_fmap List.filter with_file_abs file_abs].
    by destruct (keeps opts _).
Qed.

Lemma processGcovs_filter abspath_join cwd gcov_files opts :
  processGcovs abspath_join cwd gcov_files opts
  = List.filter (λ g, keeps opts (file_abs g))
      (with_file_abs abspath_join cwd <$> gcov_files).
Proof. unfold processGcovs. by rewrite processGcovs_from. Qed.

(** X2. [processGcovs] keeps, in their order, the records whose absolute
    path passes the filter policy, each with its ["file_abs"] set.  The
    policy is: with explicit sources, membership in that set and nothing
    else; otherwise, with include strings, containing one of them, whatever
    the exclude strings are; otherwise, containing no exclude string. *)
Theorem processGcovs_policy :
  (∀ abspath_join cwd gcov_files opts,
     processGcovs abspath_join cwd gcov_files opts
     = List.filter (λ g, keeps opts (file_abs g))
         (with_file_abs abspath_join cwd <$> gcov_files))
  ∧ (∀ p S include exclude path,
       keeps (FilterOptions ({[p]} ∪ S) include exclude) path
       = bool_decide (path ∈ ({[p]} ∪ S : gset string)))
  ∧ (∀ i include exclude path,
       keeps (FilterOptions ∅ (i :: include) exclude) path
       = existsb (λ ex, contains ex path) (i :: include))
  ∧ (∀ exclude path,
       keeps (FilterOptions ∅ [] exclude) path
       = negb (existsb (λ ex, contains ex path) exclude))
  ∧ (∀ path, keeps (FilterOptions ∅ [] []) path = true).
Proof.
  split; [apply processGcovs_filter|].
  split; [|split; [|split]]; intros; unfold keeps;
    cbn [fo_sources fo_include fo_exclude].
  - rewrite decide_True; [done|]. set_solver.
  - rewrite decide_False by (by intros []).
    by rewrite decide_True.
  - rewrite decide_False by (by intros []).
    by rewrite decide_False by (by intros []).
  - rewrite decide_False by (by intros []).
    by rewrite decide_False by (by intros []).
Qed.

(** ** The counters of the gcov workers *)


Lemma sum_Z_singleton x : sum_Z [x] = x.
Proof. unfold sum_Z. simpl. lia. Qed.




















(** ** Chunks and the number of workers *)

Lemma chunked_full {A} (l : list A) (n : nat) cs k c :
  0 < n → chunked l n cs → cs !! k = Some c → S k < length cs →
  length c = n.
Proof.
  intros Hn (_ & Hlen & Hk) Hc Hlt.
  destruct (Hk k c Hc) as (_ & Hl & _). rewrite Hl.
  rewrite Hlen in Hlt.
  pose proof (below_ceil_lt (length l) n (S k) Hn Hlt). lia.
Qed.

Lemma chunked_bounds {A} (l : list A) (n : nat) cs :
  chunked l n cs → Forall (λ c, 0 < length c ≤ n) cs.
Proof.
  intros (_ & _ & Hk). apply Forall_lookup. intros k c Hc.
  destruct (Hk k c Hc) as (_ & Hl & Hpos). lia.
Qed.

Lemma chunked_nil_iff {A} (l : list A) (n : nat) cs :
  0 < n → chunked l n cs → (cs = [] ↔ l = []).
Proof.
  intros Hn (Hc & Hlen & _). split.
  - intros ->. by rewrite <-Hc.
  - intros ->. simpl in Hlen.
    rewrite Nat.div_small in Hlen by lia. by destruct cs.
Qed.

(** X4. [chunks(l, n)] for a positive [n] cuts [l] into consecutive pieces
    that concatenate back to [l]: each holds between 1 and [n] elements and
    all but the last hold exactly [n]; an empty list gives no chunk.  For
    [n = 0] the [range] raises [ValueError], and for a negative [n] there is
    no chunk at all, whatever [l] is. *)
Theorem chunks_spec :
  (∀ (l : list string) (p : positive),
     ∃ cs,
       chunks l (Z.pos p) = Ok cs
       ∧ concat cs = l
       ∧ Forall (λ c, 0 < length c ≤ Pos.to_nat p) cs
       ∧ (∀ k c, cs !! k = Some c → S k < length cs →
                 length c = Pos.to_nat p)
       ∧ (cs = [] ↔ l = []))
  ∧ (∀ l : list string, chunks l 0 = Raise ValueError)
  ∧ (∀ (l : list string) (p : positive), chunks l (Z.neg p) = Ok []).
Proof.
  split; [|split; by intros].
  intros l p.
  destruct (chunks_chunked l (Z.pos p) ltac:(lia)) as (cs & Hcs & Hch).
  rewrite Z2Nat.inj_pos in Hch.
  exists cs. split; [done|]. split; [apply Hch|].
  split; [by apply chunked_bounds with l|].
  split; [|apply chunked_nil_iff with (Pos.to_nat p); [lia|done]].
  intros k c Hc Hlt. apply (chunked_full l (Pos.to_nat p) cs k c); [lia|done..].
Qed.

Lemma chunks_spec_witness :
  ∃ cs,
    chunks ["a"; "b"; "c"; "d"; "e"] 2 = Ok cs
    ∧ cs !! 0 = Some ["a"; "b"]
    ∧ S 0 < length cs
    ∧ length ["a"; "b"] = Pos.to_nat 2.
Proof.
  destruct (proj1 chunks_spec ["a"; "b"; "c"; "d"; "e"] 2%positive)
    as (cs & Hcs & Hcat & Hb & Hfull & Hnil).
  exists cs. split; [exact Hcs|].
  assert (Heq : cs = [["a"; "b"]; ["c"; "d"]; ["e"]]).
  { vm_compute in Hcs. by injection Hcs. }
  assert (H0 : cs !! 0 = Some ["a"; "b"]) by (by rewrite Heq).
  assert (H1 : S 0 < length cs) by (rewrite Heq; simpl; lia).
  split; [exact H0|]. split; [exact H1|].
  exact (Hfull 0 ["a"; "b"] H0 H1).
Defined.

Lemma ceil_le_jobs (n : nat) (jobs m : Z) :
  (1 ≤ jobs)%Z →
  let sz := Z.to_nat (Z.max m (Z.of_nat n / jobs + 1)) in
  (Z.of_nat ((n + sz - 1) / sz) ≤ jobs)%Z.
Proof.
  intros Hj sz.
  pose proof (Z.div_mod (Z.of_nat n) jobs ltac:(lia)) as Hd.
  pose proof (Z.mod_pos_bound (Z.of_nat n) jobs ltac:(lia)) as Hm.
  pose proof (Z.div_pos (Z.of_nat n) jobs ltac:(lia) ltac:(lia)) as Hq.
  assert (Hsz : (Z.of_nat n / jobs + 1 ≤ Z.of_nat sz)%Z) by lia.
  assert (Hlt : (n + sz - 1) / sz < S (Z.to_nat jobs)).
  { apply Nat.Div0.div_lt_upper_bound.
    assert (Z.of_nat n < Z.of_nat sz * jobs)%Z by nia.
    assert (Z.of_nat (n + sz - 1) < Z.of_nat (sz * S (Z.to_nat jobs)))%Z;
      [|lia].
    rewrite Nat2Z.inj_mul, Nat2Z.inj_succ, Z2Nat.id by lia. lia. }
  lia.
Qed.

(** X5. With at least one job, each fan-out phase starts at most [jobs]
    workers, none of them on an empty chunk, and none at all exactly when
    there is nothing to process; the chunks of the workers concatenate to
    the input, which for the scanning phase is the list of the paths of the
    report in the order of the dict, whatever that order is.  With
    [jobs = 0] both phases raise [ZeroDivisionError] before any worker is
    started. *)
Theorem workers_at_most_jobs :
  (∀ (coverage_files : list string) (jobs m : Z),
     (1 ≤ jobs)%Z →
     ∃ cs,
       processGcdas_threads jobs coverage_files m = Ok cs
       ∧ (Z.of_nat (length cs) ≤ jobs)%Z
       ∧ concat cs = coverage_files
       ∧ Forall (λ c, c ≠ []) cs
       ∧ (cs = [] ↔ coverage_files = []))
  ∧ (∀ (fastcov_json : report) (keys : list string) (jobs m : Z),
       (1 ≤ jobs)%Z →
       keys_of fastcov_json keys →
       ∃ cs,
         scanExclusionMarkers_threads fastcov_json keys jobs m = Ok cs
         ∧ (Z.of_nat (length cs) ≤ jobs)%Z
         ∧ concat cs = keys
         ∧ concat cs ≡ₚ elements (dom (sources fastcov_json))
         ∧ Forall (λ c, c ≠ []) cs
         ∧ (cs = [] ↔ sources fastcov_json = ∅))
  ∧ (∀ coverage_files m,
       processGcdas_threads 0 coverage_files m = Raise ZeroDivisionError)
  ∧ (∀ fs fastcov_json keys excl incl m,
       scanExclusionMarkers fs fastcov_json keys 0 excl incl m
       = Raise ZeroDivisionError).
Proof.
  assert (Hne : ∀ (l : list string) n cs,
            chunked l n cs → Forall (λ c, c ≠ []) cs).
  { intros l n cs H. eapply Forall_impl; [by apply chunked_bounds with l|].
    intros c [Hc _] ->. simpl in Hc. lia. }
  assert (Hpos : ∀ (n : nat) jobs m, (1 ≤ jobs)%Z →
            0 < Z.to_nat (Z.max m (Z.of_nat n / jobs + 1))).
  { intros n jobs m Hj.
    pose proof (Z.div_pos (Z.of_nat n) jobs ltac:(lia) ltac:(lia)). lia. }
  split; [|split; [|split; by intros]].
  - intros files jobs m Hj.
    destruct (processGcdas_threads_chunked files jobs m Hj)
      as (cs & Hcs & Hch).
    exists cs. split; [done|]. split.
    { destruct Hch as (_ & -> & _). by apply ceil_le_jobs. }
    split; [apply Hch|]. split; [by eapply Hne|].
    eapply chunked_nil_iff; [|done]. by apply Hpos.
  - intros r keys jobs m Hj Hkeys.
    destruct (scanExclusionMarkers_threads_chunked r keys jobs m Hj)
      as (cs & Hcs & Hch).
    exists cs. split; [done|]. split.
    { destruct Hch as (_ & -> & _).
      rewrite <-(keys_of_length r keys Hkeys). by apply ceil_le_jobs. }
    split; [apply Hch|].
    split.
    { destruct Hch as (-> & _). rewrite Hkeys.
      symmetry. apply NoDup_Permutation.
      - apply NoDup_elements.
      - apply NoDup_fst_map_to_list.
      - intros k. rewrite elem_of_elements, elem_of_dom.
        rewrite list_elem_of_fmap. split.
        + intros [d Hd]. exists (k, d). split; [done|].
          by apply elem_of_map_to_list.
        + intros ([k' d] & -> & Hd). apply elem_of_map_to_list in Hd.
          by exists d. }
    split; [by eapply Hne|].
    etrans; [eapply chunked_nil_iff; [|done]; by apply Hpos|].
    split.
    + intros ->. apply Permutation_nil_l in Hkeys. symmetry in Hkeys.
      apply map_to_list_empty_iff. by apply fmap_nil_inv in Hkeys.
    + intros Hr. unfold keys_of in Hkeys.
      rewrite Hr, map_to_list_empty in Hkeys.
      by apply Permutation_nil_r in Hkeys.
Qed.

Lemma workers_at_most_jobs_witness :
  (1 ≤ 4)%Z
  ∧ (∃ cs,
       processGcdas_threads 4 ["a"; "b"; "c"; "d"; "e"; "f"; "g"; "h"] 1
       = Ok cs
       ∧ (Z.of_nat (length cs) ≤ 4)%Z
       ∧ concat cs = ["a"; "b"; "c"; "d"; "e"; "f"; "g"; "h"]
       ∧ Forall (λ c, c ≠ []) cs
       ∧ (cs = [] ↔ ["a"; "b"; "c"; "d"; "e"; "f"; "g"; "h"] = []))
  ∧ keys_of (Report excl_example_before) ["/src/a.c"]
  ∧ (∃ cs,
       scanExclusionMarkers_threads (Report excl_example_before)
         ["/src/a.c"] 4 1 = Ok cs
       ∧ (Z.of_nat (length cs) ≤ 4)%Z
       ∧ concat cs = ["/src/a.c"]
       ∧ concat cs ≡ₚ elements (dom (sources (Report excl_example_before)))
       ∧ Forall (λ c, c ≠ []) cs
       ∧ (cs = [] ↔ sources (Report excl_example_before) = ∅)).
Proof.
  assert (H : (1 ≤ 4)%Z) by lia.
  assert (Hk : keys_of (Report excl_example_before) ["/src/a.c"])
    by (unfold keys_of; vm_compute; reflexivity).
  split; [exact H|]. split; [|split; [exact Hk|]].
  - exact (proj1 workers_at_most_jobs _ 4%Z 1%Z H).
  - exact (proj1 (proj2 workers_at_most_jobs) _ _ 4%Z 1%Z H Hk).
Defined.

(** ** Lines merge by number *)

Lemma line_count_sum_app l1 l2 :
  line_count_sum (l1 ++ l2) = (line_count_sum l1 + line_count_sum l2)%Z.
Proof. induction l1 as [|l l1 IH]; simpl; lia. Qed.

Lemma line_count_sum_Permutation l1 l2 :
  l1 ≡ₚ l2 → line_count_sum l1 = line_count_sum l2.
Proof. induction 1; simpl; lia. Qed.

Lemma distillLines_lines incl ls :
  ∀ lb k,
    (foldl (λ lb l, distillLine l lb.1 lb.2 incl) lb ls).1 !! k
    = match lb.1 !! k, filter (λ l, ln_line_number l = k) ls with
      | None, [] => None
      | None, (_ :: _) as seen => Some (line_count_sum seen)
      | Some c, seen => Some (c + line_count_sum seen)%Z
      end.
Proof.
  induction ls as [|l ls IH]; intros [lns brs] k.
  - simpl. destruct (lns !! k); [|done]. by rewrite Z.add_0_r.
  - cbn [foldl fst snd]. rewrite IH. unfold distillLine. cbn [fst snd].
    rewrite filter_cons.
    destruct (decide (ln_line_number l = k)) as [<-|Hne].
    + destruct (lns !! ln_line_number l) as [c|] eqn:E;
        rewrite lookup_insert_eq; cbn [line_count_sum foldr];
        f_equal; fold (line_count_sum (filter (λ l0, ln_line_number l0
                         = ln_line_number l) ls)); lia.
    + destruct (lns !! ln_line_number l); by rewrite lookup_insert_ne.
Qed.

Lemma distillSource_line_lookup s srcs incl path k :
  line_lookup (distillSource s srcs incl) path k
  = match line_lookup srcs path k,
          filter (λ l, ln_line_number l = k)
            (if decide (file_abs s = path) then raw_lines s else []) with
    | None, [] => None
    | None, (_ :: _) as seen => Some (line_count_sum seen)
    | Some c, seen => Some (c + line_count_sum seen)%Z
    end.
Proof.
  unfold line_lookup, distillSource.
  destruct (decide (file_abs s = path)) as [<-|Hne].
  - rewrite lookup_insert_eq. cbn [mbind option_bind lines].
    rewrite distillLines_lines. cbn [fst].
    destruct (srcs !! file_abs s) as [d|] eqn:E; cbn [mbind option_bind].
    + by rewrite E.
    + by rewrite lookup_insert_eq.
  - rewrite lookup_insert_ne by done. rewrite filter_nil.
    assert (Hsame : (match srcs !! file_abs s with
                     | Some _ => srcs
                     | None => <[file_abs s := SourceData ∅ ∅ ∅]> srcs
                     end) !! path = srcs !! path).
    { destruct (srcs !! file_abs s); [done|]. by rewrite lookup_insert_ne. }
    rewrite Hsame.
    destruct (srcs !! path ≫= λ d, lines d !! k); [|done].
    simpl. by rewrite Z.add_0_r.
Qed.

Lemma distillSources_line_lookup report_raw incl path k :
  ∀ srcs,
    line_lookup (foldl (λ srcs s, distillSource s srcs incl) srcs report_raw)
      path k
    = match line_lookup srcs path k, line_sightings path k report_raw with
      | None, [] => None
      | None, (_ :: _) as seen => Some (line_count_sum seen)
      | Some c, seen => Some (c + line_count_sum seen)%Z
      end.
Proof.
  unfold line_sightings.
  induction report_raw as [|s raw IH]; intros srcs.
  - simpl. destruct (line_lookup srcs path k); [|done].
    by rewrite Z.add_0_r.
  - cbn [foldl]. rewrite IH, distillSource_line_lookup.
    rewrite bind_cons, filter_app.
    destruct (line_lookup srcs path k) as [c|];
      destruct (filter _ (if decide (file_abs s = path) then raw_lines s
                          else [])) as [|l1 ls1] eqn:E1; cbn [app];
      try done.
    + f_equal. simpl. lia.
    + change (l1 :: ls1 ++ ?x) with ((l1 :: ls1) ++ x).
      rewrite line_count_sum_app. f_equal. lia.
    + change (l1 :: ls1 ++ ?x) with ((l1 :: ls1) ++ x).
      by rewrite line_count_sum_app.
Qed.

(** X6. Lines merge by line number within one source path: the stored count
    of a line is the sum of the counts of all its line records, a line
    without a record has no entry, and the stored count does not depend on
    the order in which the raw records are merged. *)
Theorem distill_lines_sum :
  (∀ report_raw incl path k,
     line_lookup (sources (distillReport report_raw incl)) path k
     = match line_sightings path k report_raw with
       | [] => None
       | l :: ls => Some (line_count_sum (l :: ls))
       end)
  ∧ (∀ report_raw report_raw' incl path k,
       report_raw ≡ₚ report_raw' →
       line_lookup (sources (distillReport report_raw incl)) path k
       = line_lookup (sources (distillReport report_raw' incl)) path k).
Proof.
  assert (Hmain : ∀ report_raw incl path k,
     line_lookup (sources (distillReport report_raw incl)) path k
     = match line_sightings path k report_raw with
       | [] => None
       | l :: ls => Some (line_count_sum (l :: ls))
       end).
  { intros. unfold distillReport. cbn [sources].
    by rewrite distillSources_line_lookup. }
  split; [done|].
  intros raw raw' incl path k Hp. rewrite !Hmain.
  assert (Hs : line_sightings path k raw ≡ₚ line_sightings path k raw').
  { unfold line_sightings. by rewrite Hp. }
  destruct (line_sightings path k raw) as [|l ls] eqn:E1,
           (line_sightings path k raw') as [|l' ls'] eqn:E2; try done.
  - by apply Permutation_nil_l in Hs.
  - by apply Permutation_nil_r in Hs.
  - f_equal. by apply line_count_sum_Permutation.
Qed.

Lemma distill_lines_sum_witness :
  [SourceRaw "/src/a.c" [] [LineRaw 7 2 []];
   SourceRaw "/src/a.c" [] [LineRaw 7 3 []; LineRaw 9 0 []]]
  ≡ₚ [SourceRaw "/src/a.c" [] [LineRaw 7 3 []; LineRaw 9 0 []];
      SourceRaw "/src/a.c" [] [LineRaw 7 2 []]]
  ∧ line_lookup
      (sources (distillReport
         [SourceRaw "/src/a.c" [] [LineRaw 7 2 []];
          SourceRaw "/src/a.c" [] [LineRaw 7 3 []; LineRaw 9 0 []]] false))
      "/src/a.c" 7
    = line_lookup
        (sources (distillReport
           [SourceRaw "/src/a.c" [] [LineRaw 7 3 []; LineRaw 9 0 []];
            SourceRaw "/src/a.c" [] [LineRaw 7 2 []]] false))
        "/src/a.c" 7.
Proof.
  assert (Hp : [SourceRaw "/src/a.c" [] [LineRaw 7 2 []];
                SourceRaw "/src/a.c" [] [LineRaw 7 3 []; LineRaw 9 0 []]]
               ≡ₚ [SourceRaw "/src/a.c" [] [LineRaw 7 3 []; LineRaw 9 0 []];
                   SourceRaw "/src/a.c" [] [LineRaw 7 2 []]])
    by apply perm_swap.
  split; [exact Hp|].
  exact (proj2 distill_lines_sum _ _ false "/src/a.c" 7%Z Hp).
Defined.

(** ** Branch lists merge positionally *)

Lemma distillLine_branch_lookup l lns brs incl k :
  (distillLine l lns brs incl).2 !! k
  = merge_opt (brs !! k)
      (if decide (ln_line_number l = k) then incoming_counts incl l else []).
Proof.
  rewrite distillLine_branches. unfold incoming_counts.
  destruct (decide (ln_line_number l = k)) as [<-|Hne].
  - destruct (incoming_branches l incl) as [|b bs]; [done|].
    by rewrite lookup_insert_eq.
  - destruct (incoming_branches l incl) as [|b bs]; [done|].
    by rewrite lookup_insert_ne.
Qed.

Lemma distillLines_branch_lookup incl ls :
  ∀ lb k,
    (foldl (λ lb l, distillLine l lb.1 lb.2 incl) lb ls).2 !! k
    = foldl merge_opt (lb.2 !! k)
        (incoming_counts incl <$> filter (λ l, ln_line_number l = k) ls).
Proof.
  induction ls as [|l ls IH]; intros [lns brs] k; [done|].
  cbn [foldl fst snd]. rewrite IH, distillLine_branch_lookup.
  rewrite filter_cons.
  by destruct (decide (ln_line_number l = k)).
Qed.

Lemma distillSource_branch_lookup s srcs incl path k :
  branch_lookup (distillSource s srcs incl) path k
  = foldl merge_opt (branch_lookup srcs path k)
      (incoming_counts incl
         <$> filter (λ l, ln_line_number l = k)
               (if decide (file_abs s = path) then raw_lines s else [])).
Proof.
  unfold branch_lookup, distillSource.
  destruct (decide (file_abs s = path)) as [<-|Hne].
  - rewrite lookup_insert_eq. cbn [mbind option_bind branches].
    rewrite distillLines_branch_lookup. cbn [snd].
    destruct (srcs !! file_abs s) as [d|] eqn:E; cbn [mbind option_bind].
    + by rewrite E.
    + by rewrite lookup_insert_eq.
  - rewrite lookup_insert_ne by done. rewrite filter_nil. cbn [fmap list_fmap foldl].
    destruct (srcs !! file_abs s); [done|]. by rewrite lookup_insert_ne.
Qed.

Lemma distillSources_branch_lookup report_raw incl path k :
  ∀ srcs,
    branch_lookup
      (foldl (λ srcs s, distillSource s srcs incl) srcs report_raw) path k
    = foldl merge_opt (branch_lookup srcs path k)
        (incoming_counts incl <$> line_sightings path k report_raw).
Proof.
  unfold line_sightings.
  induction report_raw as [|s raw IH]; intros srcs; [done|].
  cbn [foldl]. rewrite IH, distillSource_branch_lookup.
  by rewrite bind_cons, filter_app, fmap_app, foldl_app.
Qed.

Lemma merge_opt_length prev inc :
  from_option length 0 (merge_opt prev inc)
  = from_option length 0 prev `max` length inc.
Proof.
  destruct inc as [|x inc]; [simpl; lia|].
  cbn [merge_opt from_option]. rewrite length_merge_counts.
  by destruct prev.
Qed.

Lemma merge_opt_at_index prev inc i :
  at_index (merge_opt prev inc) i
  = (at_index prev i + default 0%Z (inc !! i))%Z.
Proof.
  unfold at_index. destruct inc as [|x inc].
  - simpl. lia.
  - cbn [merge_opt mbind option_bind]. rewrite lookup_merge_counts.
    destruct prev as [c|]; simpl.
    + destruct ((x :: inc) !! i); destruct (c !! i); simpl; lia.
    + destruct ((x :: inc) !! i); simpl; lia.
Qed.

Lemma merged_length prev incs :
  from_option length 0 (foldl merge_opt prev incs)
  = from_option length 0 prev `max` max_len incs.
Proof.
  revert prev. induction incs as [|inc incs IH]; intros prev.
  - simpl. lia.
  - cbn [foldl max_len foldr]. rewrite IH, merge_opt_length.
    fold (max_len incs). lia.
Qed.

Lemma merged_at_index prev incs i :
  at_index (foldl merge_opt prev incs) i
  = (at_index prev i + index_sum i incs)%Z.
Proof.
  revert prev. induction incs as [|inc incs IH]; intros prev.
  - simpl. lia.
  - cbn [foldl index_sum foldr]. rewrite IH, merge_opt_at_index.
    fold (index_sum i incs). lia.
Qed.

Lemma merged_is_Some prev incs :
  is_Some (foldl merge_opt prev incs) ↔ is_Some prev ∨ max_len incs ≠ 0.
Proof.
  revert prev. induction incs as [|inc incs IH]; intros prev.
  - simpl. naive_solver.
  - cbn [foldl max_len foldr]. rewrite IH. fold (max_len incs).
    destruct inc as [|x inc]; cbn [merge_opt length].
    + split; (intros [?|?]; [by left|right; lia]).
    + split; [intros _; right; lia|intros _; left; by eexists].
Qed.

Lemma merged_positional_sum incs :
  foldl merge_opt None incs = positional_sum incs.
Proof.
  unfold positional_sum.
  pose proof (merged_length None incs) as Hlen.
  pose proof (merged_is_Some None incs) as Hsome.
  pose proof (λ i, merged_at_index None incs i) as Hat.
  destruct (decide (max_len incs = 0)) as [H0|Hn0].
  - destruct (foldl merge_opt None incs) as [l|]; [|done].
    destruct (proj1 Hsome ltac:(by eexists)) as [[? [=]]|?]; done.
  - destruct (foldl merge_opt None incs) as [l|] eqn:E.
    2:{ destruct (proj2 Hsome (or_intror Hn0)) as [? [=]]. }
    f_equal. simpl in Hlen. apply list_eq. intros i.
    rewrite list_lookup_fmap.
    destruct (decide (i < max_len incs)) as [Hi|Hi].
    + rewrite lookup_seq_lt by done. simpl.
      specialize (Hat i). unfold at_index in Hat. simpl in Hat.
      destruct (l !! i) as [x|] eqn:El.
      * simpl in Hat. f_equal. lia.
      * apply lookup_ge_None in El. lia.
    + rewrite lookup_seq_ge by lia. simpl.
      apply lookup_ge_None. lia.
Qed.

Lemma max_len_Permutation incs1 incs2 :
  incs1 ≡ₚ incs2 → max_len incs1 = max_len incs2.
Proof. induction 1; simpl; lia. Qed.

Lemma index_sum_Permutation i incs1 incs2 :
  incs1 ≡ₚ incs2 → index_sum i incs1 = index_sum i incs2.
Proof. induction 1; simpl; lia. Qed.

Lemma positional_sum_Permutation incs1 incs2 :
  incs1 ≡ₚ incs2 → positional_sum incs1 = positional_sum incs2.
Proof.
  intros H. unfold positional_sum.
  rewrite (max_len_Permutation _ _ H).
  destruct (decide (max_len incs2 = 0)); [done|]. f_equal.
  apply list_fmap_ext. intros ? i _. by apply index_sum_Permutation.
Qed.

Lemma distill_branch_lookup report_raw incl path k :
  branch_lookup (sources (distillReport report_raw incl)) path k
  = positional_sum (incoming_counts incl <$> line_sightings path k report_raw).
Proof.
  unfold distillReport. cbn [sources].
  rewrite distillSources_branch_lookup. apply merged_positional_sum.
Qed.

(** X7. Across all raw records of one source path, the branch list stored
    for a line is the positional sum of the (filtered) branch lists of its
    line records: it is as long as the longest of them, its entry at each
    index is the sum of the counts that the records have at that index, and
    there is no entry when every record has an empty list.  The stored list
    does not depend on the order in which the raw records are merged. *)
Theorem distill_branches_positional_sum :
  (∀ report_raw incl path k,
     branch_lookup (sources (distillReport report_raw incl)) path k
     = positional_sum
         (incoming_counts incl <$> line_sightings path k report_raw))
  ∧ (∀ incs l,
       positional_sum incs = Some l →
       length l = max_len incs ∧ l ≠ []
       ∧ ∀ i, i < length l → l !! i = Some (index_sum i incs))
  ∧ (∀ report_raw report_raw' incl path k,
       report_raw ≡ₚ report_raw' →
       branch_lookup (sources (distillReport report_raw incl)) path k
       = branch_lookup (sources (distillReport report_raw' incl)) path k).
Proof.
  split; [apply distill_branch_lookup|]. split.
  - intros incs l. unfold positional_sum.
    destruct (decide (max_len incs = 0)) as [|Hn]; [done|].
    intros [= <-]. rewrite length_fmap, length_seq.
    split; [done|]. split.
    + intros H. apply (f_equal length) in H.
      rewrite length_fmap, length_seq in H. done.
    + intros i Hi. rewrite list_lookup_fmap, lookup_seq_lt by done. done.
  - intros raw raw' incl path k Hp. rewrite !distill_branch_lookup.
    apply positional_sum_Permutation. unfold line_sightings. by rewrite Hp.
Qed.

Lemma distill_branches_positional_sum_witness :
  positional_sum [[1; 0]%Z; [2; 3; 4; 5]%Z] = Some [3; 3; 4; 5]%Z
  ∧ (length [3; 3; 4; 5]%Z = max_len [[1; 0]%Z; [2; 3; 4; 5]%Z]
     ∧ [3; 3; 4; 5]%Z ≠ []
     ∧ ∀ i, i < length [3; 3; 4; 5]%Z →
            [3; 3; 4; 5]%Z !! i
            = Some (index_sum i [[1; 0]%Z; [2; 3; 4; 5]%Z]))
  ∧ [SourceRaw "/src/a.c" []
       [LineRaw 7 1 [BranchRaw 1 false; BranchRaw 0 false]];
     SourceRaw "/src/a.c" []
       [LineRaw 7 1 [BranchRaw 2 false; BranchRaw 3 false;
                     BranchRaw 4 false; BranchRaw 5 false]]]
    ≡ₚ [SourceRaw "/src/a.c" []
          [LineRaw 7 1 [BranchRaw 2 false; BranchRaw 3 false;
                        BranchRaw 4 false; BranchRaw 5 false]];
        SourceRaw "/src/a.c" []
          [LineRaw 7 1 [BranchRaw 1 false; BranchRaw 0 false]]]
  ∧ branch_lookup
      (sources (distillReport
         [SourceRaw "/src/a.c" []
            [LineRaw 7 1 [BranchRaw 1 false; BranchRaw 0 false]];
          SourceRaw "/src/a.c" []
            [LineRaw 7 1 [BranchRaw 2 false; BranchRaw 3 false;
                          BranchRaw 4 false; BranchRaw 5 false]]] false))
      "/src/a.c" 7
    = branch_lookup
        (sources (distillReport
           [SourceRaw "/src/a.c" []
              [LineRaw 7 1 [BranchRaw 2 false; BranchRaw 3 false;
                            BranchRaw 4 false; BranchRaw 5 false]];
            SourceRaw "/src/a.c" []
              [LineRaw 7 1 [BranchRaw 1 false; BranchRaw 0 false]]] false))
        "/src/a.c" 7.
Proof.
  assert (H1 : positional_sum [[1; 0]%Z; [2; 3; 4; 5]%Z]
               = Some [3; 3; 4; 5]%Z) by reflexivity.
  assert (Hp : [SourceRaw "/src/a.c" []
       [LineRaw 7 1 [BranchRaw 1 false; BranchRaw 0 false]];
     SourceRaw "/src/a.c" []
       [LineRaw 7 1 [BranchRaw 2 false; BranchRaw 3 false;
                     BranchRaw 4 false; BranchRaw 5 false]]]
    ≡ₚ [SourceRaw "/src/a.c" []
          [LineRaw 7 1 [BranchRaw 2 false; BranchRaw 3 false;
                        BranchRaw 4 false; BranchRaw 5 false]];
        SourceRaw "/src/a.c" []
          [LineRaw 7 1 [BranchRaw 1 false; BranchRaw 0 false]]])
    by apply perm_swap.
  split; [exact H1|].
  split; [exact (proj1 (proj2 distill_branches_positional_sum) _ _ H1)|].
  split; [exact Hp|].
  exact (proj2 (proj2 distill_branches_positional_sum) _ _ false
           "/src/a.c" 7%Z Hp).
Defined.

(** ** The shape of a distilled report *)

Lemma distillSource_is_Some s srcs incl path :
  is_Some (distillSource s srcs incl !! path)
  ↔ is_Some (srcs !! path) ∨ path = file_abs s.
Proof.
  unfold distillSource.
  destruct (decide (file_abs s = path)) as [<-|Hne].
  - rewrite lookup_insert_eq. split; [by right|by eexists].
  - rewrite lookup_insert_ne by done.
    destruct (srcs !! file_abs s); [naive_solver|].
    rewrite lookup_insert_ne by done. naive_solver.
Qed.

Lemma distillSources_is_Some report_raw incl path :
  ∀ srcs,
    is_Some (foldl (λ srcs s, distillSource s srcs incl) srcs report_raw
               !! path)
    ↔ is_Some (srcs !! path) ∨ path ∈ file_abs <$> report_raw.
Proof.
  induction report_raw as [|s raw IH]; intros srcs.
  - simpl. set_solver.
  - cbn [foldl]. rewrite IH, distillSource_is_Some, fmap_cons. set_solver.
Qed.

Lemma distill_branch_entry report_raw incl path k :
  match branch_lookup (sources (distillReport report_raw incl)) path k with
  | Some l =>
      l ≠ []
      ∧ is_Some (line_lookup (sources (distillReport report_raw incl))
                   path k)
  | None => True
  end.
Proof.
  unfold distillReport. cbn [sources].
  rewrite distillSources_branch_lookup, distillSources_line_lookup.
  unfold branch_lookup, line_lookup. rewrite lookup_empty.
  cbn [mbind option_bind]. rewrite merged_positional_sum.
  unfold positional_sum.
  destruct (decide (max_len _ = 0)) as [|Hn]; [done|]. split.
  - intros H. apply (f_equal length) in H.
    rewrite length_fmap, length_seq in H. done.
  - destruct (line_sightings path k report_raw); [done|by eexists].
Qed.

(** X8. A distilled report has a record for exactly the absolute paths of
    the raw records (also for a raw record without functions and lines), an
    entry for exactly the functions and lines that some raw record of the
    path mentions, and a branch entry only for lines that have a line entry;
    no stored branch list is empty. *)
Theorem distill_report_shape :
  ∀ report_raw incl path,
    (is_Some (sources (distillReport report_raw incl) !! path)
     ↔ path ∈ file_abs <$> report_raw)
    ∧ (∀ name,
         is_Some (fn_lookup (sources (distillReport report_raw incl))
                    path name)
         ↔ sightings path name report_raw ≠ [])
    ∧ (∀ k,
         is_Some (line_lookup (sources (distillReport report_raw incl))
                    path k)
         ↔ line_sightings path k report_raw ≠ [])
    ∧ (∀ k,
         match branch_lookup (sources (distillReport report_raw incl))
                 path k with
         | Some l =>
             l ≠ []
             ∧ is_Some (line_lookup (sources (distillReport report_raw incl))
                          path k)
         | None => True
         end).
Proof.
  intros raw incl path.
  split; [|split; [|split; [|apply distill_branch_entry]]];
    unfold distillReport; cbn [sources].
  - rewrite distillSources_is_Some, lookup_empty.
    split; [intros [[? [=]]|?]; done|by right].
  - intros name. rewrite distillSources_fn_lookup.
    unfold fn_lookup. rewrite lookup_empty. cbn [mbind option_bind merged].
    destruct (sightings path name raw); [|by split; [|eexists]].
    split; [intros [? [=]]|done].
  - intros k. rewrite distillSources_line_lookup.
    unfold line_lookup at 1. rewrite lookup_empty. cbn [mbind option_bind].
    destruct (line_sightings path k raw); [|by split; [|eexists]].
    split; [intros [? [=]]|done].
Qed.

(** ** More on the branch noise filter *)

Lemma drop_throw_pairs_sublist brs : drop_throw_pairs brs `sublist_of` brs.
Proof.
  induction brs as [|x|x y l IH] using pair_ind; [done..|].
  cbn [drop_throw_pairs]. destruct (br_throw y).
  - by do 2 apply sublist_cons.
  - by do 2 apply sublist_skip.
Qed.

Lemma has_throw_pair_drop_throw_pairs brs :
  has_throw_pair (drop_throw_pairs brs) = false.
Proof.
  induction brs as [|x|x y l IH] using pair_ind; [done..|].
  cbn [drop_throw_pairs]. destruct (br_throw y) eqn:E; [done|].
  cbn [has_throw_pair]. by rewrite E.
Qed.

Lemma even_length_drop_throw_pairs brs :
  Nat.even (length (drop_throw_pairs brs)) = Nat.even (length brs).
Proof.
  induction brs as [|x|x y l IH] using pair_ind; [done..|].
  cbn [drop_throw_pairs]. by destruct (br_throw y).
Qed.

(** X9. The branch noise filter only removes branches: its result is a
    sublist of its input, in the same order.  No adjacent pair of the result
    has its second element flagged [throw], so filtering a filtered list
    changes nothing; and a list of even length is filtered to a list of even
    length. *)
Theorem filter_sublist_idempotent :
  ∀ brs,
    filterExceptionalBranches brs `sublist_of` brs
    ∧ has_throw_pair (filterExceptionalBranches brs) = false
    ∧ filterExceptionalBranches (filterExceptionalBranches brs)
      = filterExceptionalBranches brs
    ∧ (Nat.even (length brs)
       → Nat.even (length (filterExceptionalBranches brs))).
Proof.
  intros brs.
  destruct (filterExceptionalBranches_cases brs) as [->| ->].
  - split; [apply sublist_nil_l|]. by repeat split.
  - split; [apply drop_throw_pairs_sublist|].
    split; [apply has_throw_pair_drop_throw_pairs|].
    split.
    + apply filterExceptionalBranches_no_throw,
        has_throw_pair_drop_throw_pairs.
    + by rewrite even_length_drop_throw_pairs.
Qed.

Lemma filter_sublist_idempotent_witness :
  Nat.even (length [BranchRaw 1 false; BranchRaw 0 true;
                    BranchRaw 2 false; BranchRaw 3 false])
  ∧ Nat.even
      (length (filterExceptionalBranches
                 [BranchRaw 1 false; BranchRaw 0 true;
                  BranchRaw 2 false; BranchRaw 3 false])).
Proof.
  assert (H : Nat.even (length [BranchRaw 1 false; BranchRaw 0 true;
                                BranchRaw 2 false; BranchRaw 3 false]))
    by exact I.
  split; [exact H|].
  exact (proj2 (proj2 (proj2 (filter_sublist_idempotent _))) H).
Defined.

(** ** The effect of one marker *)

Lemma marker_step_missing source loc i line srcs :
  srcs !! source = None →
  store_of (marker_step source loc i line srcs) = srcs.
Proof.
  intros Hd. unfold marker_step. destruct loc as [s e].
  destruct (marker_of line) as [[]|]; try done.
  - unfold mbind, scan_bind, in_lines. by rewrite Hd.
  - case_bool_decide; [done|].
    unfold mbind, scan_bind, lines_keys. by rewrite Hd.
  - unfold mbind, scan_bind, in_branches. by rewrite Hd.
Qed.

(** X10. On a source that is in the report, handling the marker of a line
    never raises, and its whole effect is: no marker, nothing; a single-line
    exclusion on line [i], the line entry and the branch entry of line [i]
    removed (either may be absent); a branch-only exclusion, the branch
    entry of line [i] removed; a range start, [i] as pending start; a range
    stop, the range removed if a start is pending.  On a source that is not
    in the report nothing is changed. *)
Theorem marker_step_total :
  (∀ source loc i line srcs d,
     srcs !! source = Some d →
     marker_step source loc i line srcs
     = Done (marker_effect loc i line d).1
         (<[source := (marker_effect loc i line d).2]> srcs))
  ∧ (∀ source loc i line srcs,
       srcs !! source = None →
       store_of (marker_step source loc i line srcs) = srcs).
Proof. split; [apply marker_step_effect|apply marker_step_missing]. Qed.

Lemma marker_step_total_witness :
  excl_example_before !! "/src/a.c"
  = Some (SourceData {[ "f" := Fdata 12 1 ]}
            (entries 5 21 [1; 0]%Z) (entries 5 21 1%Z))
  ∧ marker_step "/src/a.c" (0%Z, 0%Z) 7 "  x++; // LCOV_EXCL_LINE"
      excl_example_before
    = Done
        (marker_effect (0%Z, 0%Z) 7 "  x++; // LCOV_EXCL_LINE"
           (SourceData {[ "f" := Fdata 12 1 ]}
              (entries 5 21 [1; 0]%Z) (entries 5 21 1%Z))).1
        (<["/src/a.c" :=
             (marker_effect (0%Z, 0%Z) 7 "  x++; // LCOV_EXCL_LINE"
                (SourceData {[ "f" := Fdata 12 1 ]}
                   (entries 5 21 [1; 0]%Z) (entries 5 21 1%Z))).2]>
           excl_example_before)
  ∧ excl_example_before !! "/src/b.c" = None
  ∧ store_of (marker_step "/src/b.c" (0%Z, 0%Z) 7
                "  x++; // LCOV_EXCL_LINE" excl_example_before)
    = excl_example_before.
Proof.
  assert (H1 : excl_example_before !! "/src/a.c"
    = Some (SourceData {[ "f" := Fdata 12 1 ]}
              (entries 5 21 [1; 0]%Z) (entries 5 21 1%Z)))
    by reflexivity.
  assert (H2 : excl_example_before !! "/src/b.c" = None) by reflexivity.
  split; [exact H1|].
  split; [exact (proj1 marker_step_total _ _ _ _ _ _ H1)|].
  split; [exact H2|].
  exact (proj2 marker_step_total _ _ _ _ _ H2).
Defined.

(** ** What a worker does to the dict, for any outcome *)

Section respects.
Context (R : relation (gmap string source_data)).
Context `{!Reflexive R, !Transitive R}.

Lemma respects_ret {A} (a : A) : respects R (mret a).
Proof. intros srcs. simpl. reflexivity. Qed.

Lemma respects_bind {A B} (m : scan A) (k : A → scan B) :
  respects R m → (∀ a, respects R (k a)) → respects R (m ≫= k).
Proof.
  intros Hm Hk srcs. unfold mbind, scan_bind.
  specialize (Hm srcs).
  destruct (m srcs) as [a srcs'|e srcs']; simpl in *; [|done].
  etrans; [exact Hm|apply Hk].
Qed.

Lemma respects_when c m : respects R m → respects R (when c m).
Proof. destruct c; [done|]. intros _. apply respects_ret. Qed.

Lemma respects_scan_for {A} (xs : list A) body :
  (∀ x, x ∈ xs → respects R (body x)) → respects R (scan_for xs body).
Proof.
  induction xs as [|x xs IH]; intros Hb; simpl.
  - apply respects_ret.
  - apply respects_bind; [apply Hb; set_solver|].
    intros _. apply IH. intros y Hy. apply Hb. set_solver.
Qed.

Lemma respects_in_branches source i : respects R (in_branches source i).
Proof.
  intros srcs. unfold in_branches.
  destruct (srcs !! source); simpl; reflexivity.
Qed.

Lemma respects_in_lines source i : respects R (in_lines source i).
Proof.
  intros srcs. unfold in_lines.
  destruct (srcs !! source); simpl; reflexivity.
Qed.

Lemma respects_branches_keys source : respects R (branches_keys source).
Proof.
  intros srcs. unfold branches_keys.
  destruct (srcs !! source); simpl; reflexivity.
Qed.

Lemma respects_lines_keys source : respects R (lines_keys source).
Proof.
  intros srcs. unfold lines_keys.
  destruct (srcs !! source); simpl; reflexivity.
Qed.

Lemma respects_getSourceLines fs source :
  respects R (getSourceLines fs source).
Proof.
  intros srcs. unfold getSourceLines.
  destruct (fs source); simpl; reflexivity.
Qed.

Lemma respects_marker_step_dels source loc i line :
  (∀ k, respects R (del_lines source k)) →
  (∀ k, respects R (del_branches source k)) →
  respects R (marker_step source loc i line).
Proof.
  intros Hl Hb. unfold marker_step. destruct loc as [s e].
  destruct (marker_of line) as [[]|]; try case_bool_decide;
    repeat first
      [ apply respects_ret
      | apply respects_bind; [|intros ?]
      | apply respects_when
      | apply respects_scan_for; intros ? _
      | apply respects_in_branches
      | apply respects_in_lines
      | apply respects_branches_keys
      | apply respects_lines_keys
      | apply Hl
      | apply Hb ].
Qed.

Variable P : string → Prop.
Hypothesis del_branches_ok :
  ∀ source i, P source → respects R (del_branches source i).
Hypothesis marker_step_ok :
  ∀ source loc i line, P source → respects R (marker_step source loc i line).

Lemma respects_branch_prefix_filters source excl incl i line :
  P source → respects R (branch_prefix_filters source excl incl i line).
Proof.
  intros HP. unfold branch_prefix_filters.
  apply respects_bind; [apply respects_in_branches|intros b].
  apply respects_when, respects_bind; [|intros _];
    by apply respects_when, del_branches_ok.
Qed.

Lemma respects_scan_lines source excl incl ils :
  P source → ∀ loc, respects R (scan_lines source excl incl loc ils).
Proof.
  intros HP. induction ils as [|il ils IH]; intros loc; simpl.
  - apply respects_ret.
  - apply respects_bind; [|done]. unfold scan_line.
    apply respects_bind; [by apply respects_branch_prefix_filters|].
    intros _. by apply marker_step_ok.
Qed.

Lemma respects_exclMarkerWorker fs chunk excl incl :
  Forall P chunk → respects R (exclMarkerWorker fs chunk excl incl).
Proof.
  intros HP. unfold exclMarkerWorker.
  apply respects_scan_for. intros source Hs.
  rewrite Forall_forall in HP.
  apply respects_bind; [apply respects_getSourceLines|intros text].
  apply respects_bind; [|intros _; apply respects_ret].
  by apply respects_scan_lines, HP.
Qed.

Lemma respects_threads fs excl incl cs :
  (∀ chunk, chunk ∈ cs → Forall P chunk) →
  ∀ srcs,
    R srcs
      (foldl (λ srcs chunk,
                after_thread (exclMarkerWorker fs chunk excl incl) srcs)
         srcs cs).
Proof.
  induction cs as [|c cs IH]; intros HP srcs; [reflexivity|]. simpl.
  etrans; [|apply IH; intros; apply HP; set_solver].
  pose proof (respects_exclMarkerWorker fs c excl incl
                (HP c ltac:(set_solver)) srcs) as H.
  unfold after_thread. by destruct (exclMarkerWorker fs c excl incl srcs).
Qed.
End respects.

Global Instance pruned_refl : Reflexive pruned.
Proof. by intros d. Qed.

Global Instance pruned_trans : Transitive pruned.
Proof.
  intros d1 d2 d3 (Hf1 & Hl1 & Hb1) (Hf2 & Hl2 & Hb2).
  split; [congruence|]. split; by etrans.
Qed.

Global Instance pruned_report_refl : Reflexive pruned_report.
Proof. intros srcs path. by destruct (srcs !! path). Qed.

Global Instance pruned_report_trans : Transitive pruned_report.
Proof.
  intros s1 s2 s3 H12 H23 path. specialize (H12 path). specialize (H23 path).
  destruct (s1 !! path), (s2 !! path), (s3 !! path); try done.
  by etrans.
Qed.

Global Instance same_outside_refl chunk : Reflexive (same_outside chunk).
Proof. by intros srcs path. Qed.

Global Instance same_outside_trans chunk : Transitive (same_outside chunk).
Proof.
  intros s1 s2 s3 H12 H23 path Hp. by rewrite H23, H12.
Qed.

Global Instance keeps_branch_lines_refl : Reflexive keeps_branch_lines.
Proof. intros srcs H. exact H. Qed.

Global Instance keeps_branch_lines_trans : Transitive keeps_branch_lines.
Proof. intros s1 s2 s3 H12 H23 H. by apply H23, H12. Qed.

Lemma pruned_insert srcs source d d' :
  srcs !! source = Some d → pruned d d' →
  pruned_report srcs (<[source := d']> srcs).
Proof.
  intros Hd Hp path. destruct (decide (source = path)) as [<-|Hne].
  - by rewrite lookup_insert_eq, Hd.
  - rewrite lookup_insert_ne by done. by destruct (srcs !! path).
Qed.

Lemma pruned_del_branches source i :
  respects pruned_report (del_branches source i).
Proof.
  intros srcs. unfold del_branches.
  destruct (srcs !! source) as [d|] eqn:E; [|reflexivity].
  destruct (branches d !! i); [|reflexivity]. simpl.
  apply pruned_insert with d; [done|].
  split; [done|]. split; [done|]. apply delete_subseteq.
Qed.

Lemma pruned_del_lines source i :
  respects pruned_report (del_lines source i).
Proof.
  intros srcs. unfold del_lines.
  destruct (srcs !! source) as [d|] eqn:E; [|reflexivity].
  destruct (lines d !! i); [|reflexivity]. simpl.
  apply pruned_insert with d; [done|].
  split; [done|]. split; [apply delete_subseteq|done].
Qed.

Lemma same_outside_del_branches chunk source i :
  source ∈ chunk → respects (same_outside chunk) (del_branches source i).
Proof.
  intros Hs srcs. unfold del_branches.
  destruct (srcs !! source) as [d|] eqn:E; [|reflexivity].
  destruct (branches d !! i); [|reflexivity]. simpl.
  intros path Hp. rewrite lookup_insert_ne; [done|]. by intros ->.
Qed.

Lemma same_outside_del_lines chunk source i :
  source ∈ chunk → respects (same_outside chunk) (del_lines source i).
Proof.
  intros Hs srcs. unfold del_lines.
  destruct (srcs !! source) as [d|] eqn:E; [|reflexivity].
  destruct (lines d !! i); [|reflexivity]. simpl.
  intros path Hp. rewrite lookup_insert_ne; [done|]. by intros ->.
Qed.

Lemma branch_lines_inv_insert srcs source d' :
  branch_lines_inv srcs →
  (∀ k, is_Some (branches d' !! k) → is_Some (lines d' !! k)) →
  branch_lines_inv (<[source := d']> srcs).
Proof.
  intros Hinv Hd' path d k Hp.
  destruct (decide (source = path)) as [<-|Hne].
  - rewrite lookup_insert_eq in Hp. injection Hp as <-. apply Hd'.
  - rewrite lookup_insert_ne in Hp by done. by apply Hinv with path.
Qed.

Lemma keeps_branch_lines_del_branches source i :
  respects keeps_branch_lines (del_branches source i).
Proof.
  intros srcs. unfold del_branches.
  destruct (srcs !! source) as [d|] eqn:E; [|reflexivity].
  destruct (branches d !! i); [|reflexivity]. simpl.
  intros Hinv. apply branch_lines_inv_insert; [done|].
  intros k. cbn [branches lines]. intros [v Hv].
  apply lookup_delete_Some in Hv as [_ Hv].
  apply (Hinv source d k E). by exists v.
Qed.

Lemma keeps_branch_lines_marker_step source loc i line :
  respects keeps_branch_lines (marker_step source loc i line).
Proof.
  intros srcs. destruct (srcs !! source) as [d|] eqn:E.
  2:{ rewrite marker_step_missing by done. reflexivity. }
  rewrite (marker_step_effect _ _ _ _ _ _ E). cbn [store_of].
  intros Hinv. apply branch_lines_inv_insert; [done|].
  pose proof (Hinv source d) as Hd. specialize (λ k, Hd k E).
  intros k. unfold marker_effect.
  destruct (marker_of line) as [[]|]; cbn [snd branches lines]; auto.
  - intros [v Hv]. apply lookup_delete_Some in Hv as [Hne Hv].
    rewrite lookup_delete_ne by done. apply Hd. by exists v.
  - destruct (decide (loc.1 = 0%Z)); cbn [snd branches lines]; [auto|].
    rewrite !lookup_filter_out_of_range.
    destruct (in_range loc.1 i k); [by intros [? [=]]|auto].
  - intros [v Hv]. apply lookup_delete_Some in Hv as [Hne Hv].
    apply Hd. by exists v.
Qed.

Lemma worker_prunes fs chunk excl incl :
  respects pruned_report (exclMarkerWorker fs chunk excl incl).
Proof.
  apply (respects_exclMarkerWorker pruned_report (λ _, True)).
  - intros. apply pruned_del_branches.
  - intros. apply respects_marker_step_dels; [apply _..| |].
    + apply pruned_del_lines.
    + apply pruned_del_branches.
  - by apply Forall_true.
Qed.

Lemma threads_prune fs excl incl cs srcs :
  pruned_report srcs
    (foldl (λ srcs chunk,
              after_thread (exclMarkerWorker fs chunk excl incl) srcs)
       srcs cs).
Proof.
  apply (respects_threads pruned_report (λ _, True)).
  - intros. apply pruned_del_branches.
  - intros. apply respects_marker_step_dels; [apply _..| |].
    + apply pruned_del_lines.
    + apply pruned_del_branches.
  - intros. by apply Forall_true.
Qed.

(** X11. Scanning only removes entries.  After a worker, however it ends,
    and after the whole scanning phase, the report has the same source paths
    as before, and every line count and every branch list that is left is
    one that was there before, unchanged: nothing is added and nothing is
    recounted. *)
Theorem scanner_only_prunes :
  (∀ fs chunk excl incl srcs,
     pruned_report srcs
       (store_of (exclMarkerWorker fs chunk excl incl srcs)))
  ∧ (∀ fs r keys jobs excl incl m,
       (1 ≤ jobs)%Z →
       ∃ r',
         scanExclusionMarkers fs r keys jobs excl incl m = Ok r'
         ∧ pruned_report (sources r) (sources r'))
  ∧ (∀ srcs srcs' path d' k,
       pruned_report srcs srcs' →
       srcs' !! path = Some d' →
       ∃ d, srcs !! path = Some d
            ∧ functions d' = functions d
            ∧ (∀ c, lines d' !! k = Some c → lines d !! k = Some c)
            ∧ (∀ l, branches d' !! k = Some l → branches d !! k = Some l)).
Proof.
  split; [|split].
  - intros. apply worker_prunes.
  - intros fs r keys jobs excl incl m Hj.
    destruct (scanExclusionMarkers_threads_chunked r keys jobs m Hj)
      as (cs & Hcs & _).
    unfold scanExclusionMarkers. rewrite Hcs. cbn [result_bind].
    eexists. split; [done|]. cbn [sources]. apply threads_prune.
  - intros srcs srcs' path d' k Hp Hd'. specialize (Hp path).
    rewrite Hd' in Hp. destruct (srcs !! path) as [d|]; [|done].
    destruct Hp as (Hf & Hl & Hb). exists d. split; [done|].
    split; [done|]. split; intros ? H.
    + by apply (lookup_weaken _ _ _ _ H Hl).
    + by apply (lookup_weaken _ _ _ _ H Hb).
Qed.

Lemma scanner_only_prunes_witness :
  (1 ≤ 1)%Z
  ∧ (∃ r',
       scanExclusionMarkers excl_example_fs (Report excl_example_before)
         ["/src/a.c"] 1 [] [] 5 = Ok r'
       ∧ pruned_report (sources (Report excl_example_before)) (sources r'))
  ∧ pruned_report excl_example_before
      (store_of (exclMarkerWorker excl_example_fs ["/src/a.c"] [] []
                   excl_example_before))
  ∧ store_of (exclMarkerWorker excl_example_fs ["/src/a.c"] [] []
                excl_example_before) !! "/src/a.c"
    = Some (SourceData {[ "f" := Fdata 12 1 ]}
              (entries 5 5 [1; 0]%Z ∪ entries 21 5 [1; 0]%Z)
              (entries 5 5 1%Z ∪ entries 21 5 1%Z))
  ∧ ∃ d, excl_example_before !! "/src/a.c" = Some d
         ∧ {[ "f" := Fdata 12 1 ]} = functions d
         ∧ (∀ c, (entries 5 5 1%Z ∪ entries 21 5 1%Z) !! 6%Z = Some c →
                 lines d !! 6%Z = Some c)
         ∧ (∀ l, (entries 5 5 [1; 0]%Z ∪ entries 21 5 [1; 0]%Z) !! 6%Z
                 = Some l →
                 branches d !! 6%Z = Some l).
Proof.
  assert (H1 : (1 ≤ 1)%Z) by lia.
  assert (H2 : pruned_report excl_example_before
      (store_of (exclMarkerWorker excl_example_fs ["/src/a.c"] [] []
                   excl_example_before)))
    by exact (proj1 scanner_only_prunes _ _ _ _ _).
  assert (H3 : store_of (exclMarkerWorker excl_example_fs ["/src/a.c"] [] []
                excl_example_before) !! "/src/a.c"
    = Some (SourceData {[ "f" := Fdata 12 1 ]}
              (entries 5 5 [1; 0]%Z ∪ entries 21 5 [1; 0]%Z)
              (entries 5 5 1%Z ∪ entries 21 5 1%Z)))
    by (by vm_compute).
  split; [exact H1|].
  split; [exact (proj1 (proj2 scanner_only_prunes) _ _ _ _ [] [] 5%Z H1)|].
  split; [exact H2|]. split; [exact H3|].
  exact (proj2 (proj2 scanner_only_prunes) _ _ _ _ 6%Z H2 H3).
Defined.

(** X12. A worker changes the records of the sources of its own chunk only:
    the record of every other path is the same afterwards, however the
    worker ends. *)
Theorem worker_touches_own_chunk_only :
  ∀ fs chunk excl incl srcs path,
    path ∉ chunk →
    store_of (exclMarkerWorker fs chunk excl incl srcs) !! path
    = srcs !! path.
Proof.
  intros fs chunk excl incl srcs path Hp.
  apply (respects_exclMarkerWorker (same_outside chunk) (λ s, s ∈ chunk));
    [| |by apply Forall_forall|done].
  - intros. by apply same_outside_del_branches.
  - intros. apply respects_marker_step_dels; [apply _..| |]; intros.
    + by apply same_outside_del_lines.
    + by apply same_outside_del_branches.
Qed.

Lemma worker_touches_own_chunk_only_witness :
  ("/src/b.c" ∉ ["/src/a.c"])
  ∧ store_of
      (exclMarkerWorker excl_example_fs ["/src/a.c"] [] []
         (<["/src/b.c" := SourceData ∅ ∅ {[ 12%Z := 1%Z ]}]>
            excl_example_before)) !! "/src/b.c"
    = (<["/src/b.c" := SourceData ∅ ∅ {[ 12%Z := 1%Z ]}]>
         excl_example_before) !! "/src/b.c".
Proof.
  assert (H : "/src/b.c" ∉ ["/src/a.c"]).
  { intros Hin. apply list_elem_of_singleton in Hin. discriminate Hin. }
  split; [exact H|].
  exact (worker_touches_own_chunk_only excl_example_fs _ [] [] _ _ H).
Defined.

Lemma worker_keeps_branch_lines fs excl incl cs srcs :
  keeps_branch_lines srcs
    (foldl (λ srcs chunk,
              after_thread (exclMarkerWorker fs chunk excl incl) srcs)
       srcs cs).
Proof.
  apply (respects_threads keeps_branch_lines (λ _, True)).
  - intros. apply keeps_branch_lines_del_branches.
  - intros. apply keeps_branch_lines_marker_step.
  - intros. by apply Forall_true.
Qed.

Lemma distilled_branch_lines_inv report_raw incl :
  branch_lines_inv (sources (distillReport report_raw incl)).
Proof.
  intros path d k Hd [l Hl].
  pose proof (distill_branch_entry report_raw incl path k) as H.
  unfold branch_lookup, line_lookup in H. rewrite Hd in H.
  cbn [mbind option_bind] in H. rewrite Hl in H. apply H.
Qed.

(** X13. In the report that reaches the serialiser, distilled from raw
    records and then scanned with at least one job, every branch entry is a
    non-empty list and belongs to a line that still has a line entry,
    whatever the order in which the sources are handed to the workers. *)
Theorem scanned_report_branches_have_lines :
  ∀ report_raw incl_x fs keys jobs excl incl m,
    (1 ≤ jobs)%Z →
    ∃ r',
      scanExclusionMarkers fs (distillReport report_raw incl_x) keys jobs
        excl incl m = Ok r'
      ∧ ∀ path d k l,
          sources r' !! path = Some d →
          branches d !! k = Some l →
          l ≠ [] ∧ is_Some (lines d !! k).
Proof.
  intros raw incl_x fs keys jobs excl incl m Hj.
  destruct (scanExclusionMarkers_threads_chunked (distillReport raw incl_x)
              keys jobs m Hj) as (cs & Hcs & _).
  unfold scanExclusionMarkers. rewrite Hcs. cbn [result_bind].
  eexists. split; [done|]. cbn [sources].
  intros path d k l Hd Hl. split.
  - pose proof (threads_prune fs excl incl cs
                  (sources (distillReport raw incl_x)) path) as Hp.
    rewrite Hd in Hp.
    destruct (sources (distillReport raw incl_x) !! path) as [d0|] eqn:E0;
      [|done].
    destruct Hp as (_ & _ & Hb).
    pose proof (lookup_weaken _ _ _ _ Hl Hb) as Hl0.
    pose proof (distill_branch_entry raw incl_x path k) as H.
    unfold branch_lookup in H. rewrite E0 in H.
    cbn [mbind option_bind] in H. rewrite Hl0 in H. apply H.
  - apply (worker_keeps_branch_lines fs excl incl cs _
             (distilled_branch_lines_inv raw incl_x) path d k Hd).
    by exists l.
Qed.

Lemma scanned_report_branches_have_lines_witness :
  (1 ≤ 1)%Z
  ∧ ∃ r',
      scanExclusionMarkers excl_example_fs
        (distillReport
           [SourceRaw "/src/a.c" []
              [LineRaw 7 1 [BranchRaw 1 false; BranchRaw 0 false]]] false)
        ["/src/a.c"] 1 [] [] 5 = Ok r'
      ∧ ∀ path d k l,
          sources r' !! path = Some d →
          branches d !! k = Some l →
          l ≠ [] ∧ is_Some (lines d !! k).
Proof.
  assert (H : (1 ≤ 1)%Z) by lia.
  split; [exact H|].
  exact (scanned_report_branches_have_lines _ false excl_example_fs
           ["/src/a.c"] 1%Z [] [] 5%Z H).
Defined.

(** ** Sources without markers, and sources that cannot be read *)

Lemma marker_of_none line :
  contains "LCOV_EXCL" line = false → marker_of line = None.
Proof. intros H. unfold marker_of. by rewrite H. Qed.

Lemma scan_lines_no_markers source srcs text :
  is_Some (srcs !! source) →
  Forall (λ line, contains "LCOV_EXCL" line = false) text →
  ∀ (f : nat → Z) loc,
    scan_lines source [] [] loc (imap (λ k line, (f k, line)) text) srcs
    = Done loc srcs.
Proof.
  intros Hs. induction 1 as [|line text Hline Htext IH]; intros f loc;
    [done|].
  rewrite imap_cons. cbn [scan_lines]. unfold mbind, scan_bind.
  rewrite scan_line_no_filters by done.
  unfold marker_step. destruct loc as [s e].
  rewrite (marker_of_none _ Hline). unfold mret, scan_ret.
  apply (IH (f ∘ S)).
Qed.

(** X14. Without branch prefix lists, a worker leaves the dict exactly as
    it is, and ends normally, when every source of its chunk is in the
    report and can be read and none of its lines contains "LCOV_EXCL". *)
Theorem worker_without_markers_changes_nothing :
  ∀ fs chunk srcs,
    Forall (λ source,
              is_Some (srcs !! source)
              ∧ ∃ text,
                  fs source = Some text
                  ∧ Forall (λ line, contains "LCOV_EXCL" line = false) text)
      chunk →
    exclMarkerWorker fs chunk [] [] srcs = Done () srcs.
Proof.
  intros fs chunk srcs. unfold exclMarkerWorker.
  induction 1 as [|source chunk (Hs & text & Hfs & Htext) Hchunk IH];
    [done|].
  cbn [scan_for]. unfold mbind at 1. unfold scan_bind at 1.
  unfold mbind at 1. unfold scan_bind at 1.
  unfold getSourceLines at 1. rewrite Hfs.
  unfold mbind at 1. unfold scan_bind at 1. unfold enumerate1.
  rewrite (scan_lines_no_markers source srcs text Hs Htext
             (λ k, Z.of_nat k + 1)%Z).
  unfold mret at 1, scan_ret at 1. exact IH.
Qed.

Lemma worker_without_markers_changes_nothing_witness :
  Forall (λ source,
            is_Some (excl_example_before !! source)
            ∧ ∃ text,
                (λ _, Some ["int x;"; "  x++;"]) source = Some text
                ∧ Forall (λ line, contains "LCOV_EXCL" line = false) text)
    ["/src/a.c"]
  ∧ exclMarkerWorker (λ _, Some ["int x;"; "  x++;"]) ["/src/a.c"] [] []
      excl_example_before
    = Done () excl_example_before.
Proof.
  assert (H : Forall (λ source,
            is_Some (excl_example_before !! source)
            ∧ ∃ text,
                (λ _, Some ["int x;"; "  x++;"]) source = Some text
                ∧ Forall (λ line, contains "LCOV_EXCL" line = false) text)
    ["/src/a.c"]).
  { apply Forall_singleton. split; [by eexists|].
    eexists. split; [reflexivity|].
    apply Forall_cons. split; [reflexivity|].
    apply Forall_singleton. reflexivity. }
  split; [exact H|].
  exact (worker_without_markers_changes_nothing _ _ _ H).
Defined.

Lemma scan_for_app {A} (xs ys : list A) body srcs :
  scan_for (xs ++ ys) body srcs
  = match scan_for xs body srcs with
    | Done _ srcs' => scan_for ys body srcs'
    | Raised e srcs' => Raised e srcs'
    end.
Proof.
  revert srcs. induction xs as [|x xs IH]; intros srcs; [done|].
  cbn [app scan_for]. unfold mbind, scan_bind.
  destruct (body x srcs) as [[] srcs'|e srcs']; [apply IH|done].
Qed.

(** X15. A worker stops at the first source that it cannot open: if the
    sources before it were scanned normally, the worker ends with the
    exception of [open] and the dict as those sources left it, and the
    remaining sources of the chunk are not scanned.  More generally, once a
    prefix of the chunk has raised, the rest of the chunk does not matter. *)
Theorem worker_stops_at_unreadable_source :
  (∀ fs before source rest excl incl srcs srcs1,
     exclMarkerWorker fs before excl incl srcs = Done () srcs1 →
     fs source = None →
     exclMarkerWorker fs (before ++ source :: rest) excl incl srcs
     = Raised FileNotFoundError srcs1)
  ∧ (∀ fs before rest excl incl srcs e srcs1,
       exclMarkerWorker fs before excl incl srcs = Raised e srcs1 →
       exclMarkerWorker fs (before ++ rest) excl incl srcs
       = Raised e srcs1).
Proof.
  split.
  - intros fs before source rest excl incl srcs srcs1 Hb Hfs.
    unfold exclMarkerWorker in *. rewrite scan_for_app, Hb.
    cbn [scan_for]. unfold mbind, scan_bind, getSourceLines.
    by rewrite Hfs.
  - intros fs before rest excl incl srcs e srcs1 Hb.
    unfold exclMarkerWorker in *. by rewrite scan_for_app, Hb.
Qed.

Lemma worker_stops_at_unreadable_source_witness :
  exclMarkerWorker excl_example_fs ["/src/a.c"] [] [] excl_example_before
  = Done () excl_example_after
  ∧ excl_example_fs "/src/gone.c" = None
  ∧ exclMarkerWorker excl_example_fs
      (["/src/a.c"] ++ "/src/gone.c" :: ["/src/a.c"]) [] []
      excl_example_before
    = Raised FileNotFoundError excl_example_after
  ∧ exclMarkerWorker excl_example_fs ["/src/gone.c"] [] []
      excl_example_before
    = Raised FileNotFoundError excl_example_before
  ∧ exclMarkerWorker excl_example_fs (["/src/gone.c"] ++ ["/src/a.c"]) [] []
      excl_example_before
    = Raised FileNotFoundError excl_example_before.
Proof.
  assert (H1 : exclMarkerWorker excl_example_fs ["/src/a.c"] [] []
                 excl_example_before = Done () excl_example_after)
    by (by vm_compute).
  assert (H2 : excl_example_fs "/src/gone.c" = None) by reflexivity.
  assert (H3 : exclMarkerWorker excl_example_fs ["/src/gone.c"] [] []
                 excl_example_before
               = Raised FileNotFoundError excl_example_before)
    by reflexivity.
  split; [exact H1|]. split; [exact H2|].
  split; [exact (proj1 worker_stops_at_unreadable_source _ _ _ _ _ _ _ _
                   H1 H2)|].
  split; [exact H3|].
  exact (proj2 worker_stops_at_unreadable_source _ _ ["/src/a.c"] _ _ _ _ _
           H3).
Defined.

(** ** More on the LCOV serialisation *)

Global Instance le_da_trans : Transitive le_da.
Proof. unfold le_da. apply _. Qed.

Lemma strictly_increasing_keys (da : list (Z * Z)) :
  StronglySorted le_da da → NoDup da.*1 → StronglySorted Z.lt da.*1.
Proof.
  induction 1 as [|[a b] da Hs IH Hall]; intros Hnd; [constructor|].
  rewrite fmap_cons in Hnd. apply NoDup_cons in Hnd as [Hnotin Hnd].
  cbn [fmap list_fmap fst]. constructor; [by apply IH|].
  apply Forall_fmap, Forall_forall. intros [a' b'] Hin.
  rewrite Forall_forall in Hall. specialize (Hall _ Hin).
  unfold le_da, lex_le in Hall. cbn [fst snd] in *. unfold compose.
  cbn [fst].
  destruct Hall as [[Hle Hne]|[-> _]]; [lia|].
  destruct Hnotin. apply list_elem_of_fmap. by exists (a', b').
Qed.

Lemma dump_lines_sorted lns :
  ∃ da,
    dump_lines lns
    = (DA <$> da)
      ++ [LF (Z.of_nat (size lns)); LH (nonzero_counts (map_to_list lns))]
    ∧ Sorted le_da da
    ∧ da ≡ₚ map_to_list lns.
Proof.
  unfold dump_lines. rewrite da_loop. cbn [app].
  rewrite Z.add_0_l, <-length_map_to_list, zero_nonzero_counts.
  eexists. split; [done|]. apply sorted_Sorted, _.
Qed.

(** X16. The DA lines of a source are its (line, count) entries, one per
    line, in strictly increasing order of the line number; they are followed
    by LF with the number of lines and LH with the number of lines whose
    count is not zero. *)
Theorem lcov_da_lines :
  ∀ lns, ∃ da,
    dump_lines lns
    = (DA <$> da)
      ++ [LF (Z.of_nat (size lns)); LH (nonzero_counts (map_to_list lns))]
    ∧ da ≡ₚ map_to_list lns
    ∧ StronglySorted Z.lt da.*1
    ∧ (∀ k c, (k, c) ∈ da ↔ lns !! k = Some c).
Proof.
  intros lns. destruct (dump_lines_sorted lns) as (da & Hd & Hs & Hp).
  exists da. split; [done|]. split; [done|]. split.
  - apply strictly_increasing_keys.
    + by apply Sorted_StronglySorted; [apply _|].
    + rewrite Hp. apply NoDup_fst_map_to_list.
  - intros k c. rewrite Hp. apply elem_of_map_to_list.
Qed.

Lemma nonzero_counts_bounds {A} (l : list (A * Z)) :
  (0 ≤ nonzero_counts l ≤ Z.of_nat (length l))%Z.
Proof.
  unfold nonzero_counts. split; [lia|].
  apply inj_le. induction l as [|t l IH]; [done|].
  rewrite filter_cons. destruct (decide _); simpl; lia.
Qed.

Lemma functions_hit_bounds fns :
  (0 ≤ functions_hit fns ≤ Z.of_nat (size fns))%Z.
Proof.
  unfold functions_hit. rewrite <-length_map_to_list. split; [lia|].
  apply inj_le. induction (map_to_list fns) as [|t l IH]; [done|].
  rewrite filter_cons. destruct (decide _); simpl; lia.
Qed.

(** X17. In every section of a source block the "hit" figure lies between
    0 and the "found" figure: FNH and FNF, BRH and BRF, LH and LF, each
    pair closing its section. *)
Theorem lcov_hit_at_most_found :
  (∀ fns, ∃ body found hit,
     dump_functions fns = body ++ [FNF found; FNH hit]
     ∧ found = Z.of_nat (size fns) ∧ (0 ≤ hit ≤ found)%Z)
  ∧ (∀ brs, ∃ body found hit,
       dumpBranchCoverageToLcovInfo brs = body ++ [BRF found; BRH hit]
       ∧ (0 ≤ hit ≤ found)%Z)
  ∧ (∀ lns, ∃ body found hit,
       dump_lines lns = body ++ [LF found; LH hit]
       ∧ found = Z.of_nat (size lns) ∧ (0 ≤ hit ≤ found)%Z).
Proof.
  split; [|split].
  - intros fns. destruct (dump_functions_sorted fns)
      as (fn & fnda & Hd & _).
    exists ((FN <$> fn) ++ (FNDA <$> fnda)), (Z.of_nat (size fns)),
      (functions_hit fns).
    split; [by rewrite Hd, <-app_assoc|]. split; [done|].
    apply functions_hit_bounds.
  - intros brs. destruct (dump_branches_sorted brs) as (brda & Hd & _).
    eexists _, _, _. split; [exact Hd|]. apply nonzero_counts_bounds.
  - intros lns. destruct (dump_lines_sorted lns) as (da & Hd & _).
    eexists _, _, _. split; [exact Hd|]. split; [done|].
    rewrite <-length_map_to_list. apply nonzero_counts_bounds.
Qed.

(** X18. The LCOV file is the sequence of the blocks of the sources of the
    report, one block per source, in ascending order of the source path; an
    empty report gives an empty file. *)
Theorem lcov_blocks_by_path :
  (∀ r, ∃ blocks : list (string * source_data),
     dumpToLcovInfo r = blocks ≫= (λ b, dump_source b.1 b.2)
     ∧ Sorted String.le blocks.*1
     ∧ NoDup blocks.*1
     ∧ ∀ sf data, (sf, data) ∈ blocks ↔ sources r !! sf = Some data)
  ∧ dumpToLcovInfo (Report ∅) = [].
Proof. split; [apply dumpToLcovInfo_blocks|done]. Qed.

(** ** More on the JSON serialisation *)

Lemma fmap_pairs_inj {K V} (m1 m2 : list (K * V))
    (key : K → pykey) (val : V → pyval) :
  Inj (=) (=) key → Inj (=) (=) val →
  (λ kv, (key kv.1, val kv.2)) <$> m1 = (λ kv, (key kv.1, val kv.2)) <$> m2 →
  m1 = m2.
Proof.
  intros Hk Hv. revert m2.
  induction m1 as [|[k v] m1 IH]; intros [|[k' v'] m2] H; try done.
  cbn [fmap list_fmap fst snd] in H. injection H as Hk' Hv' H.
  apply Hk in Hk'. apply Hv in Hv'. subst. f_equal. by apply IH.
Qed.

Lemma map_pairs_inj `{Countable K} {V} (m1 m2 : gmap K V)
    (key : K → pykey) (val : V → pyval) :
  Inj (=) (=) key → Inj (=) (=) val →
  (λ kv, (key kv.1, val kv.2)) <$> map_to_list m1
  = (λ kv, (key kv.1, val kv.2)) <$> map_to_list m2 →
  m1 = m2.
Proof.
  intros Hk Hv Heq. apply map_to_list_inj.
  by rewrite (fmap_pairs_inj _ _ key val Hk Hv Heq).
Qed.

Global Instance text_key_inj : Inj (=) (=) text_key.
Proof. intros k1 k2 [=]. by apply (inj pretty). Qed.

Global Instance fdata_to_py_inj : Inj (=) (=) fdata_to_py.
Proof. intros [s1 c1] [s2 c2] [=]. by subst. Qed.

Global Instance counts_to_py_inj :
  Inj (=) (=) (λ l : list Z, PList (PInt <$> l)).
Proof.
  intros l1 l2 [= H]. revert l2 H.
  induction l1 as [|x l1 IH]; intros [|y l2] H; try done.
  injection H as -> H. f_equal. by apply IH.
Qed.

Global Instance PInt_inj : Inj (=) (=) PInt.
Proof. by intros x y [=]. Qed.

Lemma source_to_py_inj line_key :
  Inj (=) (=) line_key → Inj (=) (=) (source_to_py line_key).
Proof.
  intros Hk [f1 b1 l1] [f2 b2 l2] [= Hf Hb Hl].
  cbn [functions branches lines] in *.
  apply (map_pairs_inj f1 f2 KStr fdata_to_py _ _) in Hf.
  apply (map_pairs_inj b1 b2 line_key (λ l, PList (PInt <$> l)) _ _) in Hb.
  apply (map_pairs_inj l1 l2 line_key PInt _ _) in Hl.
  by subst.
Qed.

Lemma report_to_py_inj line_key :
  Inj (=) (=) line_key → Inj (=) (=) (report_to_py line_key).
Proof.
  intros Hk [s1] [s2] [= Hs]. cbn [sources] in Hs.
  pose proof (source_to_py_inj line_key Hk).
  apply (map_pairs_inj s1 s2 KStr (source_to_py line_key) _ _) in Hs.
  by subst.
Qed.

(** X19. The canonical JSON document determines the report: two reports
    that [dumpToJson] writes as the same document are the same report. *)
Theorem dumpToJson_injective :
  ∀ r1 r2, dumpToJson r1 = dumpToJson r2 → r1 = r2.
Proof.
  intros r1 r2 H. apply (f_equal json_load) in H.
  unfold dumpToJson in H. rewrite !roundtrip_report in H.
  by apply (report_to_py_inj text_key _) in H.
Qed.

Lemma dumpToJson_injective_witness :
  dumpToJson (Report excl_example_after) = dumpToJson (Report excl_example_after)
  ∧ Report excl_example_after = Report excl_example_after.
Proof.
  assert (H : dumpToJson (Report excl_example_after)
              = dumpToJson (Report excl_example_after)) by reflexivity.
  split; [exact H|]. exact (dumpToJson_injective _ _ H).
Defined.

Lemma roundtrip_source_text d :
  json_load (json_dump (source_to_py text_key d)) = source_to_py text_key d.
Proof.
  unfold source_to_py.
  rewrite roundtrip_dict by (apply (bool_decide_unpack _); by vm_compute).
  cbn [fmap list_fmap fst snd key_text].
  rewrite (roundtrip_map (functions d) KStr fdata_to_py fdata_to_py);
    [|by intros ?? ?|apply roundtrip_fdata].
  rewrite (roundtrip_map (branches d) text_key (λ l, PList (PInt <$> l))
             (λ l, PList (PInt <$> l)));
    [|intros ?? ?; by apply (inj pretty)|apply roundtrip_counts].
  rewrite (roundtrip_map (lines d) text_key PInt PInt);
    [|intros ?? ?; by apply (inj pretty)|done].
  done.
Qed.

(** X20. What comes back from the JSON document is stable: writing the
    re-read report (whose line keys are text) with [json.dump] and reading
    it again gives the same value, so only the first round trip changes the
    keys. *)
Theorem json_second_round_trip :
  ∀ r,
    json_load (json_dump (json_load (dumpToJson r)))
    = json_load (dumpToJson r).
Proof.
  intros r. unfold dumpToJson. rewrite roundtrip_report.
  unfold report_to_py.
  rewrite roundtrip_dict by (apply (bool_decide_unpack _); by vm_compute).
  cbn [fmap list_fmap fst snd key_text].
  rewrite (roundtrip_map (sources r) KStr (source_to_py text_key)
             (source_to_py text_key));
    [|by intros ?? ?|apply roundtrip_source_text].
  done.
Qed.

(** ** Which marker a line carries *)

Lemma prefix_app_weaken a b line :
  String.prefix (a +:+ b) line = true → String.prefix a line = true.
Proof.
  revert line. induction a as [|c a IH]; intros line H; [by destruct line|].
  destruct line as [|c' line]; [done|].
  change (String c a +:+ b) with (String c (a +:+ b)) in H. cbn in *.
  destruct (Ascii.ascii_dec c c'); [by apply IH|done].
Qed.

Lemma contains_app_weaken a b line :
  contains (a +:+ b) line = true → contains a line = true.
Proof.
  induction line as [|c line IH]; cbn [contains]; intros H.
  - apply orb_true_iff in H as [H|H]; [|done].
    apply prefix_app_weaken in H. by rewrite H.
  - apply orb_true_iff in H as [H|H].
    + apply prefix_app_weaken in H. by rewrite H.
    + rewrite (IH H). by rewrite orb_true_r.
Qed.

(** X21. Which marker a line carries is decided by the first of the four
    keywords, in the order LCOV_EXCL_LINE, LCOV_EXCL_START, LCOV_EXCL_STOP,
    LCOV_EXCL_BR_LINE, that the line contains: a line with LCOV_EXCL_LINE is
    a single-line exclusion even when it also holds a range keyword, a start
    wins over a stop, and a line that contains "LCOV_EXCL" but none of the
    four keywords carries no marker.  The first test of the loop body, for
    "LCOV_EXCL" alone, is a shortcut only: it never changes the outcome. *)
Theorem marker_priority :
  ∀ line,
    marker_of line
    = if contains "LCOV_EXCL_LINE" line then Some ExclLine
      else if contains "LCOV_EXCL_START" line then Some ExclStart
      else if contains "LCOV_EXCL_STOP" line then Some ExclStop
      else if contains "LCOV_EXCL_BR_LINE" line then Some ExclBrLine
      else None.
Proof.
  intros line. unfold marker_of.
  destruct (contains "LCOV_EXCL" line) eqn:E; [done|]. cbn [negb].
  assert (H : ∀ b, contains ("LCOV_EXCL" +:+ b) line = false).
  { intros b. destruct (contains ("LCOV_EXCL" +:+ b) line) eqn:Eb; [|done].
    apply contains_app_weaken in Eb. congruence. }
  pose proof (H "_LINE") as H1. pose proof (H "_START") as H2.
  pose proof (H "_STOP") as H3. pose proof (H "_BR_LINE") as H4.
  change ("LCOV_EXCL" +:+ "_LINE") with "LCOV_EXCL_LINE" in H1.
  change ("LCOV_EXCL" +:+ "_START") with "LCOV_EXCL_START" in H2.
  change ("LCOV_EXCL" +:+ "_STOP") with "LCOV_EXCL_STOP" in H3.
  change ("LCOV_EXCL" +:+ "_BR_LINE") with "LCOV_EXCL_BR_LINE" in H4.
  by rewrite H1, H2, H3, H4.
Qed.

(** ** Full exceptional-branch mode *)

Lemma foldl_ext_in {A B} (f g : A → B → A) (l : list B) :
  (∀ a x, x ∈ l → f a x = g a x) → ∀ a, foldl f a l = foldl g a l.
Proof.
  induction l as [|x l IH]; intros H a; [done|]. simpl.
  rewrite H by set_solver. apply IH. intros. apply H. set_solver.
Qed.

Lemma distillLine_mode l lns brs :
  has_throw_pair (ln_branches l) = false →
  distillLine l lns brs false = distillLine l lns brs true.
Proof.
  intros H. unfold distillLine, incoming_branches.
  by rewrite filterExceptionalBranches_no_throw.
Qed.

(** X22. Requesting full exceptional-branch inclusion changes the distilled
    report only through lines that have an exception pair: when no line
    record has a pair whose second branch is flagged [throw], both modes
    distil the same report. *)
Theorem distill_modes_agree_without_throw :
  ∀ report_raw,
    Forall (λ s, Forall (λ l, has_throw_pair (ln_branches l) = false)
                   (raw_lines s)) report_raw →
    distillReport report_raw false = distillReport report_raw true.
Proof.
  intros raw H. unfold distillReport. f_equal.
  apply foldl_ext_in. intros srcs s Hs.
  rewrite Forall_forall in H. specialize (H s Hs).
  unfold distillSource. f_equal. f_equal.
  - f_equal. apply foldl_ext_in. intros lb l Hl.
    rewrite Forall_forall in H. by apply distillLine_mode, H.
  - f_equal. apply foldl_ext_in. intros lb l Hl.
    rewrite Forall_forall in H. by apply distillLine_mode, H.
Qed.

Lemma distill_modes_agree_without_throw_witness :
  Forall (λ s, Forall (λ l, has_throw_pair (ln_branches l) = false)
                 (raw_lines s))
    [SourceRaw "/src/a.c" []
       [LineRaw 7 1 [BranchRaw 1 false; BranchRaw 0 false;
                     BranchRaw 2 true]]]
  ∧ distillReport
      [SourceRaw "/src/a.c" []
         [LineRaw 7 1 [BranchRaw 1 false; BranchRaw 0 false;
                       BranchRaw 2 true]]] false
    = distillReport
        [SourceRaw "/src/a.c" []
           [LineRaw 7 1 [BranchRaw 1 false; BranchRaw 0 false;
                         BranchRaw 2 true]]] true.
Proof.
  assert (H : Forall (λ s, Forall (λ l, has_throw_pair (ln_branches l)
                                        = false) (raw_lines s))
    [SourceRaw "/src/a.c" []
       [LineRaw 7 1 [BranchRaw 1 false; BranchRaw 0 false;
                     BranchRaw 2 true]]]).
  { apply Forall_singleton. cbn [raw_lines]. apply Forall_singleton.
    reflexivity. }
  split; [exact H|]. exact (distill_modes_agree_without_throw _ H).
Defined.

(** ** The scan and the number of jobs *)

Lemma threads_as_one_worker fs excl incl cs :
  ∀ srcs srcs',
    exclMarkerWorker fs (concat cs) excl incl srcs = Done () srcs' →
    foldl (λ srcs chunk,
             after_thread (exclMarkerWorker fs chunk excl incl) srcs)
      srcs cs
    = srcs'.
Proof.
  induction cs as [|c cs IH]; intros srcs srcs' H.
  - simpl in *. by injection H.
  - cbn [concat foldl] in *. unfold exclMarkerWorker in H.
    rewrite scan_for_app in H. fold (exclMarkerWorker fs c excl incl) in H.
    unfold after_thread.
    destruct (exclMarkerWorker fs c excl incl srcs) as [[] s1|e s1]; [|done].
    by apply IH.
Qed.

Lemma one_job_one_chunk r keys m :
  keys_of r keys → keys ≠ [] →
  scanExclusionMarkers_threads r keys 1 m = Ok [keys].
Proof.
  intros Hk Hne.
  destruct (scanExclusionMarkers_threads_chunked r keys 1 m ltac:(lia))
    as (cs & Hcs & Hcat & Hlen & _).
  rewrite Hcs. f_equal.
  rewrite Z.div_1_r, <-(keys_of_length r keys Hk) in Hlen.
  assert (Hpos : 0 < length keys) by (destruct keys; [done|simpl; lia]).
  set (n := Z.to_nat (Z.max m (Z.of_nat (length keys) + 1))) in *.
  assert (Hn : length keys < n) by lia.
  assert (H1 : (length keys + n - 1) / n = 1).
  { symmetry. apply (Nat.div_unique _ _ _ (length keys - 1)); lia. }
  rewrite H1 in Hlen. destruct cs as [|c [|c' cs]]; try done.
  simpl in Hcat. rewrite app_nil_r in Hcat. by rewrite Hcat.
Qed.

(** X23. When one worker going through all sources of the report, in the
    order of the dict, would end normally, the scanned report is the dict
    that this worker leaves, for every number of jobs (at least one) and
    every minimum chunk size: the cut into chunks does not show.  It does
    show when a worker fails.  With one job there is one worker, so when
    the file of the first source of the dict cannot be opened, no source is
    scanned and the report is left as it was.  With a missing file first
    and a source with a range exclusion second, one job leaves the second
    source unscanned and three jobs scan it. *)
Theorem scan_independent_of_jobs :
  (∀ fs r keys jobs excl incl m srcs',
     (1 ≤ jobs)%Z →
     exclMarkerWorker fs keys excl incl (sources r) = Done () srcs' →
     scanExclusionMarkers fs r keys jobs excl incl m = Ok (Report srcs'))
  ∧ (∀ fs r source rest excl incl m,
       keys_of r (source :: rest) →
       fs source = None →
       scanExclusionMarkers fs r (source :: rest) 1 excl incl m = Ok r)
  ∧ keys_of (Report excl_example_with_missing) ["/src/gone.c"; "/src/a.c"]
  ∧ scanExclusionMarkers excl_example_fs (Report excl_example_with_missing)
      ["/src/gone.c"; "/src/a.c"] 1 [] [] 1
    = Ok (Report excl_example_with_missing)
  ∧ scanExclusionMarkers excl_example_fs (Report excl_example_with_missing)
      ["/src/gone.c"; "/src/a.c"] 3 [] [] 1
    = Ok (Report (<["/src/gone.c" := SourceData ∅ ∅ {[ 12%Z := 1%Z ]}]>
                    excl_example_after)).
Proof.
  split; [|split; [|split; [|split]]]; [| | |by vm_compute..].
  - intros fs r keys jobs excl incl m srcs' Hj H.
    destruct (scanExclusionMarkers_threads_chunked r keys jobs m Hj)
      as (cs & Hcs & Hcat & _).
    unfold scanExclusionMarkers. rewrite Hcs. cbn [result_bind].
    do 2 f_equal. apply threads_as_one_worker. by rewrite Hcat.
  - intros fs r source rest excl incl m Hk Hfs.
    unfold scanExclusionMarkers.
    rewrite (one_job_one_chunk r _ m Hk) by done.
    cbn [result_bind foldl]. unfold after_thread, exclMarkerWorker.
    cbn [scan_for]. unfold mbind, scan_bind, getSourceLines.
    rewrite Hfs. by destruct r.
  - unfold keys_of. vm_compute. first [reflexivity|apply perm_swap].
Qed.

Lemma scan_independent_of_jobs_witness :
  (1 ≤ 4)%Z
  ∧ exclMarkerWorker excl_example_fs ["/src/a.c"] [] []
      (sources (Report excl_example_before))
    = Done () excl_example_after
  ∧ scanExclusionMarkers excl_example_fs (Report excl_example_before)
      ["/src/a.c"] 4 [] [] 2
    = Ok (Report excl_example_after)
  ∧ keys_of (Report excl_example_with_missing) ["/src/gone.c"; "/src/a.c"]
  ∧ excl_example_fs "/src/gone.c" = None
  ∧ scanExclusionMarkers excl_example_fs (Report excl_example_with_missing)
      ["/src/gone.c"; "/src/a.c"] 1 [] [] 7
    = Ok (Report excl_example_with_missing).
Proof.
  assert (H1 : (1 ≤ 4)%Z) by lia.
  assert (H2 : exclMarkerWorker excl_example_fs ["/src/a.c"] [] []
      (sources (Report excl_example_before))
    = Done () excl_example_after) by (by vm_compute).
  assert (H3 : keys_of (Report excl_example_with_missing)
                 ["/src/gone.c"; "/src/a.c"])
    by (unfold keys_of; vm_compute; first [reflexivity|apply perm_swap]).
  assert (H4 : excl_example_fs "/src/gone.c" = None) by reflexivity.
  split; [exact H1|]. split; [exact H2|].
  split; [exact (proj1 scan_independent_of_jobs _ _ _ _ _ _ 2%Z _ H1 H2)|].
  split; [exact H3|]. split; [exact H4|].
  exact (proj1 (proj2 scan_independent_of_jobs) _ _ _ _ [] [] 7%Z H3 H4).
Defined.

(** ** The workers of the scanning phase are independent *)

Section local_to.
Context (chunk : list string).

Lemma local_ret {A} (a : A) : local_to chunk (mret a).
Proof. by intros s s' H. Qed.

Lemma local_bind {A B} (m : scan A) (k : A → scan B) :
  local_to chunk m → (∀ a, local_to chunk (k a)) → local_to chunk (m ≫= k).
Proof.
  intros Hm Hk s s' H. unfold mbind, scan_bind. specialize (Hm s s' H).
  destruct (m s) as [a s1|e s1], (m s') as [a' s1'|e' s1']; try done.
  destruct Hm as [<- H1]. by apply Hk.
Qed.

Lemma local_when c m : local_to chunk m → local_to chunk (when c m).
Proof. destruct c; [done|]. intros _. apply local_ret. Qed.

Lemma local_scan_for {A} (xs : list A) body :
  (∀ x, x ∈ xs → local_to chunk (body x)) →
  local_to chunk (scan_for xs body).
Proof.
  induction xs as [|x xs IH]; intros Hb; simpl.
  - apply local_ret.
  - apply local_bind; [apply Hb; set_solver|].
    intros _. apply IH. intros y Hy. apply Hb. set_solver.
Qed.

Lemma agree_on_insert source d s s' :
  agree_on chunk s s' →
  agree_on chunk (<[source := d]> s) (<[source := d]> s').
Proof.
  intros H p Hp. destruct (decide (source = p)) as [<-|Hne].
  - by rewrite !lookup_insert_eq.
  - rewrite !lookup_insert_ne by done. by apply H.
Qed.

Lemma local_in_branches source i :
  source ∈ chunk → local_to chunk (in_branches source i).
Proof.
  intros Hs s s' H. unfold in_branches. rewrite <-(H source Hs).
  by destruct (s !! source).
Qed.

Lemma local_in_lines source i :
  source ∈ chunk → local_to chunk (in_lines source i).
Proof.
  intros Hs s s' H. unfold in_lines. rewrite <-(H source Hs).
  by destruct (s !! source).
Qed.

Lemma local_branches_keys source :
  source ∈ chunk → local_to chunk (branches_keys source).
Proof.
  intros Hs s s' H. unfold branches_keys. rewrite <-(H source Hs).
  by destruct (s !! source).
Qed.

Lemma local_lines_keys source :
  source ∈ chunk → local_to chunk (lines_keys source).
Proof.
  intros Hs s s' H. unfold lines_keys. rewrite <-(H source Hs).
  by destruct (s !! source).
Qed.

Lemma local_del_branches source i :
  source ∈ chunk → local_to chunk (del_branches source i).
Proof.
  intros Hs s s' H. unfold del_branches. rewrite <-(H source Hs).
  destruct (s !! source) as [d|]; [|done].
  destruct (branches d !! i); [|done].
  split; [done|]. by apply agree_on_insert.
Qed.

Lemma local_del_lines source i :
  source ∈ chunk → local_to chunk (del_lines source i).
Proof.
  intros Hs s s' H. unfold del_lines. rewrite <-(H source Hs).
  destruct (s !! source) as [d|]; [|done].
  destruct (lines d !! i); [|done].
  split; [done|]. by apply agree_on_insert.
Qed.

Lemma local_getSourceLines fs source :
  local_to chunk (getSourceLines fs source).
Proof. intros s s' H. unfold getSourceLines. by destruct (fs source). Qed.

Ltac local_step Hs :=
  first
    [ apply local_ret
    | apply local_bind; [|intros ?]
    | apply local_when
    | apply local_scan_for; intros ? _
    | apply (local_in_branches _ _ Hs)
    | apply (local_in_lines _ _ Hs)
    | apply (local_branches_keys _ Hs)
    | apply (local_lines_keys _ Hs)
    | apply (local_del_lines _ _ Hs)
    | apply (local_del_branches _ _ Hs) ].

Lemma local_marker_step source loc i line :
  source ∈ chunk → local_to chunk (marker_step source loc i line).
Proof.
  intros Hs. unfold marker_step. destruct loc as [s e].
  destruct (marker_of line) as [[]|]; try case_bool_decide;
    repeat local_step Hs.
Qed.

Lemma local_branch_prefix_filters source excl incl i line :
  source ∈ chunk →
  local_to chunk (branch_prefix_filters source excl incl i line).
Proof. intros Hs. unfold branch_prefix_filters. repeat local_step Hs. Qed.

Lemma local_scan_lines source excl incl ils :
  source ∈ chunk →
  ∀ loc, local_to chunk (scan_lines source excl incl loc ils).
Proof.
  intros Hs. induction ils as [|il ils IH]; intros loc; simpl.
  - apply local_ret.
  - apply local_bind; [|done]. unfold scan_line.
    apply local_bind; [by apply local_branch_prefix_filters|].
    intros _. by apply local_marker_step.
Qed.

Lemma local_exclMarkerWorker fs excl incl :
  local_to chunk (exclMarkerWorker fs chunk excl incl).
Proof.
  unfold exclMarkerWorker. apply local_scan_for. intros source Hs.
  apply local_bind; [apply local_getSourceLines|intros text].
  apply local_bind; [|intros _; apply local_ret].
  by apply local_scan_lines.
Qed.
End local_to.

Lemma after_thread_outside fs chunk excl incl srcs path :
  path ∉ chunk →
  after_thread (exclMarkerWorker fs chunk excl incl) srcs !! path
  = srcs !! path.
Proof.
  intros Hp.
  pose proof (respects_exclMarkerWorker (same_outside chunk)
                (λ s, s ∈ chunk)) as H.
  specialize (H (λ source i Hs, same_outside_del_branches chunk source i Hs)).
  unfold after_thread.
  assert (Hw : respects (same_outside chunk)
                 (exclMarkerWorker fs chunk excl incl)).
  { apply H; [|by apply Forall_forall].
    intros. apply respects_marker_step_dels; [apply _..| |]; intros.
    - by apply same_outside_del_lines.
    - by apply same_outside_del_branches. }
  specialize (Hw srcs path Hp). unfold store_of in Hw.
  by destruct (exclMarkerWorker fs chunk excl incl srcs).
Qed.

Lemma after_thread_inside fs chunk excl incl srcs srcs' :
  agree_on chunk srcs srcs' →
  agree_on chunk
    (after_thread (exclMarkerWorker fs chunk excl incl) srcs)
    (after_thread (exclMarkerWorker fs chunk excl incl) srcs').
Proof.
  intros H. pose proof (local_exclMarkerWorker chunk fs excl incl _ _ H) as Hr.
  unfold after_thread, same_run in *.
  destruct (exclMarkerWorker fs chunk excl incl srcs),
    (exclMarkerWorker fs chunk excl incl srcs'); try done; apply Hr.
Qed.

Lemma after_thread_commute fs c1 c2 excl incl srcs :
  (∀ path, path ∈ c1 → path ∉ c2) →
  after_thread (exclMarkerWorker fs c2 excl incl)
    (after_thread (exclMarkerWorker fs c1 excl incl) srcs)
  = after_thread (exclMarkerWorker fs c1 excl incl)
      (after_thread (exclMarkerWorker fs c2 excl incl) srcs).
Proof.
  intros Hdisj. apply map_eq. intros path.
  destruct (decide (path ∈ c1)) as [H1|H1].
  - rewrite after_thread_outside by auto.
    apply after_thread_inside; [|done].
    intros p Hp. symmetry. apply after_thread_outside. auto.
  - rewrite (after_thread_outside _ c1 _ _ _ _ H1).
    destruct (decide (path ∈ c2)) as [H2|H2].
    + apply after_thread_inside; [|done].
      intros p Hp. apply after_thread_outside. intros Hp1.
      by apply (Hdisj p).
    + by rewrite !after_thread_outside.
Qed.

Lemma threads_Permutation fs excl incl cs cs' :
  cs ≡ₚ cs' →
  NoDup (concat cs) →
  ∀ srcs,
    foldl (λ srcs chunk,
             after_thread (exclMarkerWorker fs chunk excl incl) srcs)
      srcs cs
    = foldl (λ srcs chunk,
               after_thread (exclMarkerWorker fs chunk excl incl) srcs)
        srcs cs'.
Proof.
  induction 1 as [|c cs cs' Hp IH|c1 c2 cs|cs1 cs2 cs3 H12 IH12 H23 IH23];
    intros Hnd srcs.
  - done.
  - cbn [foldl]. apply IH. cbn [concat] in Hnd.
    by apply NoDup_app in Hnd as (_ & _ & Hnd).
  - cbn [foldl]. f_equal. apply after_thread_commute.
    cbn [concat] in Hnd. apply NoDup_app in Hnd as (_ & Hd & _).
    intros p H2 H1. apply (Hd p H2). apply elem_of_app. by left.
  - rewrite IH12 by done. apply IH23. by rewrite <-H12.
Qed.

(** X24. The workers of the scanning phase are independent of each other.
    What a worker does, and how it ends, depends on the records of the
    sources of its own chunk only; so two workers whose chunks share no path
    leave the same dict whichever of them runs first, and the dict after
    all workers does not depend on the order in which the threads run, when
    no path is in two chunks.  That is so for the chunks of the keys of a
    dict: the result of the scanning phase is the dict that the workers
    leave when they run in any order. *)
Theorem scanning_workers_commute :
  (∀ fs chunk excl incl srcs srcs',
     agree_on chunk srcs srcs' →
     same_run chunk (exclMarkerWorker fs chunk excl incl srcs)
       (exclMarkerWorker fs chunk excl incl srcs'))
  ∧ (∀ fs c1 c2 excl incl srcs,
       (∀ path, path ∈ c1 → path ∉ c2) →
       after_thread (exclMarkerWorker fs c2 excl incl)
         (after_thread (exclMarkerWorker fs c1 excl incl) srcs)
       = after_thread (exclMarkerWorker fs c1 excl incl)
           (after_thread (exclMarkerWorker fs c2 excl incl) srcs))
  ∧ (∀ fs excl incl cs cs' srcs,
       cs ≡ₚ cs' →
       NoDup (concat cs) →
       foldl (λ srcs chunk,
                after_thread (exclMarkerWorker fs chunk excl incl) srcs)
         srcs cs
       = foldl (λ srcs chunk,
                  after_thread (exclMarkerWorker fs chunk excl incl) srcs)
           srcs cs')
  ∧ (∀ fs r keys jobs excl incl m cs cs',
       (1 ≤ jobs)%Z →
       keys_of r keys →
       scanExclusionMarkers_threads r keys jobs m = Ok cs →
       cs ≡ₚ cs' →
       scanExclusionMarkers fs r keys jobs excl incl m
       = Ok (Report
               (foldl (λ srcs chunk,
                         after_thread (exclMarkerWorker fs chunk excl incl)
                           srcs)
                  (sources r) cs'))).
Proof.
  split; [|split; [|split]].
  - intros. by apply local_exclMarkerWorker.
  - intros. by apply after_thread_commute.
  - intros. by apply threads_Permutation.
  - intros fs r keys jobs excl incl m cs cs' Hj Hk Hcs Hp.
    unfold scanExclusionMarkers. rewrite Hcs. cbn [result_bind].
    do 2 f_equal. apply threads_Permutation; [done|].
    destruct (scanExclusionMarkers_threads_chunked r keys jobs m Hj)
      as (cs0 & Hcs0 & Hcat & _).
    rewrite Hcs in Hcs0. injection Hcs0 as <-. rewrite Hcat.
    unfold keys_of in Hk. rewrite Hk. apply NoDup_fst_map_to_list.
Qed.

Lemma scanning_workers_commute_witness :
  (∀ path, path ∈ ["/src/gone.c"] → path ∉ ["/src/a.c"])
  ∧ after_thread (exclMarkerWorker excl_example_fs ["/src/a.c"] [] [])
      (after_thread (exclMarkerWorker excl_example_fs ["/src/gone.c"] [] [])
         excl_example_with_missing)
    = after_thread (exclMarkerWorker excl_example_fs ["/src/gone.c"] [] [])
        (after_thread (exclMarkerWorker excl_example_fs ["/src/a.c"] [] [])
           excl_example_with_missing)
  ∧ [["/src/gone.c"]; ["/src/a.c"]] ≡ₚ [["/src/a.c"]; ["/src/gone.c"]]
  ∧ NoDup (concat [["/src/gone.c"]; ["/src/a.c"]])
  ∧ foldl (λ srcs chunk,
             after_thread (exclMarkerWorker excl_example_fs chunk [] []) srcs)
      excl_example_with_missing [["/src/gone.c"]; ["/src/a.c"]]
    = foldl (λ srcs chunk,
               after_thread (exclMarkerWorker excl_example_fs chunk [] [])
                 srcs)
        excl_example_with_missing [["/src/a.c"]; ["/src/gone.c"]]
  ∧ (1 ≤ 3)%Z
  ∧ keys_of (Report excl_example_with_missing) ["/src/gone.c"; "/src/a.c"]
  ∧ scanExclusionMarkers_threads (Report excl_example_with_missing)
      ["/src/gone.c"; "/src/a.c"] 3 1
    = Ok [["/src/gone.c"]; ["/src/a.c"]]
  ∧ scanExclusionMarkers excl_example_fs (Report excl_example_with_missing)
      ["/src/gone.c"; "/src/a.c"] 3 [] [] 1
    = Ok (Report
            (foldl (λ srcs chunk,
                      after_thread
                        (exclMarkerWorker excl_example_fs chunk [] []) srcs)
               (sources (Report excl_example_with_missing))
               [["/src/a.c"]; ["/src/gone.c"]])).
Proof.
  assert (H4 : (1 ≤ 3)%Z) by lia.
  assert (H5 : keys_of (Report excl_example_with_missing)
                 ["/src/gone.c"; "/src/a.c"])
    by (unfold keys_of; vm_compute; first [reflexivity|apply perm_swap]).
  assert (H6 : scanExclusionMarkers_threads
                 (Report excl_example_with_missing)
                 ["/src/gone.c"; "/src/a.c"] 3 1
               = Ok [["/src/gone.c"]; ["/src/a.c"]]) by (by vm_compute).
  assert (H1 : ∀ path, path ∈ ["/src/gone.c"] → path ∉ ["/src/a.c"]).
  { intros path Hp Ha. apply list_elem_of_singleton in Hp.
    apply list_elem_of_singleton in Ha. rewrite Hp in Ha. discriminate Ha. }
  assert (H2 : [["/src/gone.c"]; ["/src/a.c"]]
               ≡ₚ [["/src/a.c"]; ["/src/gone.c"]]) by apply perm_swap.
  assert (H3 : NoDup (concat [["/src/gone.c"]; ["/src/a.c"]])).
  { apply (bool_decide_unpack _). by vm_compute. }
  split; [exact H1|].
  split; [exact (proj1 (proj2 scanning_workers_commute) _ _ _ _ _ _ H1)|].
  split; [exact H2|]. split; [exact H3|].
  split.
  { exact (proj1 (proj2 (proj2 scanning_workers_commute))
             _ _ _ _ _ _ H2 H3). }
  split; [exact H4|]. split; [exact H5|]. split; [exact H6|].
  exact (proj2 (proj2 (proj2 scanning_workers_commute))
           excl_example_fs _ _ _ [] [] _ _ _ H4 H5 H6 H2).
Defined.
